(** * SkinInTheGameServer: event-to-state reconciliation, verified

    A shallow embedding of the indexer ([src/main.ts]) and of the volume
    history repair job ([src/fixData.ts]), with the properties stated by the
    specification proved (or refuted) on it.

    Layout:
    - [JS]       the fragment of JavaScript the program relies on: values,
                 numbers, [parseFloat], [String(x)], array methods;
    - [Ethers]   [BigNumber] comparison and [formatEther];
    - [Supabase] the tables as lists of rows, with the query builder calls
                 the program makes; the histories the sweep writes reach
                 the tables as JSON;
    - [FixData]  [fixVolumeHistory] and [checkAndFixAllTokenData];
    - [Indexer]  the event handlers and the best-comment ranking;
    - [Events]   the other handlers, the listeners as one dispatch on the
                 event, and [syncPastEvents];
    - [Pure], [Spec], [Behaviour], [Samples]: what the theorems are stated
      with;
    - [Service]  the handlers run one after the other, and what holds of
                 the store between two of them; [Digits], [Scenario];
    - the theorems: first those of the specification, then what else the
      code shows (the repair and the sweep, the store between two handlers,
      the best comment, the events and their order, the volume of an event
      as a number).

    [src/pump.ts] and [src/replaceHistory.ts], which draw random amounts
    and add and round binary floating-point numbers, are not modelled. *)

From Stdlib Require Import ZArith List String Ascii Bool Lia DecimalString
  Permutation Sorted.
From Stdlib Require DecimalFacts DecimalN.
Import ListNotations.
Set Warnings "-register-all".
Local Open Scope list_scope.
Local Open Scope string_scope.
Local Open Scope Z_scope.

(* ===================================================================== *)
(** ** JavaScript values and built-ins                                    *)
(* ===================================================================== *)

Module JS.

(** *** Numbers

    A JavaScript number is [NaN], an infinity, or a finite value.  A
    finite value is kept as the decimal [m * 10^e] it was written as:
    rounding to the nearest binary64 is not modelled, and [-0] is
    identified with [0].  The theorems below are stated so as not to depend
    on the rounding: they use of [parseFloat] whether its result is [NaN]
    and which sign it has, and of a difference its sign; where the order of
    two times or the number written to the store matters, a theorem says of
    which numbers it speaks.  [parseFloat] and [sub] give the normal form,
    in which [m] is not a multiple of ten and zero is [Dec 0 0]. *)
Inductive number : Type :=
| NaN
| PosInfinity
| NegInfinity
| Dec (m e : Z).

Definition isNaN (n : number) : bool :=
  match n with NaN => true | _ => false end.

Definition isFinite (n : number) : bool :=
  match n with Dec _ _ => true | _ => false end.

Fixpoint strip10 (fuel : nat) (m e : Z) : Z * Z :=
  match fuel with
  | O => (m, e)
  | S fuel' =>
      if (m mod 10 =? 0) then strip10 fuel' (m / 10) (e + 1) else (m, e)
  end.

(** The finite number [m * 10^e], in normal form. *)
Definition mkDec (m e : Z) : number :=
  if m =? 0 then Dec 0 0
  else let '(m', e') := strip10 (Z.to_nat (Z.log2 (Z.abs m))) m e in Dec m' e'.

(** [a - b] on numbers. *)
Definition sub (a b : number) : number :=
  match a, b with
  | NaN, _ | _, NaN => NaN
  | PosInfinity, PosInfinity => NaN
  | NegInfinity, NegInfinity => NaN
  | PosInfinity, _ => PosInfinity
  | NegInfinity, _ => NegInfinity
  | _, PosInfinity => NegInfinity
  | _, NegInfinity => PosInfinity
  | Dec m1 e1, Dec m2 e2 =>
      let e := Z.min e1 e2 in
      mkDec (m1 * 10 ^ (e1 - e) - m2 * 10 ^ (e2 - e)) e
  end.

(** [v > 0] and [v < 0]; both are false on [NaN]. *)
Definition gt0 (v : number) : bool :=
  match v with
  | PosInfinity => true
  | Dec m _ => 0 <? m
  | _ => false
  end.

Definition lt0 (v : number) : bool :=
  match v with
  | NegInfinity => true
  | Dec m _ => m <? 0
  | _ => false
  end.

(** [Number.isInteger]. *)
Definition isInteger (n : number) : bool :=
  match n with
  | Dec m e => match mkDec m e with Dec _ e' => 0 <=? e' | _ => false end
  | _ => false
  end.

(** *** Completions

    An evaluation returns a value or throws.  The one exception the
    modelled code can raise inside [fixVolumeHistory] is the [TypeError] of
    a conversion to string. *)
Inductive completion (A : Type) : Type :=
| Normal (value : A)
| Throw.
Arguments Normal {A} value.
Arguments Throw {A}.

Definition bind {A B : Type} (c : completion A) (k : A -> completion B)
  : completion B :=
  match c with
  | Normal a => k a
  | Throw => Throw
  end.

Notation "x <- c ;; k" := (bind c (fun x => k))
  (at level 61, c at next level, right associativity).

(** *** Strings *)

Definition code (c : ascii) : Z := Z.of_nat (nat_of_ascii c).

Definition isDigit (c : ascii) : bool := (48 <=? code c) && (code c <=? 57).

Definition digitVal (c : ascii) : Z := code c - 48.

(** StrWhiteSpaceChar, for the code units a [string] holds here: TAB, LF,
    VT, FF, CR, SP and NBSP. *)
Definition isWhiteSpace (c : ascii) : bool :=
  let n := code c in
  ((9 <=? n) && (n <=? 13)) || (n =? 32) || (n =? 160).

Fixpoint trimStart (s : string) : string :=
  match s with
  | String c rest => if isWhiteSpace c then trimStart rest else s
  | EmptyString => s
  end.

(** The longest prefix of decimal digits, read as a number, with its
    length and the rest of the string. *)
Fixpoint takeDigits (acc len : Z) (s : string) : Z * Z * string :=
  match s with
  | String c rest =>
      if isDigit c then takeDigits (acc * 10 + digitVal c) (len + 1) rest
      else (acc, len, s)
  | EmptyString => (acc, len, s)
  end.

Definition isPrefix (p s : string) : bool := String.prefix p s.

(** The optional ExponentPart of a StrDecimalLiteral: [e] or [E], an
    optional sign and at least one digit; anything else is not part of the
    literal and counts as exponent 0. *)
Definition exponentPart (s : string) : Z :=
  match s with
  | String c rest =>
      if (code c =? 101) || (code c =? 69) then
        let '(neg, rest') :=
          match rest with
          | String d r =>
              if code d =? 45 then (true, r)
              else if code d =? 43 then (false, r)
              else (false, rest)
          | EmptyString => (false, rest)
          end in
        let '(v, len, _) := takeDigits 0 0 rest' in
        if len =? 0 then 0 else if neg then - v else v
      else 0
  | EmptyString => 0
  end.

(** [parseFloat(s)]: skip leading white space, then read the longest prefix
    that is a StrDecimalLiteral; [NaN] when there is none. *)
Definition parseFloat (s : string) : number :=
  let t := trimStart s in
  let '(neg, body) :=
    match t with
    | String c rest =>
        if code c =? 45 then (true, rest)
        else if code c =? 43 then (false, rest)
        else (false, t)
    | EmptyString => (false, t)
    end in
  if isPrefix "Infinity" body then (if neg then NegInfinity else PosInfinity)
  else
    let '(ip, ilen, r1) := takeDigits 0 0 body in
    let '(fp, flen, r2) :=
      match r1 with
      | String c rest =>
          if code c =? 46 then takeDigits ip 0 rest else (ip, 0, r1)
      | EmptyString => (ip, 0, r1)
      end in
    if (ilen =? 0) && (flen =? 0) then NaN
    else
      let m := if neg then - fp else fp in
      mkDec m (exponentPart r2 - flen).

(** [Number::toString(x)] in radix 10. *)
Definition digits (n : Z) : string :=
  NilZero.string_of_uint (N.to_uint (Z.to_N n)).

Fixpoint zeros (n : nat) : string :=
  match n with O => EmptyString | S n' => String "0" (zeros n') end.

Definition strlen (s : string) : Z := Z.of_nat (String.length s).

Definition Number_toString (x : number) : string :=
  match match x with Dec m e => mkDec m e | _ => x end with
  | NaN => "NaN"
  | PosInfinity => "Infinity"
  | NegInfinity => "-Infinity"
  | Dec m e =>
      if m =? 0 then "0"
      else
        let s := digits (Z.abs m) in
        let k := strlen s in
        let n := k + e in
        let body :=
          if (k <=? n) && (n <=? 21) then s ++ zeros (Z.to_nat (n - k))
          else if (0 <? n) && (n <=? 21) then
            substring 0 (Z.to_nat n) s ++ "." ++
            substring (Z.to_nat n) (Z.to_nat (k - n)) s
          else if (-6 <? n) && (n <=? 0) then
            "0." ++ zeros (Z.to_nat (- n)) ++ s
          else
            let ex := n - 1 in
            let exs := (if ex <? 0 then "-" else "+") ++ digits (Z.abs ex) in
            if k =? 1 then s ++ "e" ++ exs
            else substring 0 1 s ++ "." ++
                 substring 1 (Z.to_nat (k - 1)) s ++ "e" ++ exs in
        if m <? 0 then "-" ++ body else body
  end.

(** [s.toLowerCase()], on code units below 256. *)
Definition lowerChar (c : ascii) : ascii :=
  let n := code c in
  if ((65 <=? n) && (n <=? 90))
     || ((192 <=? n) && (n <=? 222) && negb (n =? 215))
  then ascii_of_nat (Z.to_nat (n + 32)) else c.

Fixpoint toLowerCase (s : string) : string :=
  match s with
  | String c rest => String (lowerChar c) (toLowerCase rest)
  | EmptyString => EmptyString
  end.

(** [(s.match(/\./g) || []).length] *)
Fixpoint countDots (s : string) : Z :=
  match s with
  | String c rest => (if code c =? 46 then 1 else 0) + countDots rest
  | EmptyString => 0
  end.

(** *** Values

    What a variable of type [any] can hold in this program: the values JSON
    decoding produces, plus [undefined] and the non-finite numbers.  An
    object is its list of own properties, looked up by the first match;
    no property holds a function. *)
Inductive any : Type :=
| Undefined
| Null
| Boolean (b : bool)
| Num (n : number)
| Str (s : string)
| Arr (elems : list any)
| Obj (props : list (string * any)).

Fixpoint lookup (k : string) (props : list (string * any)) : any :=
  match props with
  | [] => Undefined
  | (k', v) :: rest => if String.eqb k k' then v else lookup k rest
  end.

(** [o.k], for the property names the program reads ([time], [volume]):
    only an object has them. *)
Definition get (o : any) (k : string) : any :=
  match o with
  | Obj props => lookup k props
  | _ => Undefined
  end.

(** [!!v] *)
Definition truthy (v : any) : bool :=
  match v with
  | Undefined | Null => false
  | Boolean b => b
  | Num NaN => false
  | Num (Dec m _) => negb (m =? 0)
  | Num _ => true
  | Str s => negb (String.eqb s EmptyString)
  | Arr _ | Obj _ => true
  end.

(** [v == null] *)
Definition isNullish (v : any) : bool :=
  match v with Undefined | Null => true | _ => false end.

Definition Array_isArray (v : any) : bool :=
  match v with Arr _ => true | _ => false end.

(** [a ?? b] *)
Definition nullish_coalesce (a b : any) : any :=
  if isNullish a then b else a.

Definition hasOwnProperty (k : string) (props : list (string * any)) : bool :=
  existsb (fun kv => String.eqb k (fst kv)) props.

(** [String(v)].  An array joins the strings of its elements with commas,
    [null] and [undefined] elements giving the empty string.  An object is
    ["[object Object]"] through [Object.prototype.toString], unless it has
    an own property named [toString]: that property is found first, is not
    callable, [valueOf] gives back the object, and the conversion throws a
    [TypeError]. *)
Fixpoint ToString (v : any) : completion string :=
  match v with
  | Undefined => Normal "undefined"
  | Null => Normal "null"
  | Boolean b => Normal (if b then "true" else "false")
  | Num n => Normal (Number_toString n)
  | Str s => Normal s
  | Arr elems =>
      (fix join (l : list any) : completion string :=
         match l with
         | [] => Normal EmptyString
         | x :: rest =>
             sx <- match x with
                   | Undefined | Null => Normal EmptyString
                   | _ => ToString x
                   end ;;
             match rest with
             | [] => Normal sx
             | _ :: _ => srest <- join rest ;; Normal (sx ++ "," ++ srest)
             end
         end) elems
  | Obj props =>
      if hasOwnProperty "toString" props then Throw
      else Normal "[object Object]"
  end.

(** A value without [NaN] in it, as every value decoded from JSON is. *)
Fixpoint noNaN (v : any) : bool :=
  match v with
  | Num n => negb (isNaN n)
  | Arr elems => forallb noNaN elems
  | Obj props => forallb (fun kv => noNaN (snd kv)) props
  | _ => true
  end.

(** *** JSON

    [JSON.parse(JSON.stringify(v))]: a value as it arrives when it is sent
    as JSON.  A number that is not finite is written as [null]; so is
    [undefined] in an array, and a property that is [undefined] is left
    out. *)
Fixpoint transported (v : any) : any :=
  match v with
  | Num n => if isFinite n then v else Null
  | Arr elems =>
      Arr (map (fun x => match x with
                         | Undefined => Null
                         | _ => transported x
                         end) elems)
  | Obj props =>
      Obj (flat_map (fun kv => match snd kv with
                               | Undefined => []
                               | _ => [(fst kv, transported (snd kv))]
                               end) props)
  | _ => v
  end.

Definition doubleQuote : ascii := ascii_of_nat 34.

Definition hexDigit (n : Z) : ascii :=
  match String.get (Z.to_nat n) "0123456789abcdef" with
  | Some c => c
  | None => "0"%char
  end.

(** QuoteJSONString, without the two quotes. *)
Fixpoint escaped (s : string) : string :=
  match s with
  | String c rest =>
      let n := code c in
      (if n =? 34 then String "\" (String doubleQuote EmptyString)
       else if n =? 92 then "\\"
       else if n =? 8 then "\b"
       else if n =? 12 then "\f"
       else if n =? 10 then "\n"
       else if n =? 13 then "\r"
       else if n =? 9 then "\t"
       else if n <? 32 then
         "\u00" ++ String (hexDigit (n / 16))
                     (String (hexDigit (n mod 16)) EmptyString)
       else String c EmptyString) ++ escaped rest
  | EmptyString => EmptyString
  end.

Definition quoted (s : string) : string :=
  String doubleQuote (escaped s ++ String doubleQuote EmptyString).

(** [JSON.stringify(v)], for a value other than [undefined]. *)
Fixpoint stringify (v : any) : string :=
  match v with
  | Undefined | Null => "null"
  | Boolean b => if b then "true" else "false"
  | Num n => if isFinite n then Number_toString n else "null"
  | Str s => quoted s
  | Arr elems =>
      "[" ++
      (fix elements (l : list any) : string :=
         match l with
         | [] => EmptyString
         | x :: rest =>
             stringify x ++
             match rest with
             | [] => EmptyString
             | _ :: _ => "," ++ elements rest
             end
         end) elems ++ "]"
  | Obj props =>
      "{" ++
      (fix members (l : list (string * any)) (first : bool) : string :=
         match l with
         | [] => EmptyString
         | kv :: rest =>
             match snd kv with
             | Undefined => members rest first
             | _ =>
                 (if first then EmptyString else ",") ++
                 quoted (fst kv) ++ ":" ++ stringify (snd kv) ++
                 members rest false
             end
         end) props true ++ "}"
  end.

(** *** Arrays *)

Section Arrays.
Context {A B : Type}.

(** [l.filter(callbackfn)] *)
Fixpoint Array_filter (callbackfn : A -> completion bool) (l : list A)
  : completion (list A) :=
  match l with
  | [] => Normal []
  | x :: rest =>
      selected <- callbackfn x ;;
      kept <- Array_filter callbackfn rest ;;
      Normal (if selected then x :: kept else kept)
  end.

(** [l.map(callbackfn)] *)
Fixpoint Array_map (callbackfn : A -> completion B) (l : list A)
  : completion (list B) :=
  match l with
  | [] => Normal []
  | x :: rest =>
      y <- callbackfn x ;;
      ys <- Array_map callbackfn rest ;;
      Normal (y :: ys)
  end.

(** [l.sort(comparefn)] is a stable sort: [b] goes before [a] only when
    [comparefn(a, b) > 0].  With a consistent comparator every stable sort
    gives the same array; it is written here as an insertion sort. *)
Fixpoint insert (comparefn : A -> A -> completion number) (x : A)
  (l : list A) : completion (list A) :=
  match l with
  | [] => Normal [x]
  | y :: rest =>
      v <- comparefn x y ;;
      if gt0 v then moved <- insert comparefn x rest ;; Normal (y :: moved)
      else Normal (x :: l)
  end.

Fixpoint Array_sort (comparefn : A -> A -> completion number) (l : list A)
  : completion (list A) :=
  match l with
  | [] => Normal []
  | x :: rest =>
      sorted <- Array_sort comparefn rest ;;
      insert comparefn x sorted
  end.

(** [l.slice(start)]: a negative [start] counts from the end. *)
Definition Array_slice (l : list A) (start : Z) : list A :=
  let len := Z.of_nat (List.length l) in
  let k := if start <? 0 then Z.max (len + start) 0 else Z.min start len in
  skipn (Z.to_nat k) l.

(** [l.push(x)] *)
Definition Array_push (l : list A) (x : A) : list A := (l ++ [x])%list.

(** The same insertion sort for a comparison that cannot throw: [after x y]
    says that [x] has to go after [y]. *)
Fixpoint insertBy (after : A -> A -> bool) (x : A) (l : list A) : list A :=
  match l with
  | [] => [x]
  | y :: rest => if after x y then y :: insertBy after x rest else x :: l
  end.

Definition sortBy (after : A -> A -> bool) (l : list A) : list A :=
  fold_right (insertBy after) [] l.
End Arrays.

(** The time value of a [Date]: milliseconds since the epoch, or [None]
    for an invalid date (where [getTime()] is [NaN]). *)
Definition timeValue : Type := option Z.

(** [a > b] on time values; false when either is [NaN]. *)
Definition time_gt (a b : timeValue) : bool :=
  match a, b with
  | Some x, Some y => y <? x
  | _, _ => false
  end.

End JS.

Import JS.

(* ===================================================================== *)
(** ** ethers                                                             *)
(* ===================================================================== *)

Module Ethers.

(** A [BigNumber] holding a [uint256] ([totalRaised], a token balance). *)
Definition BigNumber : Type := N.

(** The fraction of [formatFixed] without its trailing zeros (a fraction
    of zeros only is left empty here and becomes a single zero below). *)
Fixpoint stripTrailingZeros (s : string) : string :=
  match s with
  | String c rest =>
      let rest' := stripTrailingZeros rest in
      if String.eqb rest' EmptyString && (code c =? 48) then EmptyString
      else String c rest'
  | EmptyString => EmptyString
  end.

(** [ethers.utils.formatEther(wei)]: the amount in ether as a decimal
    string with at least one fractional digit. *)
Definition formatEther (wei : BigNumber) : string :=
  let value := Z.of_N wei in
  let multiplier := 10 ^ 18 in
  let fraction := digits (value mod multiplier) in
  let fraction := zeros (Z.to_nat (18 - strlen fraction)) ++ fraction in
  let fraction := stripTrailingZeros fraction in
  let fraction := if String.eqb fraction EmptyString then "0" else fraction in
  let whole := digits (value / multiplier) in
  whole ++ "." ++ fraction.

End Ethers.

(* ===================================================================== *)
(** ** The store                                                          *)
(* ===================================================================== *)

(** Rows of the three tables, with the columns the program touches. *)
Module News.
Record row : Type := {
  onchainAddress : string;
  date : string;
  title : string;
  description : string;
  imageUrl : string;
  isLaunched : bool;
  best_comments : any
}.
End News.

Module TokenData.
Record row : Type := {
  onchainAddress : string;
  volume : any;
  volumeHistory : any
}.
End TokenData.

Module Comments.
(** [createdAt] is the time value of [new Date(comment.createdAt)]. *)
Record row : Type := {
  newsId : string;
  walletAddress : string;
  content : string;
  createdAt : timeValue
}.
End Comments.

Module Supabase.

(** The write requests the program sends. *)
Inductive request : Type :=
| InsertNews (r : News.row)
| InsertTokenData (r : TokenData.row)
| UpdateTokenData (key : string) (volume volumeHistory : any)
| UpdateBestComments (key : string) (payload : any).

(** The tables, and the write requests issued so far (oldest first).  The
    store answers every request (a failing request is outside the model),
    and a row holds the value that was written to it: this is what the JSON
    transport does for strings, finite numbers, and arrays and objects of
    these. *)
Record database : Type := {
  news : list News.row;
  tokenData : list TokenData.row;
  comments : list Comments.row;
  writes : list request
}.

Inductive response (A : Type) : Type :=
| Data (data : A)
| Error.
Arguments Data {A} data.
Arguments Error {A}.

(** [.maybeSingle()]: no row is [null], one row is that row, more rows are
    an error. *)
Definition maybeSingle {A : Type} (rows : list A) : response (option A) :=
  match rows with
  | [] => Data None
  | [r] => Data (Some r)
  | _ :: _ :: _ => Error
  end.

(** [.from("News").select("*").eq("onchainAddress", key)] *)
Definition selectNews (db : database) (key : string) : list News.row :=
  filter (fun r => String.eqb (News.onchainAddress r) key) (news db).

(** [.from("TokenData").select("*").eq("onchainAddress", key)] *)
Definition selectTokenData (db : database) (key : string)
  : list TokenData.row :=
  filter (fun r => String.eqb (TokenData.onchainAddress r) key) (tokenData db).

(** [b] has to go before [a] in descending order of [createdAt]; rows
    without one come first. *)
Definition createdAfter (b a : Comments.row) : bool :=
  match Comments.createdAt a, Comments.createdAt b with
  | Some x, Some y => x <? y
  | Some _, None => true
  | None, _ => false
  end.

(** [.from("Comments").select("*").eq("newsId", key)
     .order("createdAt", { ascending: false })] *)
Definition selectComments (db : database) (key : string)
  : list Comments.row :=
  sortBy (fun a b => createdAfter b a)
    (filter (fun r => String.eqb (Comments.newsId r) key) (comments db)).

Definition insertNews (db : database) (r : News.row) : database :=
  {| news := news db ++ [r];
     tokenData := tokenData db;
     comments := comments db;
     writes := writes db ++ [InsertNews r] |}%list.

Definition insertTokenData (db : database) (r : TokenData.row) : database :=
  {| news := news db;
     tokenData := tokenData db ++ [r];
     comments := comments db;
     writes := writes db ++ [InsertTokenData r] |}%list.

(** [.update({ volume, volumeHistory }).eq("onchainAddress", key)] *)
Definition updateTokenData (db : database) (key : string)
  (volume volumeHistory : any) : database :=
  {| news := news db;
     tokenData :=
       map (fun r =>
              if String.eqb (TokenData.onchainAddress r) key then
                {| TokenData.onchainAddress := TokenData.onchainAddress r;
                   TokenData.volume := volume;
                   TokenData.volumeHistory := volumeHistory |}
              else r) (tokenData db);
     comments := comments db;
     writes := writes db ++ [UpdateTokenData key volume volumeHistory] |}%list.

(** The same update for any body: the client sends the body as JSON, so
    that the rows receive [volume] and [volumeHistory] as JSON carries
    them, a number that is not finite as [null].  The request is listed as
    the program made it.  ([updateTokenData] is this update for a body that
    JSON carries as it is, as the bodies of the indexer are: a text, and
    the time value of the clock.) *)
Definition updateTokenDataJSON (db : database) (key : string)
  (volume volumeHistory : any) : database :=
  {| news := news db;
     tokenData :=
       map (fun r =>
              if String.eqb (TokenData.onchainAddress r) key then
                {| TokenData.onchainAddress := TokenData.onchainAddress r;
                   TokenData.volume := transported volume;
                   TokenData.volumeHistory := transported volumeHistory |}
              else r) (tokenData db);
     comments := comments db;
     writes := writes db ++ [UpdateTokenData key volume volumeHistory] |}%list.

(** [.update({ best_comments }).eq("onchainAddress", key)] *)
Definition updateBestComments (db : database) (key : string) (payload : any)
  : database :=
  {| news :=
       map (fun r =>
              if String.eqb (News.onchainAddress r) key then
                {| News.onchainAddress := News.onchainAddress r;
                   News.date := News.date r;
                   News.title := News.title r;
                   News.description := News.description r;
                   News.imageUrl := News.imageUrl r;
                   News.isLaunched := News.isLaunched r;
                   News.best_comments := payload |}
              else r) (news db);
     tokenData := tokenData db;
     comments := comments db;
     writes := writes db ++ [UpdateBestComments key payload] |}%list.

End Supabase.

Import Supabase.

(* ===================================================================== *)
(** ** fixData.ts                                                         *)
(* ===================================================================== *)

Module FixData.

Record VolumeHistoryItem : Type := {
  time : number;
  volume : number
}.

(** A repaired history as the value that is serialized, written back and
    read again. *)
Definition itemToJS (it : VolumeHistoryItem) : any :=
  Obj [("time", Num (time it)); ("volume", Num (volume it))].

Definition toJS (items : list VolumeHistoryItem) : any :=
  Arr (map itemToJS items).

(** The callback of [cloned.filter]. *)
Definition filterCallback (item : any) : completion bool :=
  let checkTime :=
    match get item "time" with
    | Num _ => Normal true
    | t =>
        s <- ToString t ;;
        if isNaN (parseFloat s) then Normal false else Normal true
    end in
  if negb (truthy item) || isNullish (get item "volume") then Normal false
  else
    match get item "volume" with
    | Num _ => checkTime
    | Str s =>
        if countDots s >? 1 then Normal false
        else if isNaN (parseFloat s) then Normal false
        else checkTime
    | _ => Normal false
    end.

(** [typeof a.time === "number" ? a.time : parseFloat(a.time)] *)
Definition timeOf (a : any) : completion number :=
  match get a "time" with
  | Num t => Normal t
  | t => s <- ToString t ;; Normal (parseFloat s)
  end.

(** [typeof item.volume === "number" ? item.volume
     : parseFloat(item.volume)] *)
Definition volumeOf (a : any) : completion number :=
  match get a "volume" with
  | Num v => Normal v
  | v => s <- ToString v ;; Normal (parseFloat s)
  end.

(** The comparator of [filtered.sort]: [tA - tB]. *)
Definition compareTime (a b : any) : completion number :=
  tA <- timeOf a ;;
  tB <- timeOf b ;;
  Normal (sub tA tB).

(** [sorted.length > 4 ? sorted.length - 7 : 0] *)
Definition startIndex (length : Z) : Z :=
  if length >? 4 then length - 7 else 0.

Definition truncate (sorted : list any) : list any :=
  Array_slice sorted (startIndex (Z.of_nat (List.length sorted))).

(** The callback of [truncated.map]. *)
Definition rebuild (item : any) : completion VolumeHistoryItem :=
  t <- timeOf item ;;
  v <- volumeOf item ;;
  Normal {| time := t; volume := v |}.

Definition fixVolumeHistory (original : any)
  : completion (list VolumeHistoryItem) :=
  if negb (truthy original) || negb (Array_isArray original) then Normal []
  else
    match original with
    | Arr cloned =>
        filtered <- Array_filter filterCallback cloned ;;
        sorted <- Array_sort compareTime filtered ;;
        let truncated := truncate sorted in
        Array_map rebuild truncated
    | _ => Normal []
    end.

(** [fixed.length > 0 ? fixed[fixed.length - 1].volume : 0] *)
Definition newVolume (fixed : list VolumeHistoryItem) : number :=
  if Z.of_nat (List.length fixed) >? 0 then
    match nth_error fixed (List.length fixed - 1) with
    | Some it => volume it
    | None => Dec 0 0
    end
  else Dec 0 0.

(** The history of a row as the sweep reads it:
    [row.volumeHistory ?? []]. *)
Definition originalHistory (row : TokenData.row) : any :=
  nullish_coalesce (TokenData.volumeHistory row) (Arr []).

Section Sweep.
(** [JSON.stringify]; the sweep only compares two of its results, and is
    verified for every serializer. *)
Variable JSON_stringify : any -> string.

(** The body of the loop over the rows; an exception is caught and logged,
    and the loop goes on with the next row. *)
Definition fixRow (db : database) (row : TokenData.row) : database :=
  let originalHistory :=
    nullish_coalesce (TokenData.volumeHistory row) (Arr []) in
  let originalStr := JSON_stringify originalHistory in
  match fixVolumeHistory originalHistory with
  | Throw => db
  | Normal fixed =>
      let fixedStr := JSON_stringify (toJS fixed) in
      if String.eqb originalStr fixedStr then db
      else
        updateTokenDataJSON db (TokenData.onchainAddress row)
          (Num (newVolume fixed)) (toJS fixed)
  end.

Definition checkAndFixAllTokenData (db : database) : database :=
  let rows := tokenData db in
  match rows with
  | [] => db
  | _ :: _ => fold_left fixRow rows db
  end.
End Sweep.

End FixData.

(* ===================================================================== *)
(** ** main.ts                                                            *)
(* ===================================================================== *)

Module Indexer.

Import Ethers.

Definition insertNewsOnSaleCreated (db : database)
  (saleContractAddress : string) (blockTimestampMs : number)
  (name description logoUrl : string) : database :=
  let addressLower := toLowerCase saleContractAddress in
  match maybeSingle (selectNews db addressLower) with
  | Error => db
  | Data (Some _) => db
  | Data None =>
      insertNews db
        {| News.onchainAddress := addressLower;
           News.date := Number_toString blockTimestampMs;
           News.title := name;
           News.description := description;
           News.imageUrl := logoUrl;
           News.isLaunched := false;
           News.best_comments := Null |}
  end.

Definition insertTokenDataOnSaleCreated (db : database)
  (saleContractAddress : string) : database :=
  let addressLower := toLowerCase saleContractAddress in
  match maybeSingle (selectTokenData db addressLower) with
  | Error => db
  | Data (Some _) => db
  | Data None =>
      insertTokenData db
        {| TokenData.onchainAddress := addressLower;
           TokenData.volume := Num (Dec 0 0);
           TokenData.volumeHistory := Arr [] |}
  end.

(** The [SaleCreated] listener. *)
Definition onSaleCreated (db : database)
  (saleContractAddress : string) (blockTimestampMs : number)
  (name description logoUrl : string) : database :=
  let db := insertNewsOnSaleCreated db saleContractAddress blockTimestampMs
              name description logoUrl in
  insertTokenDataOnSaleCreated db saleContractAddress.

Definition updateTokenDataVolume (db : database)
  (saleContractAddress : string) (totalRaised : BigNumber)
  (blockTimestampMs : number) : database :=
  let addressLower := toLowerCase saleContractAddress in
  let newVolumeEthString := formatEther totalRaised in
  let sample :=
    Obj [("time", Num blockTimestampMs); ("volume", Str newVolumeEthString)] in
  match maybeSingle (selectTokenData db addressLower) with
  | Error => db
  | Data None =>
      insertTokenData db
        {| TokenData.onchainAddress := addressLower;
           TokenData.volume := Str newVolumeEthString;
           TokenData.volumeHistory := Arr [sample] |}
  | Data (Some existing) =>
      match nullish_coalesce (TokenData.volumeHistory existing) (Arr []) with
      | Arr oldHistory =>
          updateTokenData db addressLower (Str newVolumeEthString)
            (Arr (Array_push oldHistory sample))
      | _ => db  (* [push] is not a function: thrown and caught *)
      end
  end.

(** [saleContract.tokenBalances(wallet)]: the balance, or [None] when the
    call rejects. *)
Definition contract : Type := string -> option BigNumber.

(** One turn of the loop of [getBestComment], on the pair
    [(bestComment, bestBalance)]. *)
Definition considerComment (saleContract : contract)
  (best : option Comments.row * BigNumber) (comment : Comments.row)
  : option Comments.row * BigNumber :=
  let '(bestComment, bestBalance) := best in
  match saleContract (Comments.walletAddress comment) with
  | None => best
  | Some balanceBN =>
      if (bestBalance <? balanceBN)%N then (Some comment, balanceBN)
      else if (balanceBN =? bestBalance)%N then
        match bestComment with
        | Some b =>
            if time_gt (Comments.createdAt comment) (Comments.createdAt b)
            then (Some comment, bestBalance)
            else best
        | None => best
        end
      else best
  end.

Definition getBestComment (allComments : list Comments.row)
  (saleContract : contract) : option Comments.row :=
  fst (fold_left (considerComment saleContract) allComments (None, 0%N)).

(** The handler that [listenToSupabaseComments] registers for an insert
    into [Comments], run on the inserted row; [provider] gives the sale
    contract at an address. *)
Definition listenToSupabaseComments (provider : string -> contract)
  (db : database) (newComment : Comments.row) : database :=
  let newsId := Comments.newsId newComment in
  match maybeSingle (selectNews db (toLowerCase newsId)) with
  | Error => db
  | Data None => db
  | Data (Some _) =>
      match selectComments db (toLowerCase newsId) with
      | [] => db
      | allComments =>
          match getBestComment allComments (provider newsId) with
          | None => db
          | Some bestComment =>
              let bestCommentsPayload :=
                Arr [Obj [("content", Str (Comments.content bestComment));
                          ("walletAddress",
                           Str (Comments.walletAddress bestComment));
                          ("position", Str "default")]] in
              updateBestComments db newsId bestCommentsPayload
          end
      end
  end.

(** A [TokensBought] or [TokensSold] event as its listener passes it on:
    both call [updateTokenDataVolume] with these three values. *)
Record volumeEvent : Type := {
  saleContractAddress : string;
  totalRaised : BigNumber;
  blockTimestampMs : number
}.

Definition onVolumeEvent (db : database) (ev : volumeEvent) : database :=
  updateTokenDataVolume db (saleContractAddress ev) (totalRaised ev)
    (blockTimestampMs ev).

(** The events handled one after the other. *)
Definition onVolumeEvents (db : database) (evs : list volumeEvent)
  : database :=
  fold_left onVolumeEvent evs db.

(** The sample an event adds to the history. *)
Definition sampleOf (ev : volumeEvent) : any :=
  Obj [("time", Num (blockTimestampMs ev));
       ("volume", Str (formatEther (totalRaised ev)))].

End Indexer.

(* ===================================================================== *)
(** ** main.ts: the other handlers, and the dispatch of the events        *)
(* ===================================================================== *)

Module Events.

Import Ethers Indexer.

(** [.from("News").update(patch).eq("onchainAddress", key)] for the two
    updates below: every row of that address gets the columns of the patch.
    The request is not added to [writes], which lists the inserts and the
    updates of [TokenData] and of [best_comments]. *)
Definition updateNews (db : database) (key : string)
  (patch : News.row -> News.row) : database :=
  {| news :=
       map (fun r =>
              if String.eqb (News.onchainAddress r) key then patch r else r)
         (news db);
     tokenData := tokenData db;
     comments := comments db;
     writes := writes db |}.

(** [{ isLaunched: true }] *)
Definition patchIsLaunched (r : News.row) : News.row :=
  {| News.onchainAddress := News.onchainAddress r;
     News.date := News.date r;
     News.title := News.title r;
     News.description := News.description r;
     News.imageUrl := News.imageUrl r;
     News.isLaunched := true;
     News.best_comments := News.best_comments r |}.

(** [{ imageUrl: logoUrl, description: description }] *)
Definition patchMetadata (logoUrl description : string) (r : News.row)
  : News.row :=
  {| News.onchainAddress := News.onchainAddress r;
     News.date := News.date r;
     News.title := News.title r;
     News.description := description;
     News.imageUrl := logoUrl;
     News.isLaunched := News.isLaunched r;
     News.best_comments := News.best_comments r |}.

Definition updateNewsIsLaunched (db : database) (saleContractAddress : string)
  : database :=
  let addressLower := toLowerCase saleContractAddress in
  updateNews db addressLower patchIsLaunched.

Definition updateNewsMetadata (db : database)
  (saleContractAddress logoUrl description : string) : database :=
  let addressLower := toLowerCase saleContractAddress in
  updateNews db addressLower (patchMetadata logoUrl description).

(** Logs the claim, and nothing else. *)
Definition handleClaimed (db : database)
  (saleContractAddress claimant : string) : database :=
  db.

(** An event of the factory contract, with the arguments its listener
    receives. *)
Inductive event : Type :=
| SaleCreated (saleContractAddress creator name symbol : string)
    (saleGoal : BigNumber) (logoUrl description : string)
| SaleLaunched (saleContractAddress launcher : string)
| TokensBought (saleContractAddress buyer : string)
    (totalRaised tokenBalance : BigNumber)
| TokensSold (saleContractAddress seller : string)
    (totalRaised tokenBalance : BigNumber)
| MetaUpdated (saleContractAddress logoUrl description : string)
| Claimed (saleContractAddress claimant : string).

(** The listeners that [listenToEvents] registers, as one function of the
    event; [now] is what [getBlockTimestampMs] returns for it, the time at
    which the listener runs. *)
Definition listenToEvents (db : database) (now : number) (ev : event)
  : database :=
  match ev with
  | SaleCreated saleContractAddress _ name _ _ logoUrl description =>
      let db := insertNewsOnSaleCreated db saleContractAddress now
                  name description logoUrl in
      insertTokenDataOnSaleCreated db saleContractAddress
  | SaleLaunched saleContractAddress _ =>
      updateNewsIsLaunched db saleContractAddress
  | TokensBought saleContractAddress _ totalRaised _ =>
      updateTokenDataVolume db saleContractAddress totalRaised now
  | TokensSold saleContractAddress _ totalRaised _ =>
      updateTokenDataVolume db saleContractAddress totalRaised now
  | MetaUpdated saleContractAddress logoUrl description =>
      updateNewsMetadata db saleContractAddress logoUrl description
  | Claimed saleContractAddress claimant =>
      handleClaimed db saleContractAddress claimant
  end.

(** The sale an event is about: its first argument. *)
Definition addressOf (ev : event) : string :=
  match ev with
  | SaleCreated saleContractAddress _ _ _ _ _ _
  | SaleLaunched saleContractAddress _
  | TokensBought saleContractAddress _ _ _
  | TokensSold saleContractAddress _ _ _
  | MetaUpdated saleContractAddress _ _
  | Claimed saleContractAddress _ => saleContractAddress
  end.

(** The names of the six events. *)
Inductive eventName : Type :=
| SaleCreatedEvent | SaleLaunchedEvent | TokensBoughtEvent
| TokensSoldEvent | MetaUpdatedEvent | ClaimedEvent.

Definition nameOf (ev : event) : eventName :=
  match ev with
  | SaleCreated _ _ _ _ _ _ _ => SaleCreatedEvent
  | SaleLaunched _ _ => SaleLaunchedEvent
  | TokensBought _ _ _ _ => TokensBoughtEvent
  | TokensSold _ _ _ _ => TokensSoldEvent
  | MetaUpdated _ _ _ => MetaUpdatedEvent
  | Claimed _ _ => ClaimedEvent
  end.

Definition eventName_eqb (a b : eventName) : bool :=
  match a, b with
  | SaleCreatedEvent, SaleCreatedEvent
  | SaleLaunchedEvent, SaleLaunchedEvent
  | TokensBoughtEvent, TokensBoughtEvent
  | TokensSoldEvent, TokensSoldEvent
  | MetaUpdatedEvent, MetaUpdatedEvent
  | ClaimedEvent, ClaimedEvent => true
  | _, _ => false
  end.

(** An entry of the contract's log in the block range: its decoded
    arguments, if it has any, and the time at which it is processed. *)
Definition pastEvent : Type := (option event * number)%type.

(** [factory.queryFilter(factory.filters.<name>(), fromBlock, toBlock)]
    followed by [if (!args) continue]: the entries of the log that carry
    the arguments of an event of that name, in the order of the log. *)
Definition queryFilter (name : eventName) (log : list pastEvent)
  : list (event * number) :=
  flat_map (fun entry =>
              match fst entry with
              | Some ev =>
                  if eventName_eqb (nameOf ev) name then [(ev, snd entry)]
                  else []
              | None => []
              end) log.

(** One loop of [syncPastEvents]; its body is the listener of the event. *)
Definition syncEvents (name : eventName) (log : list pastEvent)
  (db : database) : database :=
  fold_left (fun db entry => listenToEvents db (snd entry) (fst entry))
    (queryFilter name log) db.

(** [syncPastEvents]: the six loops, one event name after the other. *)
Definition syncPastEvents (db : database) (log : list pastEvent) : database :=
  let db := syncEvents SaleCreatedEvent log db in
  let db := syncEvents SaleLaunchedEvent log db in
  let db := syncEvents TokensBoughtEvent log db in
  let db := syncEvents TokensSoldEvent log db in
  let db := syncEvents MetaUpdatedEvent log db in
  syncEvents ClaimedEvent log db.

End Events.

Import FixData Indexer Ethers.

(* ===================================================================== *)
(** ** The repair without exceptions                                      *)
(* ===================================================================== *)

(** The functions of [fixVolumeHistory] that come after the filter, for
    samples whose conversions to string the filter has already made: there
    they return what is written here (lemma
    [fixVolumeHistory_characterized]). *)
Module Pure.

Definition stringOf (v : any) : string :=
  match ToString v with
  | Normal s => s
  | Throw => EmptyString
  end.

Definition timeValueOf (a : any) : number :=
  match get a "time" with
  | Num t => t
  | t => parseFloat (stringOf t)
  end.

Definition volumeValueOf (a : any) : number :=
  match get a "volume" with
  | Num v => v
  | v => parseFloat (stringOf v)
  end.

(** [a] has to go after [b]: [tA - tB > 0]. *)
Definition later (a b : any) : bool :=
  gt0 (sub (timeValueOf a) (timeValueOf b)).

Definition rebuilt (item : any) : VolumeHistoryItem :=
  {| time := timeValueOf item; volume := volumeValueOf item |}.

End Pure.

(* ===================================================================== *)
(** ** The specification's wording                                        *)
(* ===================================================================== *)

(** What the specification says, word for word; each definition is
    compared below with what the program does. *)
Module Spec.

Import Pure.

(** "[startIndex = N > 4 ? max(N - 7, 0) : 0], then keep
    [samples[startIndex:]]." *)
Definition retention (samples : list any) : list any :=
  let N := Z.of_nat (List.length samples) in
  skipn (Z.to_nat (if N >? 4 then Z.max (N - 7) 0 else 0)) samples.

(** "Discard any sample whose [volume] is null/undefined ... If [volume] is
    textual, reject it when it contains more than one decimal-point
    character; otherwise parse it as a decimal number and reject if the
    parse fails (non-finite) ... Coerce [time] to a number; reject the
    sample if that coercion yields a non-finite value." *)
Definition removed (item : any) : bool :=
  isNullish (get item "volume")
  || match get item "volume" with
     | Str s => (countDots s >? 1) || negb (isFinite (parseFloat s))
     | _ => false
     end
  || negb (isFinite (timeValueOf item)).

(** "Every sample's [volume] is a finite non-negative number; every
    sample's [timeMs] is a finite integer." *)
Definition sampleOk (it : VolumeHistoryItem) : bool :=
  isFinite (volume it) && negb (lt0 (volume it))
  && isFinite (time it) && isInteger (time it).

(** "The [volume] of the last retained sample, or 0 if none survive." *)
Definition currentVolume (retained : list VolumeHistoryItem) : number :=
  match rev retained with
  | [] => Dec 0 0
  | lastSample :: _ => volume lastSample
  end.

End Spec.

(* ===================================================================== *)
(** ** What the program does, in the terms of the specification           *)
(* ===================================================================== *)

Module Behaviour.

Import Pure.

(** Where the kept suffix starts: [sorted.slice] counts the negative start
    index of five or six samples from the end. *)
Definition keptFrom (N : Z) : Z :=
  if N >? 4 then (if N <? 7 then 2 * N - 7 else N - 7) else 0.

(** The volume of a sample is one the filter accepts: a number, or text
    with at most one decimal point that starts with a number. *)
Definition volumeAccepted (item : any) : bool :=
  match get item "volume" with
  | Num _ => true
  | Str s => negb (countDots s >? 1) && negb (isNaN (parseFloat s))
  | _ => false
  end.

(** The time of a sample is one the filter accepts: a number, or a value
    that starts with a number when written as text. *)
Definition timeAccepted (item : any) : bool :=
  match get item "time" with
  | Num _ => true
  | t => negb (isNaN (parseFloat (stringOf t)))
  end.

(** The samples the filter removes. *)
Definition removedByFilter (item : any) : bool :=
  negb (volumeAccepted item) || negb (timeAccepted item).

(** The samples on which the filter throws: the volume is accepted and the
    time, not a number, cannot be written as text. *)
Definition throwsOn (item : any) : bool :=
  volumeAccepted item
  && match get item "time" with
     | Num _ => false
     | t => match ToString t with Throw => true | Normal _ => false end
     end.

(** The repaired history of an array [cloned] on which the filter does not
    throw. *)
Definition repaired (cloned : list any) : list VolumeHistoryItem :=
  map rebuilt
    (truncate
       (sortBy later (filter (fun item => negb (removedByFilter item)) cloned))).

(** [x] is not after [y]: the comparator does not ask to put [y] first. *)
Definition notAfter (x y : VolumeHistoryItem) : Prop :=
  gt0 (sub (time x) (time y)) = false.

(** What holds of a retained sample. *)
Definition sampleNotNaN (it : VolumeHistoryItem) : bool :=
  negb (isNaN (volume it)) && negb (isNaN (time it)).

(** The time and the volume of a sample are finite numbers. *)
Definition finiteSample (it : VolumeHistoryItem) : bool :=
  isFinite (time it) && isFinite (volume it).

(** The numbers that come back from the store as they were sent: a
    decimal of at most 15 digits within the range of the normal binary64
    numbers is the shortest text of the floating-point number nearest to
    it, and two such decimals are in the order of their floating-point
    numbers. *)
Definition roundTrips (n : number) : bool :=
  match n with
  | Dec m e => (Z.abs m <? 10 ^ 15) && (-300 <=? e) && (e <=? 290)
  | _ => true
  end.

(** A stored sample of which the repair reads such a time and such a
    volume. *)
Definition portable (item : any) : bool :=
  match timeOf item, volumeOf item with
  | Normal t, Normal v => roundTrips t && roundTrips v
  | _, _ => false
  end.

(** The write the sweep issues for a row it repairs to [fixed]. *)
Definition writeBack (row : TokenData.row) (fixed : list VolumeHistoryItem)
  : request :=
  UpdateTokenData (TokenData.onchainAddress row)
    (Num (Spec.currentVolume fixed)) (toJS fixed).

Section Sweep.
Variable JSON_stringify : any -> string.

(** The writes the sweep issues for a row it has read. *)
Definition writesFor (row : TokenData.row) : list request :=
  match fixVolumeHistory (originalHistory row) with
  | Throw => []
  | Normal fixed =>
      if String.eqb (JSON_stringify (originalHistory row))
           (JSON_stringify (toJS fixed))
      then [] else [writeBack row fixed]
  end.

(** A row the sweep finds nothing to change in. *)
Definition settled (row : TokenData.row) : Prop := writesFor row = [].

(** What a write to the address of [row] does to a stored row [r]: the
    row receives the repaired history and its volume as JSON carries
    them. *)
Definition rewritten (row : TokenData.row) (fixed : list VolumeHistoryItem)
  (r : TokenData.row) : TokenData.row :=
  if String.eqb (TokenData.onchainAddress r) (TokenData.onchainAddress row)
  then {| TokenData.onchainAddress := TokenData.onchainAddress r;
          TokenData.volume := transported (Num (newVolume fixed));
          TokenData.volumeHistory := transported (toJS fixed) |}
  else r.

(** A row that one sweep settles: the sweep finds nothing to change in it,
    or repairs it to finite numbers, which JSON carries as they are. *)
Definition calm (row : TokenData.row) : Prop :=
  settled row \/
  forall fixed,
    fixVolumeHistory (originalHistory row) = Normal fixed ->
    forallb finiteSample fixed = true.
End Sweep.

End Behaviour.

(* ===================================================================== *)
(** ** Sample data                                                        *)
(* ===================================================================== *)

Module Samples.

(** [{ time: t, volume: v }] with numeric fields. *)
Definition sample (t v : Z) : any :=
  Obj [("time", Num (Dec t 0)); ("volume", Num (Dec v 0))].

(** Five valid samples in ascending order of time. *)
Definition five : list any :=
  [sample 1 10; sample 2 20; sample 3 30; sample 4 40; sample 5 50].

(** [{ time: 1.5, volume: -5 }] *)
Definition negative : any :=
  Obj [("time", Num (Dec 15 (-1))); ("volume", Num (Dec (-5) 0))].

(** [{ time: 1, volume: "Infinity" }] *)
Definition infinite : any :=
  Obj [("time", Num (Dec 1 0)); ("volume", Str "Infinity")].

(** [{ time: 1, volume: true }] *)
Definition boolean : any :=
  Obj [("time", Num (Dec 1 0)); ("volume", Boolean true)].

(** [{ time: 2, volume: "0.01.02" }] *)
Definition twoDots : any :=
  Obj [("time", Num (Dec 2 0)); ("volume", Str "0.01.02")].

(** [{ time: { toString: 1 }, volume: 1 }]: the time cannot be written
    as text. *)
Definition unprintable : any :=
  Obj [("time", Obj [("toString", Num (Dec 1 0))]);
       ("volume", Num (Dec 1 0))].

(** [{ time: "3", volume: "0.5" }] *)
Definition textual : any :=
  Obj [("time", Str "3"); ("volume", Str "0.5")].

(** Two comments on one sale, written at 10:00 and at 10:05. *)
Definition commentAt1000 : Comments.row :=
  {| Comments.newsId := "0xsale";
     Comments.walletAddress := "0xalice";
     Comments.content := "first";
     Comments.createdAt := Some 36000000 |}.

Definition commentAt1005 : Comments.row :=
  {| Comments.newsId := "0xsale";
     Comments.walletAddress := "0xbob";
     Comments.content := "second";
     Comments.createdAt := Some 36300000 |}.

(** A store with the sale ["0xsale"] and the two comments on it. *)
Definition saleNews : News.row :=
  {| News.onchainAddress := "0xsale";
     News.date := "1700000000000";
     News.title := "Sale";
     News.description := "A sale";
     News.imageUrl := "logo.png";
     News.isLaunched := false;
     News.best_comments := Null |}.

Definition store : database :=
  {| news := [saleNews];
     tokenData := [];
     comments := [commentAt1000; commentAt1005];
     writes := [] |}.

(** Every wallet holds [balance] tokens of every sale. *)
Definition everyoneHolds (balance : BigNumber) : string -> contract :=
  fun _ _ => Some balance.

(** Three purchases on the sale ["0xSALE"], raising 1, 1.5 and 2.25 ether
    in total. *)
Definition purchases : list volumeEvent :=
  [ {| saleContractAddress := "0xSALE";
       totalRaised := 1000000000000000000%N;
       blockTimestampMs := Dec 1700000000001 0 |};
    {| saleContractAddress := "0xSale";
       totalRaised := 1500000000000000000%N;
       blockTimestampMs := Dec 1700000000002 0 |};
    {| saleContractAddress := "0xsale";
       totalRaised := 2250000000000000000%N;
       blockTimestampMs := Dec 1700000000003 0 |} ].

End Samples.

(* ===================================================================== *)
(** ** The handlers at work                                               *)
(* ===================================================================== *)

(** What reaches the store while the programs run, and what is true of the
    store between two handlers.  A handler is taken to run from its first
    request to its last before the next one starts: handlers whose requests
    interleave are outside of the model. *)
Module Service.

Import Events.

(** An event of the factory contract reaching its listener at the time
    [now], an insert into [Comments] reaching the realtime handler, or a
    sweep of [checkAndFixAllTokenData]. *)
Inductive delivery : Type :=
| ChainEvent (now : number) (ev : event)
| CommentInserted (provider : string -> contract) (newComment : Comments.row)
| Sweep.

Section Run.
Variable JSON_stringify : any -> string.

Definition step (db : database) (d : delivery) : database :=
  match d with
  | ChainEvent now ev => listenToEvents db now ev
  | CommentInserted provider newComment =>
      listenToSupabaseComments provider db newComment
  | Sweep => checkAndFixAllTokenData JSON_stringify db
  end.

Definition run (db : database) (ds : list delivery) : database :=
  fold_left step ds db.
End Run.

Definition newsKeys (db : database) : list string :=
  map News.onchainAddress (news db).

Definition tokenKeys (db : database) : list string :=
  map TokenData.onchainAddress (tokenData db).

(** No two rows of a table have the same address. *)
Definition uniqueKeys (db : database) : Prop :=
  NoDup (newsKeys db) /\ NoDup (tokenKeys db).

Definition isLowerCase (s : string) : Prop := toLowerCase s = s.

(** The addresses of the rows are in lower case. *)
Definition lowerCaseKeys (db : database) : Prop :=
  Forall isLowerCase (newsKeys db) /\ Forall isLowerCase (tokenKeys db).

(** The history of a row is an array, and its volume is the volume of the
    last sample of the history, or 0 for an empty history. *)
Definition consistent (row : TokenData.row) : Prop :=
  exists history,
    TokenData.volumeHistory row = Arr history /\
    TokenData.volume row =
      match rev history with
      | [] => Num (Dec 0 0)
      | lastSample :: _ => get lastSample "volume"
      end.

(** [new] holds the rows of [old], in their order and each one related to
    what it was by [R], followed by the rows added since. *)
Definition extends {A : Type} (R : A -> A -> Prop) (old new : list A) : Prop :=
  exists kept added, new = (kept ++ added)%list /\ Forall2 R old kept.

(** What a row of [News] keeps for good: its address, date and title; and
    once launched it stays so. *)
Definition sameSale (r r' : News.row) : Prop :=
  News.onchainAddress r' = News.onchainAddress r /\
  News.date r' = News.date r /\
  News.title r' = News.title r /\
  (News.isLaunched r = true -> News.isLaunched r' = true).

Definition sameToken (r r' : TokenData.row) : Prop :=
  TokenData.onchainAddress r' = TokenData.onchainAddress r.

(** The addresses [keys'] are the addresses [keys] followed by new ones,
    which are in lower case and all different. *)
Definition appended (keys keys' : list string) : Prop :=
  exists added,
    keys' = (keys ++ added)%list /\
    Forall isLowerCase added /\
    NoDup added /\
    forall key, In key added -> ~ In key keys.

(** What relates the store before a handler to the store after it: rows
    are added under new addresses and are not removed, a row of
    [TokenData] that is rewritten is consistent, [Comments] is only read,
    and requests are only added to the ones issued. *)
Definition follows (db db' : database) : Prop :=
  appended (newsKeys db) (newsKeys db') /\
  appended (tokenKeys db) (tokenKeys db') /\
  extends sameSale (news db) (news db') /\
  extends sameToken (tokenData db) (tokenData db') /\
  comments db' = comments db /\
  (exists issued, writes db' = (writes db ++ issued)%list) /\
  (Forall consistent (tokenData db) -> Forall consistent (tokenData db')).

(** Some row of [News] at the address [key] is launched. *)
Definition launched (db : database) (key : string) : bool :=
  existsb News.isLaunched (selectNews db key).

(** The balance a comment is ranked by. *)
Definition balanceOf (saleContract : contract) (c : Comments.row)
  : option BigNumber :=
  saleContract (Comments.walletAddress c).

(** What the loop of [getBestComment] holds after the comments [seen]: no
    comment yet, every balance seen being 0 or not known; or a comment of
    the largest balance seen, a positive one, and no comment seen of that
    balance is later than it. *)
Definition ranked (saleContract : contract) (seen : list Comments.row)
  (best : option Comments.row * BigNumber) : Prop :=
  match fst best with
  | None =>
      snd best = 0%N /\
      forall c, In c seen ->
        balanceOf saleContract c = None \/
        balanceOf saleContract c = Some 0%N
  | Some b =>
      In b seen /\
      balanceOf saleContract b = Some (snd best) /\
      (0 < snd best)%N /\
      forall c x, In c seen -> balanceOf saleContract c = Some x ->
        (x <= snd best)%N /\
        (x = snd best ->
         time_gt (Comments.createdAt c) (Comments.createdAt b) = false)
  end.

(** What the comment handler writes to [best_comments] for the comment
    it has ranked first. *)
Definition payloadOf (bestComment : Comments.row) : any :=
  Arr [Obj [("content", Str (Comments.content bestComment));
            ("walletAddress", Str (Comments.walletAddress bestComment));
            ("position", Str "default")]].

(** The row the sweep leaves where it read [row]: the repaired row, as
    JSON carries it, when the serializations differ, and [row] itself when
    they are the same or the repair throws. *)
Definition swept (JSON_stringify : any -> string) (row : TokenData.row)
  : TokenData.row :=
  match fixVolumeHistory (originalHistory row) with
  | Throw => row
  | Normal fixed =>
      if String.eqb (JSON_stringify (originalHistory row))
           (JSON_stringify (toJS fixed))
      then row
      else {| TokenData.onchainAddress := TokenData.onchainAddress row;
              TokenData.volume := transported (Num (Spec.currentVolume fixed));
              TokenData.volumeHistory := transported (toJS fixed) |}
  end.

End Service.

(** Strings of decimal digits, as [formatEther] writes them and
    [parseFloat] reads them. *)
Module Digits.

Fixpoint digitsOnly (s : string) : bool :=
  match s with
  | String c rest => isDigit c && digitsOnly rest
  | EmptyString => true
  end.

(** The number a string of digits stands for. *)
Fixpoint valueOf (s : string) : Z :=
  match s with
  | String c rest => digitVal c * 10 ^ strlen rest + valueOf rest
  | EmptyString => 0
  end.

End Digits.

(** A store to run the handlers on: two sales, the first with a history in
    need of repair, and the two comments on it. *)
Module Scenario.

Import Events Service.

Definition store : database :=
  {| news := [Samples.saleNews];
     tokenData :=
       [{| TokenData.onchainAddress := "0xsale";
           TokenData.volume := Num (Dec 10 0);
           TokenData.volumeHistory :=
             Arr [Samples.textual; Samples.twoDots; Samples.sample 1 10] |};
        {| TokenData.onchainAddress := "0xother";
           TokenData.volume := Num (Dec 0 0);
           TokenData.volumeHistory := Arr [] |}];
     comments := [Samples.commentAt1000; Samples.commentAt1005];
     writes := [] |}.

(** A second sale is created, bought into and launched, a comment arrives
    on the first one, and the sweep runs. *)
Definition deliveries : list delivery :=
  [ChainEvent (Dec 1700000000000 0)
     (SaleCreated "0xNEW" "0xcreator" "New" "NEW" 5000000000000000000%N
        "new.png" "A new sale");
   ChainEvent (Dec 1700000000001 0)
     (TokensBought "0xNew" "0xalice" 1500000000000000000%N 100%N);
   ChainEvent (Dec 1700000000002 0) (SaleLaunched "0xNEW" "0xcreator");
   CommentInserted (Samples.everyoneHolds 7%N) Samples.commentAt1005;
   ChainEvent (Dec 1700000000003 0)
     (TokensSold "0xsale" "0xbob" 250000000000000000%N 0%N);
   Sweep;
   ChainEvent (Dec 1700000000004 0)
     (MetaUpdated "0xnew" "newer.png" "A newer sale");
   ChainEvent (Dec 1700000000005 0) (Claimed "0xnew" "0xalice")].

End Scenario.

(* ===================================================================== *)
(** ** Numbers and sorting                                                *)
(* ===================================================================== *)

(** Boolean comparisons on [Z] in the context, as (in)equalities. *)
Ltac zbool :=
  repeat match goal with
    | H : (_ >? _) = true |- _ => apply Z.gtb_lt in H
    | H : (_ >? _) = false |- _ => rewrite Z.gtb_ltb in H; apply Z.ltb_ge in H
    | H : (_ <? _) = true |- _ => apply Z.ltb_lt in H
    | H : (_ <? _) = false |- _ => apply Z.ltb_ge in H
    | H : (_ <=? _) = true |- _ => apply Z.leb_le in H
    | H : (_ <=? _) = false |- _ => apply Z.leb_gt in H
    | H : (_ =? _) = true |- _ => apply Z.eqb_eq in H
    | H : (_ =? _) = false |- _ => apply Z.eqb_neq in H
    end.

Lemma strip10_sign fuel : forall m e,
  (0 <? fst (strip10 fuel m e)) = (0 <? m) /\
  (fst (strip10 fuel m e) <? 0) = (m <? 0).
Proof.
  induction fuel as [|fuel IH]; intros m e; simpl; [now split|].
  destruct (m mod 10 =? 0) eqn:Hmod; [|now split].
  apply Z.eqb_eq in Hmod.
  destruct (IH (m / 10) (e + 1)) as [Hpos Hneg].
  rewrite Hpos, Hneg.
  pose proof (Z.div_mod m 10 ltac:(lia)) as Hdm.
  rewrite Hmod, Z.add_0_r in Hdm.
  split.
  - destruct (0 <? m / 10) eqn:H1, (0 <? m) eqn:H2; try reflexivity;
      zbool; lia.
  - destruct (m / 10 <? 0) eqn:H1, (m <? 0) eqn:H2; try reflexivity;
      zbool; lia.
Qed.

Lemma gt0_mkDec m e : gt0 (mkDec m e) = (0 <? m).
Proof.
  unfold mkDec. destruct (m =? 0) eqn:Hm.
  - apply Z.eqb_eq in Hm. now subst.
  - pose proof (strip10_sign (Z.to_nat (Z.log2 (Z.abs m))) m e) as [H _].
    destruct (strip10 _ m e) as [m' e']. exact H.
Qed.

Lemma lt0_mkDec m e : lt0 (mkDec m e) = (m <? 0).
Proof.
  unfold mkDec. destruct (m =? 0) eqn:Hm.
  - apply Z.eqb_eq in Hm. now subst.
  - pose proof (strip10_sign (Z.to_nat (Z.log2 (Z.abs m))) m e) as [_ H].
    destruct (strip10 _ m e) as [m' e']. exact H.
Qed.

(** The comparator [tA - tB] never asks for both orders. *)
Lemma gt0_sub_antisym a b : gt0 (sub a b) = true -> gt0 (sub b a) = false.
Proof.
  destruct a as [| | |m1 e1], b as [| | |m2 e2]; simpl; try congruence.
  rewrite !gt0_mkDec, (Z.min_comm e2 e1).
  rewrite Z.ltb_lt, Z.ltb_ge. lia.
Qed.

(** Scaling two decimals to a smaller common exponent keeps their order. *)
Lemma scaled_order m1 e1 m2 e2 e E :
  e <= e1 -> e <= e2 -> E <= e ->
  (m1 * 10 ^ (e1 - e) - m2 * 10 ^ (e2 - e) <= 0 <->
   m1 * 10 ^ (e1 - E) <= m2 * 10 ^ (e2 - E)).
Proof.
  intros H1 H2 HE.
  replace (e1 - E) with ((e1 - e) + (e - E)) by lia.
  replace (e2 - E) with ((e2 - e) + (e - E)) by lia.
  rewrite !Z.pow_add_r by lia. rewrite !Z.mul_assoc.
  assert (Hpos : 0 < 10 ^ (e - E)) by (apply Z.pow_pos_nonneg; lia).
  rewrite <- (Z.mul_le_mono_pos_r _ _ _ Hpos). lia.
Qed.

(** On numbers other than [NaN], "not after" is transitive. *)
Lemma gt0_sub_trans a b c :
  isNaN a = false -> isNaN b = false -> isNaN c = false ->
  gt0 (sub a b) = false -> gt0 (sub b c) = false -> gt0 (sub a c) = false.
Proof.
  destruct a as [| | |m1 e1], b as [| | |m2 e2], c as [| | |m3 e3];
    simpl; try congruence.
  rewrite !gt0_mkDec, !Z.ltb_ge. intros _ _ _ Hab Hbc.
  set (E := Z.min e1 (Z.min e2 e3)).
  apply (scaled_order m1 e1 m2 e2 _ E) in Hab; try (unfold E; lia).
  apply (scaled_order m2 e2 m3 e3 _ E) in Hbc; try (unfold E; lia).
  apply (scaled_order m1 e1 m3 e3 _ E); try (unfold E; lia).
  exact (Z.le_trans _ _ _ Hab Hbc).
Qed.

Section Sorting.
Context {A : Type}.
Variable after : A -> A -> bool.
Hypothesis after_antisym : forall x y, after x y = true -> after y x = false.

(** No element has to move past its right neighbour. *)
Fixpoint ordered (l : list A) : Prop :=
  match l with
  | [] => True
  | x :: rest =>
      match rest with
      | [] => True
      | y :: _ => after x y = false
      end /\ ordered rest
  end.

Lemma insertBy_ordered x l : ordered l -> ordered (insertBy after x l).
Proof.
  induction l as [|y rest IH]; simpl; [tauto|].
  intros [Hy Hrest].
  destruct (after x y) eqn:Hxy.
  - specialize (IH Hrest). simpl. split; [|exact IH].
    destruct rest as [|z rest']; simpl.
    + now apply after_antisym.
    + destruct (after x z); [exact Hy | now apply after_antisym].
  - simpl. tauto.
Qed.

Lemma sortBy_ordered l : ordered (sortBy after l).
Proof.
  induction l as [|x rest IH]; simpl; [exact I|].
  now apply insertBy_ordered.
Qed.

Lemma sortBy_fixpoint l : ordered l -> sortBy after l = l.
Proof.
  induction l as [|x rest IH]; [reflexivity|].
  intros [Hx Hrest].
  change (sortBy after (x :: rest)) with (insertBy after x (sortBy after rest)).
  rewrite (IH Hrest).
  destruct rest as [|y rest']; simpl; [reflexivity|].
  now rewrite Hx.
Qed.

Lemma ordered_skipn n : forall l, ordered l -> ordered (skipn n l).
Proof.
  induction n as [|n IH]; intros l Hl; [exact Hl|].
  destruct l as [|x rest]; [exact I|].
  simpl. apply IH. simpl in Hl. tauto.
Qed.

Lemma insertBy_Permutation x l : Permutation (insertBy after x l) (x :: l).
Proof.
  induction l as [|y rest IH]; simpl; [reflexivity|].
  destruct (after x y); [|reflexivity].
  rewrite IH. apply perm_swap.
Qed.

Lemma sortBy_Permutation l : Permutation (sortBy after l) l.
Proof.
  induction l as [|x rest IH]; simpl; [reflexivity|].
  rewrite insertBy_Permutation. now constructor.
Qed.
End Sorting.

Lemma ordered_map {A B : Type} (f : A -> B)
  (afterA : A -> A -> bool) (afterB : B -> B -> bool) :
  (forall x y, afterB (f x) (f y) = afterA x y) ->
  forall l, ordered afterA l -> ordered afterB (map f l).
Proof.
  intros Hf. induction l as [|x rest IH]; simpl; [tauto|].
  intros [Hx Hrest]. split; [|now apply IH].
  destruct rest as [|y rest']; simpl; [exact I|].
  now rewrite Hf.
Qed.

(** *** Array methods whose callbacks return *)

Section Callbacks.
Context {A B : Type}.

Lemma Array_filter_Normal (callbackfn : A -> completion bool)
  (keep : A -> bool) (l : list A) :
  Forall (fun x => callbackfn x = Normal (keep x)) l ->
  Array_filter callbackfn l = Normal (filter keep l).
Proof.
  induction 1 as [|x rest Hx _ IH]; cbn [Array_filter filter];
    [reflexivity|].
  rewrite Hx, IH. cbn [bind]. now destruct (keep x).
Qed.

Lemma Array_filter_Throw (callbackfn : A -> completion bool) (l : list A) :
  Exists (fun x => callbackfn x = Throw) l ->
  Array_filter callbackfn l = Throw.
Proof.
  induction 1 as [x rest Hx | x rest _ IH]; cbn [Array_filter].
  - now rewrite Hx.
  - rewrite IH. now destruct (callbackfn x).
Qed.

Lemma Array_map_Normal (callbackfn : A -> completion B) (f : A -> B)
  (l : list A) :
  Forall (fun x => callbackfn x = Normal (f x)) l ->
  Array_map callbackfn l = Normal (map f l).
Proof.
  induction 1 as [|x rest Hx _ IH]; cbn [Array_map map]; [reflexivity|].
  now rewrite Hx, IH.
Qed.

Lemma insert_Normal (comparefn : A -> A -> completion number)
  (key : A -> number) (P : A -> Prop) :
  (forall x y, P x -> P y -> comparefn x y = Normal (sub (key x) (key y))) ->
  forall x l, P x -> Forall P l ->
    insert comparefn x l
      = Normal (insertBy (fun a b => gt0 (sub (key a) (key b))) x l).
Proof.
  intros Hcmp x l Hx Hl.
  induction Hl as [|y rest Hy _ IH]; cbn [insert insertBy]; [reflexivity|].
  rewrite (Hcmp x y Hx Hy). cbn [bind].
  destruct (gt0 (sub (key x) (key y))); [|reflexivity].
  now rewrite IH.
Qed.

Lemma Array_sort_Normal (comparefn : A -> A -> completion number)
  (key : A -> number) (P : A -> Prop) :
  (forall x y, P x -> P y -> comparefn x y = Normal (sub (key x) (key y))) ->
  forall l, Forall P l ->
    Array_sort comparefn l
      = Normal (sortBy (fun a b => gt0 (sub (key a) (key b))) l).
Proof.
  intros Hcmp l Hl.
  induction Hl as [|x rest Hx Hrest IH]; cbn [Array_sort]; [reflexivity|].
  rewrite IH. cbn [bind].
  rewrite (insert_Normal comparefn key P Hcmp); [reflexivity | exact Hx |].
  apply Forall_forall. intros y Hy.
  apply (Permutation_in _ (sortBy_Permutation _ rest)) in Hy.
  rewrite Forall_forall in Hrest. now apply Hrest.
Qed.
End Callbacks.

Lemma In_skipn_In {A : Type} (x : A) n : forall l, In x (skipn n l) -> In x l.
Proof.
  induction n as [|n IH]; intros [|y l] H; try exact H.
  right. now apply IH.
Qed.

Lemma filter_all {A : Type} (f : A -> bool) (l : list A) :
  (forall x, In x l -> f x = true) -> filter f l = l.
Proof.
  induction l as [|x rest IH]; simpl; intros H; [reflexivity|].
  rewrite (H x (or_introl eq_refl)), IH; [reflexivity|].
  intros y Hy. apply H. now right.
Qed.

Lemma last_cons {A : Type} (l : list A) : forall x d, last (x :: l) d = last l x.
Proof.
  induction l as [|y l IH]; intros x d; [reflexivity|].
  change (last (x :: y :: l) d) with (last (y :: l) d).
  now rewrite !IH.
Qed.

(* ===================================================================== *)
(** ** The filter                                                         *)
(* ===================================================================== *)

Lemma filterCallback_spec item :
  filterCallback item
  = if Behaviour.throwsOn item then Throw
    else Normal (negb (Behaviour.removedByFilter item)).
Proof.
  assert (Htime :
    match get item "time" with
    | Num _ => Normal true
    | t => s <- ToString t ;;
           if isNaN (parseFloat s) then Normal false else Normal true
    end
    = if match get item "time" with
         | Num _ => false
         | t => match ToString t with Throw => true | Normal _ => false end
         end
      then Throw else Normal (Behaviour.timeAccepted item)).
  { unfold Behaviour.timeAccepted, Pure.stringOf.
    destruct (get item "time") as [| |b|n|s|elems|props];
      try reflexivity;
      try (destruct (ToString _) as [s'|]; cbn [bind]; [|reflexivity];
           now destruct (isNaN (parseFloat s'))). }
  unfold filterCallback, Behaviour.throwsOn, Behaviour.removedByFilter,
    Behaviour.volumeAccepted.
  rewrite Htime. clear Htime.
  destruct item as [| |b|n|s|elems|props];
    try (cbn [get isNullish]; now rewrite orb_true_r).
  cbn [truthy negb orb get].
  destruct (lookup "volume" props) as [| |b|n|s|elems|props'];
    cbn [isNullish orb negb andb]; try reflexivity.
  - destruct (match lookup "time" props with Num _ => false | _ => _ end);
      [reflexivity|]. now rewrite negb_involutive.
  - destruct (countDots s >? 1); [reflexivity|].
    destruct (isNaN (parseFloat s)); [reflexivity|].
    cbn [negb andb orb].
    destruct (match lookup "time" props with Num _ => false | _ => _ end);
      [reflexivity|]. now rewrite negb_involutive.
Qed.

Lemma Array_filter_filterCallback cloned :
  Array_filter filterCallback cloned
  = if existsb Behaviour.throwsOn cloned then Throw
    else Normal (filter (fun item => negb (Behaviour.removedByFilter item)) cloned).
Proof.
  destruct (existsb Behaviour.throwsOn cloned) eqn:Hex.
  - apply Array_filter_Throw. apply existsb_exists in Hex as [x [Hin Hx]].
    apply Exists_exists. exists x. split; [exact Hin|].
    now rewrite filterCallback_spec, Hx.
  - apply Array_filter_Normal. apply Forall_forall. intros x Hin.
    rewrite filterCallback_spec.
    destruct (Behaviour.throwsOn x) eqn:Hx; [|reflexivity].
    assert (existsb Behaviour.throwsOn cloned = true)
      by (apply existsb_exists; now exists x).
    congruence.
Qed.

(** A sample the filter keeps has a time and a volume that convert. *)
Lemma kept_conversions item :
  Behaviour.throwsOn item = false -> Behaviour.removedByFilter item = false ->
  timeOf item = Normal (Pure.timeValueOf item) /\
  volumeOf item = Normal (Pure.volumeValueOf item).
Proof.
  unfold Behaviour.throwsOn, Behaviour.removedByFilter, Behaviour.volumeAccepted,
    timeOf, volumeOf, Pure.timeValueOf, Pure.volumeValueOf, Pure.stringOf.
  intros Hthrow Hrem.
  apply orb_false_iff in Hrem as [Hvol _]. apply negb_false_iff in Hvol.
  rewrite Hvol in Hthrow. cbn [andb] in Hthrow.
  split.
  - destruct (get item "time") as [| |b|n|s|elems|props]; try reflexivity;
      destruct (ToString _); try reflexivity; discriminate.
  - destruct (get item "volume") as [| |b|n|s|elems|props];
      try discriminate; reflexivity.
Qed.

(* ===================================================================== *)
(** ** The repair of one history                                          *)
(* ===================================================================== *)

Lemma fixVolumeHistory_isArray_false (original : any) :
  Array_isArray original = false -> fixVolumeHistory original = Normal [].
Proof.
  intros H. unfold fixVolumeHistory. rewrite H. simpl. now rewrite orb_true_r.
Qed.

(** On an array the repair throws when the filter does, and returns the
    rebuilt, truncated, sorted, filtered samples otherwise. *)
Lemma fixVolumeHistory_characterized cloned :
  fixVolumeHistory (Arr cloned)
  = if existsb Behaviour.throwsOn cloned then Throw
    else Normal (Behaviour.repaired cloned).
Proof.
  unfold fixVolumeHistory. cbn [truthy Array_isArray negb orb].
  rewrite Array_filter_filterCallback.
  destruct (existsb Behaviour.throwsOn cloned) eqn:Hex; [reflexivity|].
  cbn [bind].
  set (filtered := filter (fun item => negb (Behaviour.removedByFilter item)) cloned).
  assert (Hkept : Forall (fun item => Behaviour.throwsOn item = false /\
                                      Behaviour.removedByFilter item = false)
                    filtered).
  { apply Forall_forall. intros x Hx. apply filter_In in Hx as [Hin Hx].
    apply negb_true_iff in Hx. split; [|exact Hx].
    destruct (Behaviour.throwsOn x) eqn:Ht; [|reflexivity].
    assert (existsb Behaviour.throwsOn cloned = true)
      by (apply existsb_exists; now exists x).
    congruence. }
  assert (Hcmp : forall x y,
             Behaviour.throwsOn x = false /\ Behaviour.removedByFilter x = false ->
             Behaviour.throwsOn y = false /\ Behaviour.removedByFilter y = false ->
             compareTime x y
               = Normal (sub (Pure.timeValueOf x) (Pure.timeValueOf y))).
  { intros x y [Hx Hx'] [Hy Hy']. unfold compareTime.
    destruct (kept_conversions x Hx Hx') as [-> _].
    destruct (kept_conversions y Hy Hy') as [-> _].
    reflexivity. }
  rewrite (Array_sort_Normal compareTime Pure.timeValueOf _ Hcmp filtered Hkept).
  cbn [bind].
  change (fun a b => gt0 (sub (Pure.timeValueOf a) (Pure.timeValueOf b)))
    with Pure.later.
  unfold Behaviour.repaired. fold filtered.
  apply Array_map_Normal. apply Forall_forall. intros x Hx.
  unfold truncate, Array_slice in Hx. apply In_skipn_In in Hx.
  apply (Permutation_in _ (sortBy_Permutation _ filtered)) in Hx.
  rewrite Forall_forall in Hkept. destruct (Hkept x Hx) as [Ht Hr].
  unfold rebuild. destruct (kept_conversions x Ht Hr) as [-> ->].
  reflexivity.
Qed.

Lemma truncate_kept (sorted : list any) :
  truncate sorted =
  skipn (Z.to_nat (Behaviour.keptFrom (Z.of_nat (List.length sorted)))) sorted.
Proof.
  unfold truncate, Array_slice, startIndex, Behaviour.keptFrom.
  set (N := Z.of_nat (List.length sorted)).
  destruct (N >? 4) eqn:H4.
  - apply Z.gtb_lt in H4.
    destruct (N <? 7) eqn:H7.
    + apply Z.ltb_lt in H7.
      assert (Hs : (N - 7 <? 0) = true) by (apply Z.ltb_lt; lia).
      rewrite Hs. f_equal. lia.
    + apply Z.ltb_ge in H7.
      assert (Hs : (N - 7 <? 0) = false) by (apply Z.ltb_ge; lia).
      rewrite Hs. f_equal. lia.
  - change (0 <? 0) with false. cbv iota.
    assert (0 <= N) by (unfold N; lia). f_equal. lia.
Qed.

Lemma truncate_length (sorted : list any) :
  let N := Z.of_nat (List.length sorted) in
  Z.of_nat (List.length (truncate sorted)) =
  if N >? 4 then (if N <? 7 then 7 - N else 7) else N.
Proof.
  intros N. rewrite truncate_kept, length_skipn. fold N.
  unfold Behaviour.keptFrom.
  destruct (N >? 4) eqn:H4; [destruct (N <? 7) eqn:H7|]; zbool; lia.
Qed.

Lemma truncate_small (l : list any) :
  (List.length l <= 4 \/ List.length l = 7)%nat -> truncate l = l.
Proof.
  intros Hl. rewrite truncate_kept. unfold Behaviour.keptFrom.
  set (N := Z.of_nat (List.length l)).
  assert (HN : N <= 4 \/ N = 7) by lia.
  destruct (N >? 4) eqn:H4; [|reflexivity].
  destruct (N <? 7) eqn:H7; zbool; [lia|].
  replace (N - 7) with 0 by lia. reflexivity.
Qed.

Lemma truncate_length_small (l : list any) :
  (List.length (truncate l) <= 4 \/ List.length (truncate l) = 7)%nat.
Proof.
  pose proof (truncate_length l) as H. cbv zeta in H.
  destruct (Z.of_nat (List.length l) >? 4) eqn:H4;
    [destruct (Z.of_nat (List.length l) <? 7) eqn:H7|]; zbool; lia.
Qed.

Lemma later_antisym a b : Pure.later a b = true -> Pure.later b a = false.
Proof. apply gt0_sub_antisym. Qed.

Lemma rebuilt_itemToJS it : Pure.rebuilt (itemToJS it) = it.
Proof. now destruct it. Qed.

Lemma removedByFilter_itemToJS it :
  Behaviour.removedByFilter (itemToJS it) = false /\
  Behaviour.throwsOn (itemToJS it) = false.
Proof. split; reflexivity. Qed.

(** A repaired history is left as it is by another repair. *)
Lemma fixVolumeHistory_toJS (h : any) (fixed : list VolumeHistoryItem) :
  fixVolumeHistory h = Normal fixed ->
  fixVolumeHistory (toJS fixed) = Normal fixed.
Proof.
  intros Hfix.
  assert (Hshape : exists T : list any,
             (List.length T <= 4 \/ List.length T = 7)%nat /\
             ordered Pure.later T /\ fixed = map Pure.rebuilt T).
  { destruct h as [| | | | |cloned|];
      try (rewrite fixVolumeHistory_isArray_false in Hfix by reflexivity;
           injection Hfix as <-; exists []; simpl; split; [lia | tauto]).
    rewrite fixVolumeHistory_characterized in Hfix.
    destruct (existsb Behaviour.throwsOn cloned); [discriminate|].
    injection Hfix as <-. unfold Behaviour.repaired.
    eexists. split; [apply truncate_length_small|]. split; [|reflexivity].
    unfold truncate, Array_slice. apply ordered_skipn.
    apply sortBy_ordered, later_antisym. }
  destruct Hshape as [T [Hlen [Hord ->]]].
  unfold toJS. rewrite fixVolumeHistory_characterized, map_map.
  assert (Hex : existsb Behaviour.throwsOn
                  (map (fun x => itemToJS (Pure.rebuilt x)) T) = false).
  { clear. induction T as [|x T IH]; [reflexivity|]. cbn [map existsb].
    now rewrite IH. }
  rewrite Hex. f_equal. unfold Behaviour.repaired.
  rewrite filter_all by (intros x Hx; apply in_map_iff in Hx as [y [<- _]];
                         reflexivity).
  rewrite sortBy_fixpoint.
  2:{ apply (ordered_map _ Pure.later); [reflexivity | exact Hord]. }
  rewrite truncate_small by (now rewrite length_map).
  rewrite map_map. apply map_ext. intros x. apply rebuilt_itemToJS.
Qed.

(** C1: the code departs from the retention policy.  Five valid samples
    in ascending order pass the filter and the sort unchanged, and the
    retention step keeps the last two of them, where the policy keeps all
    five. *)
Lemma retention_five_counterexample :
  Array_filter filterCallback Samples.five = Normal Samples.five /\
  Array_sort compareTime Samples.five = Normal Samples.five /\
  truncate Samples.five = [Samples.sample 4 40; Samples.sample 5 50] /\
  Spec.retention Samples.five = Samples.five /\
  truncate Samples.five <> Spec.retention Samples.five /\
  fixVolumeHistory (Arr Samples.five)
    = Normal [{| time := Dec 4 0; volume := Dec 40 0 |};
              {| time := Dec 5 0; volume := Dec 50 0 |}].
Proof. repeat split; try reflexivity. discriminate. Qed.

Lemma truncate_retention (sorted : list any) :
  let N := Z.of_nat (List.length sorted) in
  N <= 4 \/ 7 <= N -> truncate sorted = Spec.retention sorted.
Proof.
  intros N HN. rewrite truncate_kept. unfold Spec.retention, Behaviour.keptFrom.
  fold N. destruct (N >? 4) eqn:H4; [|reflexivity].
  destruct (N <? 7) eqn:H7; zbool; [lia|]. f_equal. lia.
Qed.

(** C1, what the code computes.  The retention step keeps
    [sorted.slice(startIndex)] with [startIndex = N > 4 ? N - 7 : 0], a
    start that is not clamped at 0.  For [N <= 4] and for [N >= 7] the
    suffix kept is the one of the policy: all samples, the last seven.  For
    [N = 5] and [N = 6] the start is negative, [slice] counts it from the
    end, and the suffix kept starts at [2N - 7]: the last two samples, the
    last one, where the policy keeps all of them.  The repaired history of
    an array on which the filter does not throw is the suffix kept of its
    filtered, sorted samples, rebuilt. *)
Theorem retention_keeps_suffix (sorted cloned : list any) :
  let N := Z.of_nat (List.length sorted) in
  truncate sorted = skipn (Z.to_nat (Behaviour.keptFrom N)) sorted /\
  Z.of_nat (List.length (truncate sorted)) =
    (if N >? 4 then (if N <? 7 then 7 - N else 7) else N) /\
  (N <= 4 \/ 7 <= N -> truncate sorted = Spec.retention sorted) /\
  let kept :=
    sortBy Pure.later
      (filter (fun item => negb (Behaviour.removedByFilter item)) cloned) in
  fixVolumeHistory (Arr cloned) =
    if existsb Behaviour.throwsOn cloned then Throw
    else Normal
           (map Pure.rebuilt
              (skipn
                 (Z.to_nat (Behaviour.keptFrom (Z.of_nat (List.length kept))))
                 kept)).
Proof.
  intros N. split; [apply truncate_kept|].
  split; [apply truncate_length|].
  split; [apply truncate_retention|].
  intros kept. rewrite fixVolumeHistory_characterized.
  unfold Behaviour.repaired. fold kept. now rewrite truncate_kept.
Qed.

(** C10.  On [null], on [undefined] and on every other value that is not
    an array, [fixVolumeHistory] returns the empty list; it does not throw.
    For a row whose stored history is such a value the sweep therefore
    either finds nothing to change or writes the empty history and the
    volume 0. *)
Theorem fixVolumeHistory_not_array (original : any) :
  original = Null \/ original = Undefined \/ Array_isArray original = false ->
  fixVolumeHistory original = Normal [] /\
  forall JSON_stringify db address volume,
    let row := {| TokenData.onchainAddress := address;
                  TokenData.volume := volume;
                  TokenData.volumeHistory := original |} in
    fixRow JSON_stringify db row = db \/
    fixRow JSON_stringify db row
      = updateTokenData db address (Num (Dec 0 0)) (Arr []).
Proof.
  intros H.
  assert (Hfix : fixVolumeHistory original = Normal []).
  { destruct H as [-> | [-> | H]]; try reflexivity.
    now apply fixVolumeHistory_isArray_false. }
  split; [exact Hfix|].
  intros JSON_stringify db address volume row. unfold fixRow.
  cbn [TokenData.volumeHistory TokenData.onchainAddress row].
  assert (Hcoalesce : fixVolumeHistory (nullish_coalesce original (Arr []))
                      = Normal []).
  { unfold nullish_coalesce. destruct (isNullish original);
      [reflexivity | exact Hfix]. }
  rewrite Hcoalesce. destruct (String.eqb _ _); [now left | now right].
Qed.

Lemma fixVolumeHistory_not_array_witness :
  fixVolumeHistory (Obj [("time", Num (Dec 1 0)); ("volume", Str "0.5")])
    = Normal [] /\
  forall JSON_stringify db address volume,
    let row := {| TokenData.onchainAddress := address;
                  TokenData.volume := volume;
                  TokenData.volumeHistory :=
                    Obj [("time", Num (Dec 1 0)); ("volume", Str "0.5")] |} in
    fixRow JSON_stringify db row = db \/
    fixRow JSON_stringify db row
      = updateTokenData db address (Num (Dec 0 0)) (Arr []).
Proof.
  apply fixVolumeHistory_not_array. right. right. reflexivity.
Defined.

(** C6, as the specification states it, fails in both directions: the
    filter keeps [{ time: 1, volume: "Infinity" }], whose volume does not
    parse to a finite number, and removes [{ time: 1, volume: true }],
    which none of the four stated reasons covers. *)
Lemma filter_counterexample :
  Array_filter filterCallback [Samples.infinite; Samples.boolean]
    = Normal [Samples.infinite] /\
  filter (fun item => negb (Spec.removed item))
    [Samples.infinite; Samples.boolean] = [Samples.boolean] /\
  Array_filter filterCallback [Samples.infinite; Samples.boolean]
    <> Normal (filter (fun item => negb (Spec.removed item))
                 [Samples.infinite; Samples.boolean]) /\
  fixVolumeHistory (Arr [Samples.infinite; Samples.boolean])
    = Normal [{| time := Dec 1 0; volume := PosInfinity |}].
Proof. repeat split; try reflexivity. discriminate. Qed.

(** C6 (amended).  The filter removes exactly the entries that are not
    objects or whose volume is null or undefined, or neither a number nor
    text, or text with more than one decimal point, or text on which
    [parseFloat] gives [NaN], and those whose time is not a number and
    gives [NaN] under [parseFloat(String(time))]; every other sample is
    kept, in its place.  (Where [String(time)] throws for a sample with an
    accepted volume, the filter throws.)  A sample with the textual volume
    ["0.01.02"] is removed whatever its time is. *)
Theorem filter_removes_exactly (cloned : list any) :
  (forall item,
      filterCallback item
      = if Behaviour.throwsOn item then Throw
        else Normal (negb (Behaviour.removedByFilter item))) /\
  Array_filter filterCallback cloned
    = (if existsb Behaviour.throwsOn cloned then Throw
       else Normal
              (filter (fun item => negb (Behaviour.removedByFilter item)) cloned)) /\
  (forall t, filterCallback
               (Obj [("time", t); ("volume", Str "0.01.02")])
             = Normal false) /\
  Array_filter filterCallback
    [Samples.sample 1 10; Samples.twoDots; Samples.textual]
    = Normal [Samples.sample 1 10; Samples.textual].
Proof.
  split; [exact filterCallback_spec|].
  split; [apply Array_filter_filterCallback|].
  split; reflexivity.
Qed.

Lemma noNaN_lookup k props :
  forallb (fun kv => noNaN (snd kv)) props = true -> noNaN (lookup k props) = true.
Proof.
  induction props as [|[k' v] rest IH]; cbn [forallb lookup snd];
    [reflexivity|].
  intros H. apply andb_true_iff in H as [Hv Hrest].
  destruct (String.eqb k k'); [exact Hv | now apply IH].
Qed.

Lemma noNaN_get item k : noNaN item = true -> noNaN (get item k) = true.
Proof.
  destruct item; try reflexivity. cbn [get noNaN]. apply noNaN_lookup.
Qed.

Lemma kept_sampleNotNaN item :
  noNaN item = true -> Behaviour.removedByFilter item = false ->
  Behaviour.sampleNotNaN (Pure.rebuilt item) = true.
Proof.
  intros Hn Hk. unfold Behaviour.removedByFilter in Hk.
  apply orb_false_iff in Hk as [Hv Ht].
  apply negb_false_iff in Hv, Ht.
  unfold Behaviour.volumeAccepted in Hv. unfold Behaviour.timeAccepted in Ht.
  unfold Behaviour.sampleNotNaN, Pure.rebuilt, Pure.volumeValueOf, Pure.timeValueOf.
  cbn [volume time].
  pose proof (noNaN_get item "volume" Hn) as Hnv.
  pose proof (noNaN_get item "time" Hn) as Hnt.
  apply andb_true_iff. split.
  - destruct (get item "volume") as [| | |v|s| |]; try discriminate.
    + exact Hnv.
    + apply andb_true_iff in Hv as [_ Hv]. exact Hv.
  - destruct (get item "time"); try exact Ht. exact Hnt.
Qed.

(** C4, as the specification states it, fails: the sample
    [{ time: 1.5, volume: -5 }] is retained with its negative volume and its
    fractional time, and the textual volume ["Infinity"] is retained as the
    number [Infinity]. *)
Lemma retained_counterexample :
  fixVolumeHistory (Arr [Samples.negative])
    = Normal [{| time := Dec 15 (-1); volume := Dec (-5) 0 |}] /\
  Spec.sampleOk {| time := Dec 15 (-1); volume := Dec (-5) 0 |} = false /\
  fixVolumeHistory (Arr [Samples.infinite])
    = Normal [{| time := Dec 1 0; volume := PosInfinity |}] /\
  Spec.sampleOk {| time := Dec 1 0; volume := PosInfinity |} = false.
Proof. repeat split; reflexivity. Qed.

(** C4 (amended).  For every input without [NaN] in it (every value decoded
    from JSON), each sample in the list [fixVolumeHistory] returns has a
    volume and a time that are numbers other than [NaN]; they may be
    negative, fractional or infinite. *)
Theorem retained_not_NaN (original : any) (fixed : list VolumeHistoryItem) :
  noNaN original = true ->
  fixVolumeHistory original = Normal fixed ->
  forallb Behaviour.sampleNotNaN fixed = true.
Proof.
  intros Hn Hfix. apply forallb_forall. intros it Hit.
  destruct original as [| | | | |cloned|];
    try (rewrite fixVolumeHistory_isArray_false in Hfix by reflexivity;
         injection Hfix as <-; contradiction).
  rewrite fixVolumeHistory_characterized in Hfix.
  destruct (existsb Behaviour.throwsOn cloned); [discriminate|].
  injection Hfix as <-. unfold Behaviour.repaired in Hit.
  apply in_map_iff in Hit as [item [<- Hit]].
  unfold truncate, Array_slice in Hit. apply In_skipn_In in Hit.
  apply (Permutation_in _ (sortBy_Permutation _ _)) in Hit.
  apply filter_In in Hit as [Hin Hk]. apply negb_true_iff in Hk.
  apply kept_sampleNotNaN; [|exact Hk].
  cbn [noNaN] in Hn. rewrite forallb_forall in Hn. now apply Hn.
Qed.

Lemma retained_not_NaN_witness :
  forallb Behaviour.sampleNotNaN
    [{| time := Dec 1 0; volume := PosInfinity |};
     {| time := Dec 15 (-1); volume := Dec (-5) 0 |};
     {| time := Dec 3 0; volume := Dec 5 (-1) |}] = true.
Proof.
  apply (retained_not_NaN
           (Arr [Samples.negative; Samples.infinite; Samples.twoDots;
                 Samples.textual; Null]));
    reflexivity.
Defined.

(* ===================================================================== *)
(** ** The order and the size of a repaired history                       *)
(* ===================================================================== *)

Lemma ordered_StronglySorted (l : list any) :
  Forall (fun x => isNaN (Pure.timeValueOf x) = false) l ->
  ordered Pure.later l ->
  StronglySorted (fun x y => Pure.later x y = false) l.
Proof.
  induction 1 as [|x rest Hx Hrest IH]; intros Hord; [constructor|].
  destruct Hord as [Hhead Hord]. specialize (IH Hord).
  constructor; [exact IH|].
  destruct rest as [|y rest']; [constructor|].
  apply StronglySorted_inv in IH as [_ Hy].
  constructor; [exact Hhead|].
  rewrite Forall_forall in Hy |- *. intros z Hz.
  inversion Hrest as [|? ? Hny Hrest']; subst.
  rewrite Forall_forall in Hrest'.
  unfold Pure.later in *.
  apply (gt0_sub_trans _ (Pure.timeValueOf y));
    auto.
Qed.

Lemma StronglySorted_map {A B : Type} (f : A -> B)
  (R : A -> A -> Prop) (Q : B -> B -> Prop) :
  (forall x y, R x y -> Q (f x) (f y)) ->
  forall l, StronglySorted R l -> StronglySorted Q (map f l).
Proof.
  intros HRQ. induction 1 as [|x l _ IH Hx]; cbn [map]; constructor;
    [exact IH|].
  apply Forall_map. eapply Forall_impl; [|exact Hx]. apply HRQ.
Qed.

Lemma StronglySorted_skipn {A : Type} (R : A -> A -> Prop) n :
  forall l, StronglySorted R l -> StronglySorted R (skipn n l).
Proof.
  induction n as [|n IH]; intros l Hl; [exact Hl|].
  destruct l as [|x l]; [constructor|].
  cbn [skipn]. apply IH. now apply StronglySorted_inv in Hl.
Qed.

(** The samples of a repaired history come from samples of the input that
    the filter accepts. *)
Lemma In_repaired cloned it :
  In it (Behaviour.repaired cloned) ->
  exists item, In item cloned /\ Behaviour.removedByFilter item = false /\
               it = Pure.rebuilt item.
Proof.
  unfold Behaviour.repaired. intros Hit.
  apply in_map_iff in Hit as [item [<- Hit]].
  unfold truncate, Array_slice in Hit. apply In_skipn_In in Hit.
  apply (Permutation_in _ (sortBy_Permutation _ _)) in Hit.
  apply filter_In in Hit as [Hin Hk]. apply negb_true_iff in Hk.
  now exists item.
Qed.

(** X1.  For an input without [NaN] in it, the repaired history is in ascending
    order of time, and it never holds more than seven samples: at most four,
    or seven. *)
Theorem fixVolumeHistory_ascending (original : any)
  (fixed : list VolumeHistoryItem) :
  fixVolumeHistory original = Normal fixed ->
  ((List.length fixed <= 4)%nat \/ List.length fixed = 7%nat) /\
  (noNaN original = true -> StronglySorted Behaviour.notAfter fixed).
Proof.
  intros Hfix.
  destruct original as [| | | | |cloned|];
    try (rewrite fixVolumeHistory_isArray_false in Hfix by reflexivity;
         injection Hfix as <-; split; [left; simpl; lia | constructor]).
  rewrite fixVolumeHistory_characterized in Hfix.
  destruct (existsb Behaviour.throwsOn cloned); [discriminate|].
  injection Hfix as <-. unfold Behaviour.repaired. split.
  - rewrite length_map. apply truncate_length_small.
  - intros Hn.
    apply (StronglySorted_map _ (fun x y => Pure.later x y = false));
      [intros x y H; exact H|].
    set (kept := filter _ cloned).
    assert (Hnan : Forall (fun x => isNaN (Pure.timeValueOf x) = false)
                     (sortBy Pure.later kept)).
    { apply Forall_forall. intros x Hx.
      apply (Permutation_in _ (sortBy_Permutation _ _)) in Hx.
      apply filter_In in Hx as [Hin Hk]. apply negb_true_iff in Hk.
      cbn [noNaN] in Hn. rewrite forallb_forall in Hn.
      pose proof (kept_sampleNotNaN x (Hn x Hin) Hk) as Hs.
      unfold Behaviour.sampleNotNaN in Hs.
      apply andb_true_iff in Hs as [_ Hs].
      now apply negb_true_iff in Hs. }
    pose proof (ordered_StronglySorted _ Hnan
                  (sortBy_ordered Pure.later later_antisym kept)) as Hss.
    rewrite truncate_kept. now apply StronglySorted_skipn.
Qed.

(* ===================================================================== *)
(** ** The sweep over the stored histories                                *)
(* ===================================================================== *)

Lemma newVolume_currentVolume fixed : newVolume fixed = Spec.currentVolume fixed.
Proof.
  unfold newVolume, Spec.currentVolume.
  destruct fixed as [|it rest] using rev_ind; [reflexivity|].
  rewrite rev_app_distr, length_app. simpl.
  replace (List.length rest + 1 - 1)%nat with (List.length rest) by lia.
  rewrite nth_error_app2, Nat.sub_diag by lia. simpl.
  destruct (Z.of_nat (List.length rest + 1) >? 0) eqn:H; [reflexivity|].
  zbool. lia.
Qed.

Section SweepFacts.
Variable JSON_stringify : any -> string.

Let writesFor := Behaviour.writesFor JSON_stringify.
Let settled := Behaviour.settled JSON_stringify.
Let calm := Behaviour.calm JSON_stringify.

(** The loop body either finds the row settled and changes nothing, or
    writes the repaired history to the address of the row. *)
Lemma fixRow_cases db row :
  (settled row /\ fixRow JSON_stringify db row = db) \/
  (exists fixed,
      fixVolumeHistory (originalHistory row) = Normal fixed /\
      writesFor row = [Behaviour.writeBack row fixed] /\
      fixRow JSON_stringify db row =
        updateTokenDataJSON db (TokenData.onchainAddress row)
          (Num (newVolume fixed)) (toJS fixed)).
Proof.
  unfold settled, Behaviour.settled, writesFor, Behaviour.writesFor, fixRow.
  fold (originalHistory row).
  destruct (fixVolumeHistory (originalHistory row)) as [fixed|];
    [|now left].
  destruct (String.eqb _ _); [now left|].
  right. exists fixed. repeat split.
Qed.

Lemma fixRow_settled db row :
  settled row -> fixRow JSON_stringify db row = db.
Proof.
  intros Hs. destruct (fixRow_cases db row) as [[_ H] | [fixed [_ [Hw _]]]];
    [exact H|].
  unfold settled, Behaviour.settled in Hs. fold writesFor in Hs.
  rewrite Hs in Hw. discriminate.
Qed.

Lemma fixRow_writes db row :
  writes (fixRow JSON_stringify db row) = (writes db ++ writesFor row)%list.
Proof.
  destruct (fixRow_cases db row) as [[Hs ->] | [fixed [_ [-> ->]]]].
  - unfold settled, Behaviour.settled in Hs. fold writesFor in Hs.
    now rewrite Hs, app_nil_r.
  - unfold updateTokenDataJSON, Behaviour.writeBack. cbn [writes].
    now rewrite newVolume_currentVolume.
Qed.

Lemma fold_fixRow_writes rows :
  forall db,
    writes (fold_left (fixRow JSON_stringify) rows db)
    = (writes db ++ flat_map writesFor rows)%list.
Proof.
  induction rows as [|row rows IH]; intros db; cbn [fold_left flat_map].
  - now rewrite app_nil_r.
  - now rewrite IH, fixRow_writes, <- app_assoc.
Qed.

Lemma settled_repaired address volume h fixed :
  fixVolumeHistory h = Normal fixed ->
  settled {| TokenData.onchainAddress := address;
             TokenData.volume := volume;
             TokenData.volumeHistory := toJS fixed |}.
Proof.
  intros Hfix. unfold settled, Behaviour.settled, Behaviour.writesFor, originalHistory.
  cbn [TokenData.volumeHistory].
  change (nullish_coalesce (toJS fixed) (Arr [])) with (toJS fixed).
  rewrite (fixVolumeHistory_toJS h fixed Hfix).
  now rewrite String.eqb_refl.
Qed.

Lemma fold_fixRow_settled rows :
  Forall settled rows ->
  forall db, fold_left (fixRow JSON_stringify) rows db = db.
Proof.
  induction 1 as [|row rows Hrow _ IH]; intros db; simpl; [reflexivity|].
  now rewrite fixRow_settled.
Qed.

(** *** What the store receives *)

Lemma transported_Num n :
  transported (Num n) = if isFinite n then Num n else Null.
Proof. reflexivity. Qed.

Lemma transported_itemToJS it :
  transported (itemToJS it)
  = Obj [("time", transported (Num (time it)));
         ("volume", transported (Num (volume it)))].
Proof. reflexivity. Qed.

Lemma transported_toJS fixed :
  transported (toJS fixed)
  = Arr (map (fun it => transported (itemToJS it)) fixed).
Proof.
  unfold toJS. cbn [transported]. f_equal. rewrite map_map.
  apply map_ext. intros it. reflexivity.
Qed.

(** JSON carries finite numbers as they are. *)
Lemma transported_finite fixed :
  forallb Behaviour.finiteSample fixed = true ->
  transported (toJS fixed) = toJS fixed /\
  transported (Num (newVolume fixed)) = Num (newVolume fixed).
Proof.
  intros Hfin. rewrite forallb_forall in Hfin. split.
  - rewrite transported_toJS. unfold toJS. f_equal.
    apply map_ext_in. intros it Hit.
    specialize (Hfin it Hit). unfold Behaviour.finiteSample in Hfin.
    apply andb_true_iff in Hfin as [Ht Hv].
    rewrite transported_itemToJS, !transported_Num, Ht, Hv.
    reflexivity.
  - rewrite transported_Num, newVolume_currentVolume.
    unfold Spec.currentVolume.
    destruct (rev fixed) as [|lastSample rest] eqn:Hrev; [reflexivity|].
    assert (Hin : In lastSample fixed)
      by (apply in_rev; rewrite Hrev; now left).
    specialize (Hfin lastSample Hin). unfold Behaviour.finiteSample in Hfin.
    apply andb_true_iff in Hfin as [_ Hv]. now rewrite Hv.
Qed.

(** A history that went through JSON is repaired to finite numbers: where
    a number was not finite the sample now holds [null], and the filter
    removes it. *)
Lemma repaired_transported fixed fixed' :
  fixVolumeHistory (transported (toJS fixed)) = Normal fixed' ->
  forallb Behaviour.finiteSample fixed' = true.
Proof.
  rewrite transported_toJS, fixVolumeHistory_characterized.
  destruct (existsb _ _); [discriminate|].
  intros Hfix. injection Hfix as <-.
  apply forallb_forall. intros it' Hit'.
  apply In_repaired in Hit' as [item [Hitem [Hkept ->]]].
  apply in_map_iff in Hitem as [it [<- _]].
  cbv beta in Hkept |- *.
  destruct (isFinite (time it)) eqn:Ht, (isFinite (volume it)) eqn:Hv;
    try discriminate Hkept.
  unfold Behaviour.finiteSample, Pure.rebuilt, Pure.timeValueOf,
    Pure.volumeValueOf.
  cbn [get lookup String.eqb Ascii.eqb Bool.eqb time volume].
  now rewrite Ht, Hv.
Qed.

Lemma rewritten_calm row fixed r :
  calm r -> calm (Behaviour.rewritten row fixed r).
Proof.
  intros Hr. unfold Behaviour.rewritten.
  destruct (String.eqb _ _); [|exact Hr].
  right. unfold originalHistory. cbn [TokenData.volumeHistory].
  rewrite transported_toJS.
  change (nullish_coalesce (Arr ?l) (Arr [])) with (Arr l).
  rewrite <- transported_toJS. apply repaired_transported.
Qed.

Lemma rewritten_settled row fixed r :
  calm row ->
  writesFor row = [Behaviour.writeBack row fixed] ->
  fixVolumeHistory (originalHistory row) = Normal fixed ->
  settled r -> settled (Behaviour.rewritten row fixed r).
Proof.
  intros Hcalm Hw Hfix Hr. unfold Behaviour.rewritten.
  destruct (String.eqb _ _); [|exact Hr].
  destruct Hcalm as [Hs | Hfin].
  - unfold settled, Behaviour.settled in Hs. fold writesFor in Hs.
    rewrite Hs in Hw. discriminate.
  - destruct (transported_finite fixed (Hfin fixed Hfix)) as [-> ->].
    now apply settled_repaired with (h := originalHistory row).
Qed.

(** The rows of the table while the sweep runs: those already visited have
    the property [P], the others are as they were read or have it by a
    write to the same address. *)
Lemma fold_fixRow_brings (P : TokenData.row -> Prop) todo :
  (forall r, settled r -> P r) ->
  (forall row fixed r,
      In row todo ->
      fixVolumeHistory (originalHistory row) = Normal fixed ->
      writesFor row = [Behaviour.writeBack row fixed] ->
      (r = row \/ P r) ->
      P (Behaviour.rewritten row fixed r)) ->
  forall db visited current,
    tokenData db = (visited ++ current)%list ->
    Forall P visited ->
    Forall2 (fun read stored => stored = read \/ P stored) todo current ->
    Forall P (tokenData (fold_left (fixRow JSON_stringify) todo db)).
Proof.
  intros Hsettled.
  induction todo as [|row todo IH];
    intros Hwritten db visited current Hdb Hvis Hcur.
  - inversion Hcur; subst. simpl. rewrite Hdb, app_nil_r. exact Hvis.
  - inversion Hcur as [|? stored ? current' Hrow Hrest]; subst.
    cbn [fold_left].
    assert (Hwritten' : forall row0 fixed r,
               In row0 todo ->
               fixVolumeHistory (originalHistory row0) = Normal fixed ->
               writesFor row0 = [Behaviour.writeBack row0 fixed] ->
               r = row0 \/ P r ->
               P (Behaviour.rewritten row0 fixed r)).
    { intros row0 fixed r Hin. apply Hwritten. now right. }
    destruct (fixRow_cases db row)
      as [[Hs Hsame] | [fixed [Hfix [Hw Hwrite]]]].
    + rewrite Hsame.
      apply (IH Hwritten' db (visited ++ [stored])%list current').
      * now rewrite Hdb, <- app_assoc.
      * apply Forall_app. split; [exact Hvis|].
        constructor; [|constructor].
        destruct Hrow as [-> | HP]; [now apply Hsettled | exact HP].
      * exact Hrest.
    + rewrite Hwrite.
      pose proof (Hwritten row fixed) as Hnow.
      specialize (fun r => Hnow r (or_introl eq_refl) Hfix Hw).
      apply (IH Hwritten' _
               (map (Behaviour.rewritten row fixed) (visited ++ [stored]))%list
               (map (Behaviour.rewritten row fixed) current')).
      * unfold updateTokenDataJSON. cbn [tokenData]. rewrite Hdb.
        fold (Behaviour.rewritten row fixed).
        now rewrite <- map_app, <- app_assoc.
      * apply Forall_map. apply Forall_app. split.
        -- eapply Forall_impl; [|exact Hvis].
           intros r HP. apply Hnow. now right.
        -- constructor; [|constructor]. apply Hnow.
           destruct Hrow as [-> | HP]; [now left | now right].
      * clear -Hrest Hnow. induction Hrest as [|r s rs ss Hrs _ IHr].
        -- constructor.
        -- cbn [map]. constructor; [|exact IHr].
           destruct Hrs as [-> | HP]; [|right; apply Hnow; now right].
           unfold Behaviour.rewritten at 1.
           destruct (String.eqb (TokenData.onchainAddress r)
                       (TokenData.onchainAddress row)) eqn:Hk;
             [|now left].
           right.
           assert (Hr : Behaviour.rewritten row fixed r
                        = {| TokenData.onchainAddress :=
                               TokenData.onchainAddress r;
                             TokenData.volume :=
                               transported (Num (newVolume fixed));
                             TokenData.volumeHistory :=
                               transported (toJS fixed) |})
             by (unfold Behaviour.rewritten; now rewrite Hk).
           rewrite Hr.
           assert (Hrow' : Behaviour.rewritten row fixed row
                           = {| TokenData.onchainAddress :=
                                  TokenData.onchainAddress row;
                                TokenData.volume :=
                                  transported (Num (newVolume fixed));
                                TokenData.volumeHistory :=
                                  transported (toJS fixed) |})
             by (unfold Behaviour.rewritten; now rewrite String.eqb_refl).
           apply String.eqb_eq in Hk. rewrite Hk, <- Hrow'.
           apply Hnow. now left.
Qed.

Lemma Forall2_same {A : Type} (P : A -> Prop) (l : list A) :
  Forall2 (fun read stored => stored = read \/ P stored) l l.
Proof. induction l; constructor; auto. Qed.

(** After a sweep every row is one that the next sweep settles. *)
Lemma checkAndFixAllTokenData_calms db :
  Forall calm (tokenData (checkAndFixAllTokenData JSON_stringify db)).
Proof.
  unfold checkAndFixAllTokenData.
  destruct (tokenData db) as [|row rows] eqn:Hrows.
  - rewrite Hrows. constructor.
  - apply (fold_fixRow_brings calm (row :: rows)) with (visited := [])
                                                     (current := row :: rows).
    + intros r Hr. now left.
    + intros row0 fixed r _ Hfix _ Hr.
      destruct Hr as [-> | Hr]; [|now apply rewritten_calm].
      unfold Behaviour.rewritten. rewrite String.eqb_refl.
      right. unfold originalHistory. cbn [TokenData.volumeHistory].
      rewrite transported_toJS.
      change (nullish_coalesce (Arr ?l) (Arr [])) with (Arr l).
      rewrite <- transported_toJS. apply repaired_transported.
    + exact Hrows.
    + constructor.
    + apply Forall2_same.
Qed.

(** A sweep over rows that it settles leaves every row settled. *)
Lemma checkAndFixAllTokenData_settles db :
  Forall calm (tokenData db) ->
  Forall settled (tokenData (checkAndFixAllTokenData JSON_stringify db)).
Proof.
  intros Hcalm. unfold checkAndFixAllTokenData.
  destruct (tokenData db) as [|row rows] eqn:Hrows.
  - rewrite Hrows. constructor.
  - rewrite Forall_forall in Hcalm.
    apply (fold_fixRow_brings settled (row :: rows)) with (visited := [])
                                                        (current := row :: rows).
    + auto.
    + intros row0 fixed r Hin Hfix Hw Hr.
      assert (Hc : calm row0) by now apply Hcalm.
      destruct Hr as [-> | Hr]; [|now apply rewritten_settled].
      unfold Behaviour.rewritten. rewrite String.eqb_refl.
      destruct Hc as [Hs | Hfin].
      * unfold settled, Behaviour.settled in Hs. fold writesFor in Hs.
        rewrite Hs in Hw. discriminate.
      * destruct (transported_finite fixed (Hfin fixed Hfix)) as [-> ->].
        now apply settled_repaired with (h := originalHistory row0).
    + exact Hrows.
    + constructor.
    + apply Forall2_same.
Qed.

Lemma checkAndFixAllTokenData_settled db :
  Forall settled (tokenData db) ->
  checkAndFixAllTokenData JSON_stringify db = db.
Proof.
  intros H. unfold checkAndFixAllTokenData.
  destruct (tokenData db) as [|row rows] eqn:Hrows; [reflexivity|].
  now apply fold_fixRow_settled.
Qed.

Lemma checkAndFixAllTokenData_writes db :
  writes (checkAndFixAllTokenData JSON_stringify db)
  = (writes db ++ flat_map writesFor (tokenData db))%list.
Proof.
  unfold checkAndFixAllTokenData.
  destruct (tokenData db) as [|r rows] eqn:Hrows.
  - simpl. now rewrite app_nil_r.
  - apply fold_fixRow_writes.
Qed.
End SweepFacts.

(** C3, as the specification states it, fails: the filter retains the
    sample [{ time: 1, volume: "Infinity" }] with the volume [Infinity],
    the first sweep sends the repaired history as JSON, in which
    [Infinity] is [null], and the second sweep, finding the sample with a
    volume of [null], removes it and issues a second write. *)
Lemma second_sweep_counterexample :
  let db0 :=
    {| news := [];
       tokenData := [{| TokenData.onchainAddress := "0xsale";
                        TokenData.volume := Str "Infinity";
                        TokenData.volumeHistory := Arr [Samples.infinite] |}];
       comments := [];
       writes := [] |} in
  let db1 := checkAndFixAllTokenData stringify db0 in
  let db2 := checkAndFixAllTokenData stringify db1 in
  fixVolumeHistory (Arr [Samples.infinite])
    = Normal [{| time := Dec 1 0; volume := PosInfinity |}] /\
  writes db1
    = [UpdateTokenData "0xsale" (Num PosInfinity)
         (Arr [Obj [("time", Num (Dec 1 0)); ("volume", Num PosInfinity)]])] /\
  tokenData db1
    = [{| TokenData.onchainAddress := "0xsale";
          TokenData.volume := Null;
          TokenData.volumeHistory :=
            Arr [Obj [("time", Num (Dec 1 0)); ("volume", Null)]] |}] /\
  writes db2
    = (writes db1 ++ [UpdateTokenData "0xsale" (Num (Dec 0 0)) (Arr [])])%list /\
  tokenData db2
    = [{| TokenData.onchainAddress := "0xsale";
          TokenData.volume := Num (Dec 0 0);
          TokenData.volumeHistory := Arr [] |}] /\
  db2 <> db1.
Proof.
  cbv zeta. repeat split; try reflexivity.
  intros H. apply (f_equal tokenData) in H. vm_compute in H. discriminate.
Qed.

(** C3 (amended).  Repairing a repaired history gives it back unchanged,
    and the loop of the sweep issues no write for a row that holds a
    repaired history.  The store receives a repaired history as JSON, so
    that a second sweep can still change a row (see the counterexample); a
    third sweep changes nothing and issues no write. *)
Theorem repair_idempotent (JSON_stringify : any -> string) (h : any)
  (db : database) (address : string) (volume : any) :
  (fixed <- fixVolumeHistory h ;; fixVolumeHistory (toJS fixed))
    = fixVolumeHistory h /\
  (forall fixed,
      fixVolumeHistory h = Normal fixed ->
      fixRow JSON_stringify db
        {| TokenData.onchainAddress := address;
           TokenData.volume := volume;
           TokenData.volumeHistory := toJS fixed |} = db) /\
  checkAndFixAllTokenData JSON_stringify
    (checkAndFixAllTokenData JSON_stringify
       (checkAndFixAllTokenData JSON_stringify db))
  = checkAndFixAllTokenData JSON_stringify
      (checkAndFixAllTokenData JSON_stringify db).
Proof.
  split; [|split].
  - destruct (fixVolumeHistory h) as [fixed|] eqn:Hfix; [|reflexivity].
    cbn [bind]. now apply fixVolumeHistory_toJS with (h := h).
  - intros fixed Hfix. apply fixRow_settled.
    now apply settled_repaired with (h := h).
  - apply checkAndFixAllTokenData_settled, checkAndFixAllTokenData_settles,
      checkAndFixAllTokenData_calms.
Qed.

(** C8, as the specification states it, fails: it gives every row one of
    two outcomes, no update or one update.  For a row whose history holds a
    sample with a time that cannot be written as text the repair throws:
    there is no repaired history to compare, the exception is caught and no
    update is issued, although the filter of the specification drops that
    sample and leaves a history that differs from the stored one. *)
Lemma write_back_counterexample :
  let stored := [Samples.sample 1 10; Samples.unprintable] in
  let row := {| TokenData.onchainAddress := "0xsale";
                TokenData.volume := Num (Dec 10 0);
                TokenData.volumeHistory := Arr stored |} in
  fixVolumeHistory (originalHistory row) = Throw /\
  filter (fun item => negb (Spec.removed item)) stored
    = [Samples.sample 1 10] /\
  stringify (Arr stored) <> stringify (Arr [Samples.sample 1 10]) /\
  fixRow stringify Samples.store row = Samples.store.
Proof. cbv zeta. repeat split; try reflexivity. discriminate. Qed.

(** C8 (amended).  For a row the sweep processes on which the repair does
    not throw: when the serialized repaired history equals the serialized
    original, the store and the list of issued requests stay as they are;
    otherwise exactly one update is issued, for the address of the row,
    with the repaired history and the volume of its last sample (0 for an
    empty history), and only the rows of that address change.  When the
    repair throws, the exception is caught and nothing is written.  Over a
    whole sweep the requests issued are these updates, one for each row
    read whose serializations differ. *)
Theorem fixRow_write_back (JSON_stringify : any -> string) (db : database)
  (row : TokenData.row) :
  let original := originalHistory row in
  let key := TokenData.onchainAddress row in
  let db' := fixRow JSON_stringify db row in
  match fixVolumeHistory original with
  | Throw => db' = db
  | Normal fixed =>
      (JSON_stringify original = JSON_stringify (toJS fixed) -> db' = db) /\
      (JSON_stringify original <> JSON_stringify (toJS fixed) ->
       writes db' =
         (writes db ++
          [UpdateTokenData key (Num (Spec.currentVolume fixed)) (toJS fixed)])%list /\
       news db' = news db /\
       comments db' = comments db /\
       Forall2 (fun old new =>
                  if String.eqb (TokenData.onchainAddress old) key
                  then TokenData.onchainAddress new = key
                  else new = old)
         (tokenData db) (tokenData db'))
  end /\
  writes (checkAndFixAllTokenData JSON_stringify db)
  = (writes db ++
     flat_map (Behaviour.writesFor JSON_stringify) (tokenData db))%list.
Proof.
  intros original key db'. split; [|apply checkAndFixAllTokenData_writes].
  subst db'. unfold fixRow. fold (originalHistory row). fold original.
  destruct (fixVolumeHistory original) as [fixed|]; [|reflexivity].
  split.
  - intros ->. now rewrite String.eqb_refl.
  - intros Hneq. apply String.eqb_neq in Hneq. rewrite Hneq.
    unfold updateTokenDataJSON. cbn [writes news comments tokenData].
    fold key. rewrite newVolume_currentVolume.
    repeat split.
    generalize (tokenData db). intros rows.
    induction rows as [|r rows IH]; cbn [map]; constructor; [|exact IH].
    destruct (String.eqb (TokenData.onchainAddress r) key) eqn:Hk;
      [|reflexivity].
    cbn [TokenData.onchainAddress]. now apply String.eqb_eq.
Qed.

(* ===================================================================== *)
(** ** The best comment                                                   *)
(* ===================================================================== *)

Lemma time_gt_antisym a b : time_gt a b = true -> time_gt b a = false.
Proof.
  destruct a as [x|], b as [y|]; simpl; try congruence.
  intros H. zbool. apply Z.ltb_ge. lia.
Qed.

Lemma fold_considerComment_zero saleContract allComments :
  (forall c, In c allComments ->
             saleContract (Comments.walletAddress c) = Some 0%N) ->
  fold_left (considerComment saleContract) allComments (None, 0%N)
    = (None, 0%N).
Proof.
  induction allComments as [|c rest IH]; intros H; [reflexivity|].
  cbn [fold_left]. unfold considerComment at 2.
  rewrite (H c (or_introl eq_refl)). cbn.
  apply IH. intros c' Hc'. apply H. now right.
Qed.

(** C2, as the specification states it, fails: with the two comments of
    the sample store and every balance 0, no comment is selected, and the
    handler issues no write and leaves [best_comments] as it was. *)
Lemma all_zero_counterexample :
  getBestComment [Samples.commentAt1005; Samples.commentAt1000]
    (Samples.everyoneHolds 0%N "0xsale") = None /\
  selectComments Samples.store "0xsale"
    = [Samples.commentAt1005; Samples.commentAt1000] /\
  listenToSupabaseComments (Samples.everyoneHolds 0%N) Samples.store
    Samples.commentAt1005 = Samples.store.
Proof. repeat split; reflexivity. Qed.

(** C2 (amended).  When every commenter's balance lookup succeeds and
    returns 0, [getBestComment] selects no comment (it returns [null]), in
    whatever order the comments are supplied, and the handler of a comment
    insert then issues no update: the store, with the best comment of the
    metadata, stays as it was. *)
Theorem all_zero_no_best (allComments : list Comments.row)
  (saleContract : contract) (provider : string -> contract)
  (db : database) (newComment : Comments.row) :
  (forall c, In c allComments ->
             saleContract (Comments.walletAddress c) = Some 0%N) ->
  (forall c, In c (selectComments db (toLowerCase (Comments.newsId newComment))) ->
             provider (Comments.newsId newComment) (Comments.walletAddress c)
               = Some 0%N) ->
  getBestComment allComments saleContract = None /\
  listenToSupabaseComments provider db newComment = db.
Proof.
  intros Hall Hdb. split.
  - unfold getBestComment. now rewrite fold_considerComment_zero.
  - unfold listenToSupabaseComments.
    destruct (maybeSingle _) as [[row|]|]; try reflexivity.
    destruct (selectComments db _) as [|c rest] eqn:Hsel; [reflexivity|].
    unfold getBestComment. now rewrite fold_considerComment_zero.
Qed.

Lemma all_zero_no_best_witness :
  getBestComment [Samples.commentAt1000; Samples.commentAt1005]
    (Samples.everyoneHolds 0%N "0xsale") = None /\
  listenToSupabaseComments (Samples.everyoneHolds 0%N) Samples.store
    Samples.commentAt1000 = Samples.store.
Proof.
  apply all_zero_no_best; intros c _; reflexivity.
Defined.

(** C7.  Of two comments whose balance lookups succeed with the same
    nonzero balance, [getBestComment] selects the one created later, in
    either order of the two. *)
Theorem tie_break_later_wins (saleContract : contract)
  (earlier later : Comments.row) (balance : BigNumber) :
  saleContract (Comments.walletAddress earlier) = Some balance ->
  saleContract (Comments.walletAddress later) = Some balance ->
  balance <> 0%N ->
  time_gt (Comments.createdAt later) (Comments.createdAt earlier) = true ->
  getBestComment [earlier; later] saleContract = Some later /\
  getBestComment [later; earlier] saleContract = Some later.
Proof.
  intros He Hl Hb Hgt.
  pose proof (time_gt_antisym _ _ Hgt) as Hlt.
  assert (H0 : (0 <? balance)%N = true) by (apply N.ltb_lt; lia).
  unfold getBestComment, considerComment. cbn [fold_left].
  rewrite He, Hl, H0, N.ltb_irrefl, N.eqb_refl, Hgt, Hlt.
  split; reflexivity.
Qed.

Lemma tie_break_later_wins_witness :
  getBestComment [Samples.commentAt1000; Samples.commentAt1005]
    (Samples.everyoneHolds 7%N "0xsale") = Some Samples.commentAt1005 /\
  getBestComment [Samples.commentAt1005; Samples.commentAt1000]
    (Samples.everyoneHolds 7%N "0xsale") = Some Samples.commentAt1005.
Proof.
  apply (tie_break_later_wins (Samples.everyoneHolds 7%N "0xsale")
           Samples.commentAt1000 Samples.commentAt1005 7%N);
    [reflexivity | reflexivity | discriminate | reflexivity].
Defined.

(* ===================================================================== *)
(** ** SaleCreated                                                        *)
(* ===================================================================== *)

Lemma insertNewsOnSaleCreated_present db a ts name descr logo :
  selectNews db (toLowerCase a) <> [] ->
  insertNewsOnSaleCreated db a ts name descr logo = db.
Proof.
  intros H. unfold insertNewsOnSaleCreated.
  destruct (selectNews db (toLowerCase a)) as [|r [|r' rest]];
    [contradiction | reflexivity | reflexivity].
Qed.

Lemma insertTokenDataOnSaleCreated_present db a :
  selectTokenData db (toLowerCase a) <> [] ->
  insertTokenDataOnSaleCreated db a = db.
Proof.
  intros H. unfold insertTokenDataOnSaleCreated.
  destruct (selectTokenData db (toLowerCase a)) as [|r [|r' rest]];
    [contradiction | reflexivity | reflexivity].
Qed.

Lemma selectNews_insertNewsOnSaleCreated db a ts name descr logo :
  selectNews (insertNewsOnSaleCreated db a ts name descr logo) (toLowerCase a)
  = match selectNews db (toLowerCase a) with
    | [] => [{| News.onchainAddress := toLowerCase a;
                News.date := Number_toString ts;
                News.title := name;
                News.description := descr;
                News.imageUrl := logo;
                News.isLaunched := false;
                News.best_comments := Null |}]
    | rows => rows
    end.
Proof.
  unfold insertNewsOnSaleCreated.
  destruct (selectNews db (toLowerCase a)) as [|r [|r' rest]] eqn:Hsel;
    cbn [maybeSingle]; try exact Hsel.
  unfold selectNews, insertNews in *. cbn [news].
  rewrite filter_app, Hsel. cbn [filter News.onchainAddress app].
  now rewrite String.eqb_refl.
Qed.

Lemma selectTokenData_insertTokenDataOnSaleCreated db a :
  selectTokenData (insertTokenDataOnSaleCreated db a) (toLowerCase a) <> [].
Proof.
  unfold insertTokenDataOnSaleCreated.
  destruct (selectTokenData db (toLowerCase a)) as [|r [|r' rest]] eqn:Hsel;
    cbn [maybeSingle]; try (rewrite Hsel; discriminate).
  unfold selectTokenData, insertTokenData in *. cbn [tokenData].
  rewrite filter_app, Hsel. cbn [filter TokenData.onchainAddress app].
  rewrite String.eqb_refl. discriminate.
Qed.

Lemma news_insertTokenDataOnSaleCreated db a :
  news (insertTokenDataOnSaleCreated db a) = news db.
Proof.
  unfold insertTokenDataOnSaleCreated.
  now destruct (maybeSingle _) as [[r|]|].
Qed.

Lemma selectNews_onSaleCreated db a ts name descr logo key :
  selectNews (onSaleCreated db a ts name descr logo) key
  = selectNews (insertNewsOnSaleCreated db a ts name descr logo) key.
Proof.
  unfold onSaleCreated, selectNews.
  now rewrite news_insertTokenDataOnSaleCreated.
Qed.

(** C9.  With at most one metadata record stored for the address (the
    address is the unique key of the table), two [SaleCreated] invocations
    for it leave exactly one: the first inserts the record if there was
    none, and the second changes nothing in the store and issues no
    write. *)
Theorem sale_created_twice (db : database) (address : string)
  (ts ts' : number) (name descr logo name' descr' logo' : string) :
  (List.length (selectNews db (toLowerCase address)) <= 1)%nat ->
  let db1 := onSaleCreated db address ts name descr logo in
  let db2 := onSaleCreated db1 address ts' name' descr' logo' in
  List.length (selectNews db1 (toLowerCase address)) = 1%nat /\
  db2 = db1 /\
  List.length (selectNews db2 (toLowerCase address)) = 1%nat.
Proof.
  intros Hunique db1 db2.
  assert (H1 : List.length (selectNews db1 (toLowerCase address)) = 1%nat).
  { subst db1.
    rewrite selectNews_onSaleCreated, selectNews_insertNewsOnSaleCreated.
    destruct (selectNews db (toLowerCase address)) as [|r [|r' rest]];
      simpl in *; lia. }
  assert (H2 : db2 = db1).
  { subst db2. unfold onSaleCreated at 1.
    rewrite insertNewsOnSaleCreated_present.
    - apply insertTokenDataOnSaleCreated_present.
      subst db1. unfold onSaleCreated.
      apply selectTokenData_insertTokenDataOnSaleCreated.
    - intros Hnil. rewrite Hnil in H1. discriminate. }
  now rewrite H2.
Qed.

Lemma sale_created_twice_witness :
  let db1 := onSaleCreated Samples.store "0xNEW" (Dec 1700000000000 0)
               "New" "A new sale" "new.png" in
  let db2 := onSaleCreated db1 "0xNEW" (Dec 1700000000001 0)
               "New" "A new sale" "new.png" in
  List.length (selectNews db1 (toLowerCase "0xNEW")) = 1%nat /\
  db2 = db1 /\
  List.length (selectNews db2 (toLowerCase "0xNEW")) = 1%nat.
Proof.
  apply (sale_created_twice Samples.store "0xNEW"). simpl. lia.
Defined.

(* ===================================================================== *)
(** ** Volume events                                                      *)
(* ===================================================================== *)

Lemma selectTokenData_updateTokenData db key volume history :
  selectTokenData (updateTokenData db key volume history) key
  = map (fun r => {| TokenData.onchainAddress := TokenData.onchainAddress r;
                     TokenData.volume := volume;
                     TokenData.volumeHistory := history |})
      (selectTokenData db key).
Proof.
  unfold selectTokenData, updateTokenData. cbn [tokenData].
  induction (tokenData db) as [|r rows IH]; [reflexivity|].
  cbn [map filter].
  destruct (String.eqb (TokenData.onchainAddress r) key) eqn:Hk.
  - cbn [TokenData.onchainAddress]. rewrite Hk. cbn [map]. now rewrite IH.
  - rewrite Hk. exact IH.
Qed.

(** One event on an address that has its row: the sample goes to the end
    of the history and the volume is the event's. *)
Lemma onVolumeEvent_existing db ev key volume history :
  toLowerCase (saleContractAddress ev) = key ->
  selectTokenData db key
    = [{| TokenData.onchainAddress := key;
          TokenData.volume := volume;
          TokenData.volumeHistory := Arr history |}] ->
  selectTokenData (onVolumeEvent db ev) key
    = [{| TokenData.onchainAddress := key;
          TokenData.volume := Str (formatEther (totalRaised ev));
          TokenData.volumeHistory := Arr (history ++ [sampleOf ev]) |}].
Proof.
  intros Hkey Hsel. unfold onVolumeEvent, updateTokenDataVolume.
  rewrite Hkey, Hsel. cbn [maybeSingle TokenData.volumeHistory].
  change (nullish_coalesce (Arr history) (Arr [])) with (Arr history).
  cbv iota. rewrite selectTokenData_updateTokenData, Hsel. reflexivity.
Qed.

Lemma onVolumeEvent_fresh db ev key :
  toLowerCase (saleContractAddress ev) = key ->
  selectTokenData db key = [] ->
  selectTokenData (onVolumeEvent db ev) key
    = [{| TokenData.onchainAddress := key;
          TokenData.volume := Str (formatEther (totalRaised ev));
          TokenData.volumeHistory := Arr [sampleOf ev] |}].
Proof.
  intros Hkey Hsel. unfold onVolumeEvent, updateTokenDataVolume.
  rewrite Hkey, Hsel. cbn [maybeSingle].
  unfold selectTokenData, insertTokenData in *. cbn [tokenData].
  rewrite filter_app, Hsel. cbn [filter TokenData.onchainAddress app].
  now rewrite String.eqb_refl.
Qed.

Lemma onVolumeEvents_existing evs : forall db key ev0 history,
  (forall ev, In ev evs -> toLowerCase (saleContractAddress ev) = key) ->
  selectTokenData db key
    = [{| TokenData.onchainAddress := key;
          TokenData.volume := Str (formatEther (totalRaised ev0));
          TokenData.volumeHistory := Arr history |}] ->
  selectTokenData (onVolumeEvents db evs) key
    = [{| TokenData.onchainAddress := key;
          TokenData.volume := Str (formatEther (totalRaised (last evs ev0)));
          TokenData.volumeHistory := Arr (history ++ map sampleOf evs) |}].
Proof.
  induction evs as [|ev evs IH]; intros db key ev0 history Hkeys Hsel.
  - cbn [onVolumeEvents fold_left last map]. now rewrite app_nil_r.
  - unfold onVolumeEvents. cbn [fold_left]. fold (onVolumeEvents (onVolumeEvent db ev) evs).
    rewrite (IH _ key ev (history ++ [sampleOf ev])%list).
    + cbn [map]. rewrite <- app_assoc. cbn [app].
      now rewrite last_cons.
    + intros ev' Hin. apply Hkeys. now right.
    + eapply onVolumeEvent_existing; [|exact Hsel].
      apply Hkeys. now left.
Qed.

(** C5.  For a non-empty sequence of volume events on one address that has
    no row yet, handled one after the other: the address ends with one row,
    whose volume is the converted amount of the last event and whose
    history holds the samples of the events in their order, one for each
    event. *)
Theorem volume_events_append (db : database) (key : string)
  (first : volumeEvent) (rest : list volumeEvent) :
  let evs := first :: rest in
  (forall ev, In ev evs -> toLowerCase (saleContractAddress ev) = key) ->
  selectTokenData db key = [] ->
  exists history,
    selectTokenData (onVolumeEvents db evs) key
      = [{| TokenData.onchainAddress := key;
            TokenData.volume :=
              Str (formatEther (totalRaised (last evs first)));
            TokenData.volumeHistory := Arr history |}] /\
    history = map sampleOf evs /\
    List.length history = List.length evs.
Proof.
  intros evs Hkeys Hfresh. exists (map sampleOf evs).
  split; [|split; [reflexivity | apply length_map]].
  subst evs. unfold onVolumeEvents. cbn [fold_left].
  fold (onVolumeEvents (onVolumeEvent db first) rest).
  rewrite (onVolumeEvents_existing rest _ key first [sampleOf first]).
  - now rewrite last_cons.
  - intros ev Hin. apply Hkeys. now right.
  - apply onVolumeEvent_fresh; [|exact Hfresh]. apply Hkeys. now left.
Qed.

Lemma volume_events_append_witness :
  exists history,
    selectTokenData (onVolumeEvents Samples.store Samples.purchases) "0xsale"
      = [{| TokenData.onchainAddress := "0xsale";
            TokenData.volume := Str "2.25";
            TokenData.volumeHistory := Arr history |}] /\
    history = map sampleOf Samples.purchases /\
    List.length history = 3%nat.
Proof.
  apply (volume_events_append Samples.store "0xsale").
  - intros ev [<- | [<- | [<- | []]]]; reflexivity.
  - reflexivity.
Defined.

(* ===================================================================== *)
(** ** The built-ins on examples                                          *)
(* ===================================================================== *)

Example parseFloat_examples :
  parseFloat "1.5" = Dec 15 (-1) /\
  parseFloat "  100abc" = Dec 1 2 /\
  parseFloat "-2.50e3" = Dec (-25) 2 /\
  parseFloat "0.01.02" = Dec 1 (-2) /\
  parseFloat "1e" = Dec 1 0 /\
  parseFloat ".5" = Dec 5 (-1) /\
  parseFloat "-Infinity" = NegInfinity /\
  parseFloat "abc" = NaN /\
  parseFloat "." = NaN /\
  parseFloat EmptyString = NaN.
Proof. repeat split; reflexivity. Qed.

Example ToString_examples :
  ToString (Num (Dec 15 (-1))) = Normal "1.5" /\
  ToString (Num (Dec 1500 (-3))) = Normal "1.5" /\
  ToString (Num (Dec 1700000000000 0)) = Normal "1700000000000" /\
  ToString (Num (Dec (-25) 2)) = Normal "-2500" /\
  ToString (Num (Dec 1 21)) = Normal "1e+21" /\
  ToString (Num (Dec 12 (-8))) = Normal "1.2e-7" /\
  ToString (Num (Dec 5 (-3))) = Normal "0.005" /\
  ToString (Arr [Num (Dec 1 0); Null; Str "a"]) = Normal "1,,a" /\
  ToString (Obj []) = Normal "[object Object]" /\
  ToString (Arr [Obj [("toString", Null)]]) = Throw.
Proof. repeat split; reflexivity. Qed.

Example formatEther_examples :
  formatEther 1000000000000000000%N = "1.0" /\
  formatEther 1500000000000000000%N = "1.5" /\
  formatEther 1%N = "0.000000000000000001" /\
  formatEther 0%N = "0.0".
Proof. repeat split; reflexivity. Qed.

(** The ordering example of the specification: samples at times 300, 100
    and 200 come out in ascending order of time. *)
Example fixVolumeHistory_orders :
  fixVolumeHistory
    (Arr [Samples.sample 300 1; Samples.sample 100 2; Samples.sample 200 3])
  = Normal [{| time := Dec 100 0; volume := Dec 2 0 |};
            {| time := Dec 200 0; volume := Dec 3 0 |};
            {| time := Dec 300 0; volume := Dec 1 0 |}].
Proof. reflexivity. Qed.

(** The retention example of the specification: of eight valid samples the
    last seven are kept. *)
Example fixVolumeHistory_eight :
  fixVolumeHistory
    (Arr (Samples.five ++
          [Samples.sample 6 60; Samples.sample 7 70; Samples.sample 8 80]))
  = Normal [{| time := Dec 2 0; volume := Dec 20 0 |};
            {| time := Dec 3 0; volume := Dec 30 0 |};
            {| time := Dec 4 0; volume := Dec 40 0 |};
            {| time := Dec 5 0; volume := Dec 50 0 |};
            {| time := Dec 6 0; volume := Dec 60 0 |};
            {| time := Dec 7 0; volume := Dec 70 0 |};
            {| time := Dec 8 0; volume := Dec 80 0 |}].
Proof. reflexivity. Qed.

(** A time that cannot be written as text makes the repair throw; the
    sweep catches the exception and writes nothing for the row. *)
Example fixVolumeHistory_throws :
  fixVolumeHistory (Arr [Samples.sample 1 10; Samples.unprintable]) = Throw /\
  forall JSON_stringify db address volume,
    fixRow JSON_stringify db
      {| TokenData.onchainAddress := address;
         TokenData.volume := volume;
         TokenData.volumeHistory :=
           Arr [Samples.sample 1 10; Samples.unprintable] |} = db.
Proof. split; reflexivity. Qed.

(* ===================================================================== *)
(** ** More on the repair of one history                                  *)
(* ===================================================================== *)

Lemma fixVolumeHistory_ascending_witness :
  ((List.length [{| time := Dec 100 0; volume := Dec 2 0 |};
                 {| time := Dec 200 0; volume := Dec 3 0 |};
                 {| time := Dec 300 0; volume := Dec 1 0 |}] <= 4)%nat \/
   List.length [{| time := Dec 100 0; volume := Dec 2 0 |};
                {| time := Dec 200 0; volume := Dec 3 0 |};
                {| time := Dec 300 0; volume := Dec 1 0 |}] = 7%nat) /\
  StronglySorted Behaviour.notAfter
    [{| time := Dec 100 0; volume := Dec 2 0 |};
     {| time := Dec 200 0; volume := Dec 3 0 |};
     {| time := Dec 300 0; volume := Dec 1 0 |}].
Proof.
  pose proof (fixVolumeHistory_ascending
                (Arr [Samples.sample 300 1; Samples.sample 100 2;
                      Samples.sample 200 3])
                _ eq_refl) as H.
  split; [exact (proj1 H) | exact (proj2 H eq_refl)].
Defined.

Lemma filter_length {A : Type} (f : A -> bool) (l : list A) :
  (List.length (filter f l) <= List.length l)%nat.
Proof.
  induction l as [|x l IH]; simpl; [lia|].
  destruct (f x); simpl; lia.
Qed.

Lemma filter_nil {A : Type} (f : A -> bool) (l : list A) :
  filter f l = [] <-> forall x, In x l -> f x = false.
Proof.
  induction l as [|x l IH]; simpl; [tauto|].
  destruct (f x) eqn:Hx; split.
  - discriminate.
  - intros H. specialize (H x (or_introl eq_refl)). congruence.
  - intros H y [<-|Hy]; [exact Hx | now apply IH].
  - intros H. apply IH. intros y Hy. apply H. now right.
Qed.

Lemma truncate_nil (l : list any) : truncate l = [] -> l = [].
Proof.
  intros H. pose proof (truncate_length l) as Hlen. cbv zeta in Hlen.
  rewrite H in Hlen. change (Z.of_nat (List.length (@nil any))) with 0 in Hlen.
  destruct l as [|x l]; [reflexivity|]. exfalso.
  set (N := Z.of_nat (List.length (x :: l))) in *.
  assert (HN : 0 < N) by (unfold N; cbn [List.length]; lia).
  destruct (N >? 4) eqn:H4; [destruct (N <? 7) eqn:H7|]; zbool; lia.
Qed.

Lemma existsb_false {A : Type} (f : A -> bool) (l : list A) :
  existsb f l = false <-> forall x, In x l -> f x = false.
Proof.
  induction l as [|x l IH]; simpl; [tauto|].
  rewrite orb_false_iff, IH. split.
  - intros [Hx Hl] y [<-|Hy]; auto.
  - intros H. split; [apply H; now left | intros y Hy; apply H; now right].
Qed.

(** What the filter answers on the samples of an array on which it does
    not throw. *)
Lemma filterCallback_kept cloned item :
  existsb Behaviour.throwsOn cloned = false -> In item cloned ->
  filterCallback item = Normal (negb (Behaviour.removedByFilter item)).
Proof.
  intros Hex Hin. rewrite filterCallback_spec.
  rewrite existsb_false in Hex. now rewrite (Hex item Hin).
Qed.

(** X2.  The repair invents nothing: a repaired history is no longer than
    the stored one, each of its samples is a sample of the stored history
    that the filter accepts, with its time and its volume as numbers, and it
    is empty only when the filter rejects every stored sample. *)
Theorem repair_keeps_stored_samples (cloned : list any)
  (fixed : list VolumeHistoryItem) :
  fixVolumeHistory (Arr cloned) = Normal fixed ->
  (List.length fixed <= List.length cloned)%nat /\
  (forall it, In it fixed ->
     exists item,
       In item cloned /\ filterCallback item = Normal true /\
       timeOf item = Normal (time it) /\ volumeOf item = Normal (volume it)) /\
  (fixed = [] <->
   forall item, In item cloned -> filterCallback item = Normal false).
Proof.
  intros Hfix. rewrite fixVolumeHistory_characterized in Hfix.
  destruct (existsb Behaviour.throwsOn cloned) eqn:Hex; [discriminate|].
  injection Hfix as <-. split; [|split].
  - unfold Behaviour.repaired. rewrite length_map.
    unfold truncate, Array_slice. rewrite length_skipn.
    rewrite (Permutation_length (sortBy_Permutation Pure.later _)).
    pose proof (filter_length
                  (fun item => negb (Behaviour.removedByFilter item)) cloned).
    lia.
  - intros it Hit. apply In_repaired in Hit as [item [Hin [Hrem ->]]].
    exists item. split; [exact Hin|].
    rewrite (filterCallback_kept cloned item Hex Hin), Hrem.
    split; [reflexivity|].
    apply kept_conversions; [|exact Hrem].
    rewrite existsb_false in Hex. now apply Hex.
  - unfold Behaviour.repaired. split.
    + intros Hnil item Hin.
      apply map_eq_nil, truncate_nil in Hnil.
      assert (Hf : filter (fun item => negb (Behaviour.removedByFilter item))
                     cloned = []).
      { apply Permutation_nil. rewrite <- Hnil. apply sortBy_Permutation. }
      rewrite filter_nil in Hf.
      now rewrite (filterCallback_kept cloned item Hex Hin), (Hf item Hin).
    + intros Hall.
      assert (Hf : filter (fun item => negb (Behaviour.removedByFilter item))
                     cloned = []).
      { apply filter_nil. intros item Hin.
        pose proof (Hall item Hin) as H.
        rewrite (filterCallback_kept cloned item Hex Hin) in H. congruence. }
      now rewrite Hf.
Qed.

Lemma repair_keeps_stored_samples_witness :
  (List.length [{| time := Dec 1 0; volume := Dec 10 0 |};
                {| time := Dec 3 0; volume := Dec 5 (-1) |}]
   <= List.length [Samples.textual; Samples.twoDots; Samples.sample 1 10])%nat /\
  (forall it,
     In it [{| time := Dec 1 0; volume := Dec 10 0 |};
            {| time := Dec 3 0; volume := Dec 5 (-1) |}] ->
     exists item,
       In item [Samples.textual; Samples.twoDots; Samples.sample 1 10] /\
       filterCallback item = Normal true /\
       timeOf item = Normal (time it) /\ volumeOf item = Normal (volume it)).
Proof.
  pose proof (repair_keeps_stored_samples
                [Samples.textual; Samples.twoDots; Samples.sample 1 10]
                _ eq_refl) as H.
  split; [exact (proj1 H) | exact (proj1 (proj2 H))].
Defined.

Lemma gt0_sub_refl a : gt0 (sub a a) = false.
Proof.
  destruct (gt0 (sub a a)) eqn:H; [|reflexivity].
  pose proof (gt0_sub_antisym _ _ H). congruence.
Qed.

Lemma StronglySorted_before_last {A : Type} (R : A -> A -> Prop)
  (front : list A) (z : A) :
  StronglySorted R (front ++ [z]) -> forall x, In x front -> R x z.
Proof.
  induction front as [|y front IH]; intros Hs x Hx; [destruct Hx|].
  cbn [app] in Hs. apply StronglySorted_inv in Hs as [Hs Hy].
  destruct Hx as [<-|Hx]; [|now apply IH].
  rewrite Forall_forall in Hy. apply Hy, in_or_app. right. now left.
Qed.

(** The accepted samples of a history without [NaN] in it, sorted: none has
    to go after a later one. *)
Lemma sorted_kept_StronglySorted cloned :
  noNaN (Arr cloned) = true ->
  StronglySorted (fun x y => Pure.later x y = false)
    (sortBy Pure.later
       (filter (fun item => negb (Behaviour.removedByFilter item)) cloned)).
Proof.
  intros Hn. set (kept := filter _ cloned).
  apply ordered_StronglySorted;
    [|apply sortBy_ordered, later_antisym].
  apply Forall_forall. intros x Hx.
  apply (Permutation_in _ (sortBy_Permutation _ _)) in Hx.
  apply filter_In in Hx as [Hin Hk]. apply negb_true_iff in Hk.
  cbn [noNaN] in Hn. rewrite forallb_forall in Hn.
  pose proof (kept_sampleNotNaN x (Hn x Hin) Hk) as Hs.
  unfold Behaviour.sampleNotNaN in Hs.
  apply andb_true_iff in Hs as [_ Hs].
  now apply negb_true_iff in Hs.
Qed.

(** X3.  The repair never drops the newest sample: in a history without
    [NaN] in which the filter accepts a sample, the last sample of the
    repaired history is not before any accepted sample, and its volume is
    the volume the sweep writes back. *)
Theorem repair_keeps_newest (cloned : list any)
  (fixed : list VolumeHistoryItem) (item : any) (t : number) :
  noNaN (Arr cloned) = true ->
  fixVolumeHistory (Arr cloned) = Normal fixed ->
  In item cloned ->
  filterCallback item = Normal true ->
  timeOf item = Normal t ->
  exists front newest,
    fixed = (front ++ [newest])%list /\
    gt0 (sub t (time newest)) = false /\
    newVolume fixed = volume newest.
Proof.
  intros Hn Hfix Hin Hacc Ht.
  rewrite fixVolumeHistory_characterized in Hfix.
  destruct (existsb Behaviour.throwsOn cloned) eqn:Hex; [discriminate|].
  injection Hfix as <-.
  rewrite (filterCallback_kept cloned item Hex Hin) in Hacc.
  assert (Hrem : Behaviour.removedByFilter item = false).
  { destruct (Behaviour.removedByFilter item); [discriminate | reflexivity]. }
  assert (Hthrow : Behaviour.throwsOn item = false).
  { rewrite existsb_false in Hex. now apply Hex. }
  destruct (kept_conversions item Hthrow Hrem) as [Ht' _].
  rewrite Ht' in Ht. injection Ht as <-.
  pose proof (sorted_kept_StronglySorted cloned Hn) as Hsorted.
  unfold Behaviour.repaired.
  set (sorted := sortBy Pure.later _) in *.
  assert (Hitem : In item sorted).
  { apply (Permutation_in _ (Permutation_sym (sortBy_Permutation _ _))).
    apply filter_In. split; [exact Hin | now rewrite Hrem]. }
  destruct (truncate sorted) as [|z rest] eqn:Htr using rev_ind.
  { apply truncate_nil in Htr. rewrite Htr in Hitem. destruct Hitem. }
  clear IHrest. exists (map Pure.rebuilt rest), (Pure.rebuilt z).
  rewrite map_app. split; [reflexivity|]. split.
  - change (Pure.later item z = false).
    unfold truncate, Array_slice in Htr.
    set (k := Z.to_nat _) in Htr.
    rewrite <- (firstn_skipn k sorted), Htr, app_assoc in Hsorted, Hitem.
    apply in_app_or in Hitem as [Hitem|[<-|[]]].
    + exact (StronglySorted_before_last _ _ _ Hsorted item Hitem).
    + apply gt0_sub_refl.
  - rewrite newVolume_currentVolume. unfold Spec.currentVolume.
    now rewrite rev_app_distr.
Qed.

Lemma repair_keeps_newest_witness :
  exists front newest,
    [{| time := Dec 1 0; volume := Dec 10 0 |};
     {| time := Dec 3 0; volume := Dec 5 (-1) |}] = (front ++ [newest])%list /\
    gt0 (sub (Dec 1 0) (time newest)) = false /\
    newVolume [{| time := Dec 1 0; volume := Dec 10 0 |};
               {| time := Dec 3 0; volume := Dec 5 (-1) |}] = volume newest.
Proof.
  apply (repair_keeps_newest
           [Samples.textual; Samples.twoDots; Samples.sample 1 10]
           _ (Samples.sample 1 10) (Dec 1 0));
    try reflexivity.
  simpl. tauto.
Defined.

Lemma StronglySorted_ordered {A : Type} (after : A -> A -> bool) (l : list A) :
  StronglySorted (fun x y => after x y = false) l -> ordered after l.
Proof.
  induction 1 as [|x l _ IH Hx]; [exact I|].
  split; [|exact IH].
  destruct l as [|y l]; [exact I|].
  now inversion Hx.
Qed.

(** A history of numbers in ascending order of time, of at most four or of
    exactly seven samples, is repaired to itself. *)
Lemma fixVolumeHistory_clean (fixed : list VolumeHistoryItem) :
  ordered (fun x y => gt0 (sub (time x) (time y))) fixed ->
  (List.length fixed <= 4 \/ List.length fixed = 7)%nat ->
  fixVolumeHistory (toJS fixed) = Normal fixed.
Proof.
  intros Hord Hlen. unfold toJS. rewrite fixVolumeHistory_characterized.
  assert (Hex : existsb Behaviour.throwsOn (map itemToJS fixed) = false).
  { clear. induction fixed as [|x l IH]; [reflexivity|]. cbn [map existsb].
    now rewrite IH. }
  rewrite Hex. f_equal. unfold Behaviour.repaired.
  rewrite filter_all by (intros x Hx; apply in_map_iff in Hx as [y [<- _]];
                         reflexivity).
  rewrite sortBy_fixpoint.
  2:{ apply (ordered_map _ (fun x y => gt0 (sub (time x) (time y))));
        [reflexivity | exact Hord]. }
  rewrite truncate_small by (now rewrite length_map).
  rewrite map_map. rewrite <- (map_id fixed) at 2.
  apply map_ext. intros x. apply rebuilt_itemToJS.
Qed.

(** X4.  A clean history is a fixed point: a history of numeric samples in
    ascending order of time, with at most four or exactly seven samples,
    is repaired to itself, and the sweep writes nothing for its row. *)
Theorem clean_history_left_alone (JSON_stringify : any -> string)
  (fixed : list VolumeHistoryItem) (db : database) (address : string)
  (volume : any) :
  StronglySorted Behaviour.notAfter fixed ->
  (List.length fixed <= 4 \/ List.length fixed = 7)%nat ->
  fixVolumeHistory (toJS fixed) = Normal fixed /\
  fixRow JSON_stringify db
    {| TokenData.onchainAddress := address;
       TokenData.volume := volume;
       TokenData.volumeHistory := toJS fixed |} = db.
Proof.
  intros Hsorted Hlen.
  assert (Hfix : fixVolumeHistory (toJS fixed) = Normal fixed).
  { apply fixVolumeHistory_clean; [|exact Hlen].
    now apply StronglySorted_ordered. }
  split; [exact Hfix|].
  apply fixRow_settled. now apply (settled_repaired _ _ _ (toJS fixed)).
Qed.

Lemma clean_history_left_alone_witness :
  fixVolumeHistory
    (toJS [{| time := Dec 1 0; volume := Dec (-5) 0 |};
           {| time := Dec 1 0; volume := PosInfinity |};
           {| time := Dec 25 (-1); volume := Dec 7 0 |}])
  = Normal [{| time := Dec 1 0; volume := Dec (-5) 0 |};
            {| time := Dec 1 0; volume := PosInfinity |};
            {| time := Dec 25 (-1); volume := Dec 7 0 |}] /\
  fixRow Pure.stringOf Samples.store
    {| TokenData.onchainAddress := "0xsale";
       TokenData.volume := Null;
       TokenData.volumeHistory :=
         toJS [{| time := Dec 1 0; volume := Dec (-5) 0 |};
               {| time := Dec 1 0; volume := PosInfinity |};
               {| time := Dec 25 (-1); volume := Dec 7 0 |}] |}
  = Samples.store.
Proof.
  apply clean_history_left_alone.
  - repeat constructor.
  - left. simpl. lia.
Defined.

Lemma filter_Permutation {A : Type} (f : A -> bool) (l l' : list A) :
  Permutation l l' -> Permutation (filter f l) (filter f l').
Proof.
  induction 1 as [|x l l' _ IH|x y l|l l' l'' _ IH1 _ IH2]; simpl.
  - constructor.
  - destruct (f x); [now constructor | exact IH].
  - destruct (f x), (f y); try reflexivity. apply perm_swap.
  - now transitivity (filter f l').
Qed.

Lemma existsb_Permutation {A : Type} (f : A -> bool) (l l' : list A) :
  Permutation l l' -> existsb f l = existsb f l'.
Proof.
  induction 1 as [|x l l' _ IH|x y l|l l' l'' _ IH1 _ IH2]; simpl.
  - reflexivity.
  - now rewrite IH.
  - now destruct (f x), (f y).
  - congruence.
Qed.

Lemma forallb_Permutation {A : Type} (f : A -> bool) (l l' : list A) :
  Permutation l l' -> forallb f l = forallb f l'.
Proof.
  induction 1 as [|x l l' _ IH|x y l|l l' l'' _ IH1 _ IH2]; simpl.
  - reflexivity.
  - now rewrite IH.
  - now destruct (f x), (f y).
  - congruence.
Qed.

(** Two sorted arrangements of the same elements are the same list, when
    elements that may go either way round are equal. *)
Lemma StronglySorted_unique {A : Type} (R : A -> A -> Prop) (l : list A) :
  forall l',
    StronglySorted R l -> StronglySorted R l' -> Permutation l l' ->
    (forall x y, In x l -> In y l -> R x y -> R y x -> x = y) ->
    l = l'.
Proof.
  induction l as [|x l IH]; intros l' Hs Hs' Hp Heq.
  - now apply Permutation_nil in Hp.
  - destruct l' as [|y l'].
    { apply Permutation_sym, Permutation_nil in Hp. discriminate. }
    apply StronglySorted_inv in Hs as [Hs Hx].
    apply StronglySorted_inv in Hs' as [Hs' Hy].
    rewrite Forall_forall in Hx, Hy.
    assert (Hxy : x = y).
    { assert (Hx' : In x (y :: l'))
        by (apply (Permutation_in _ Hp); now left).
      assert (Hy' : In y (x :: l))
        by (apply (Permutation_in _ (Permutation_sym Hp)); now left).
      destruct Hx' as [->|Hx']; [reflexivity|].
      destruct Hy' as [->|Hy']; [reflexivity|].
      apply Heq; [now left | now right | now apply Hx | now apply Hy]. }
    subst y. f_equal. apply Permutation_cons_inv in Hp.
    apply IH; auto.
    intros a b Ha Hb. apply Heq; now right.
Qed.

(** X5.  The repair does not depend on the order in which the samples are
    stored: for a history without [NaN] in which the time of every accepted
    sample is a whole number below [2 ^ 53] in absolute value, and in which
    accepted samples at the same time are the same sample, every
    rearrangement of the history is repaired to the same result.  The whole
    numbers below [2 ^ 53] are those on which the order of the decimals of
    this development and the order of the program's floating-point numbers
    are the same order: two times written with more digits than a
    floating-point number holds can be one number to the program. *)
Theorem repair_order_independent (cloned cloned' : list any) :
  Permutation cloned cloned' ->
  noNaN (Arr cloned) = true ->
  (forall x,
     In x cloned -> filterCallback x = Normal true ->
     exists m e,
       timeOf x = Normal (Dec m e) /\ 0 <= e /\ Z.abs (m * 10 ^ e) < 2 ^ 53) ->
  (forall x y,
     In x cloned -> In y cloned ->
     filterCallback x = Normal true -> filterCallback y = Normal true ->
     Pure.later x y = false -> Pure.later y x = false -> x = y) ->
  fixVolumeHistory (Arr cloned) = fixVolumeHistory (Arr cloned').
Proof.
  intros Hp Hn _ Hdistinct.
  rewrite !fixVolumeHistory_characterized.
  rewrite <- (existsb_Permutation _ _ _ Hp).
  destruct (existsb Behaviour.throwsOn cloned) eqn:Hex; [reflexivity|].
  f_equal. unfold Behaviour.repaired. do 2 f_equal.
  assert (Hn' : noNaN (Arr cloned') = true).
  { cbn [noNaN] in *. now rewrite <- (forallb_Permutation _ _ _ Hp). }
  apply (StronglySorted_unique (fun x y => Pure.later x y = false)).
  - now apply sorted_kept_StronglySorted.
  - now apply sorted_kept_StronglySorted.
  - rewrite !sortBy_Permutation. now apply filter_Permutation.
  - intros x y Hx Hy Hxy Hyx.
    apply (Permutation_in _ (sortBy_Permutation _ _)) in Hx, Hy.
    apply filter_In in Hx as [Hx Hkx], Hy as [Hy Hky].
    apply Hdistinct; auto.
    + now rewrite (filterCallback_kept cloned x Hex Hx), Hkx.
    + now rewrite (filterCallback_kept cloned y Hex Hy), Hky.
Qed.

Lemma repair_order_independent_witness :
  fixVolumeHistory (Arr [Samples.sample 300 1; Samples.textual])
  = fixVolumeHistory (Arr [Samples.textual; Samples.sample 300 1]).
Proof.
  apply repair_order_independent.
  - apply perm_swap.
  - reflexivity.
  - intros x [<-|[<-|[]]] _.
    + exists 300, 0.
      split; [reflexivity | split; [lia | vm_compute; reflexivity]].
    + exists 3, 0.
      split; [reflexivity | split; [lia | vm_compute; reflexivity]].
  - intros x y [<-|[<-|[]]] [<-|[<-|[]]] _ _ Hxy Hyx;
      try reflexivity; discriminate.
Defined.

(* ===================================================================== *)
(** ** More on the sweep                                                  *)
(* ===================================================================== *)

Lemma tokenKeys_updateTokenData db key volume history :
  Service.tokenKeys (updateTokenData db key volume history)
  = Service.tokenKeys db.
Proof.
  unfold Service.tokenKeys, updateTokenData. cbn [tokenData].
  rewrite map_map. apply map_ext. intros r.
  now destruct (String.eqb _ _).
Qed.

Section SweepFrame.
Variable JSON_stringify : any -> string.

Lemma swept_onchainAddress row :
  TokenData.onchainAddress (Service.swept JSON_stringify row)
  = TokenData.onchainAddress row.
Proof.
  unfold Service.swept.
  destruct (fixVolumeHistory _); [|reflexivity].
  now destruct (String.eqb _ _).
Qed.

(** The loop body changes nothing, or writes the repaired row, as JSON
    carries it, wherever the address of the row is stored. *)
Lemma fixRow_swept db row :
  (fixRow JSON_stringify db row = db /\
   Service.swept JSON_stringify row = row) \/
  (tokenData (fixRow JSON_stringify db row)
   = tokenData
       (updateTokenData db (TokenData.onchainAddress row)
          (TokenData.volume (Service.swept JSON_stringify row))
          (TokenData.volumeHistory (Service.swept JSON_stringify row))) /\
   news (fixRow JSON_stringify db row) = news db /\
   comments (fixRow JSON_stringify db row) = comments db /\
   (exists issued,
      writes (fixRow JSON_stringify db row) = (writes db ++ issued)%list) /\
   exists fixed,
     fixVolumeHistory (originalHistory row) = Normal fixed /\
     Service.swept JSON_stringify row
     = {| TokenData.onchainAddress := TokenData.onchainAddress row;
          TokenData.volume := transported (Num (newVolume fixed));
          TokenData.volumeHistory := transported (toJS fixed) |}).
Proof.
  unfold fixRow, Service.swept. fold (originalHistory row).
  destruct (fixVolumeHistory (originalHistory row)) as [fixed|];
    [|now left].
  destruct (String.eqb _ _); [now left|].
  right. cbn [TokenData.volume TokenData.volumeHistory].
  rewrite <- newVolume_currentVolume.
  repeat split; [now eexists | now exists fixed].
Qed.

Lemma fixRow_frame db row :
  news (fixRow JSON_stringify db row) = news db /\
  comments (fixRow JSON_stringify db row) = comments db /\
  Service.tokenKeys (fixRow JSON_stringify db row) = Service.tokenKeys db.
Proof.
  destruct (fixRow_swept db row) as [[-> _] | [Htd [Hn [Hc _]]]];
    [now repeat split|].
  repeat split; try assumption.
  unfold Service.tokenKeys at 1. rewrite Htd.
  apply tokenKeys_updateTokenData.
Qed.

Lemma fold_fixRow_frame rows : forall db,
  news (fold_left (fixRow JSON_stringify) rows db) = news db /\
  comments (fold_left (fixRow JSON_stringify) rows db) = comments db /\
  Service.tokenKeys (fold_left (fixRow JSON_stringify) rows db)
  = Service.tokenKeys db.
Proof.
  induction rows as [|row rows IH]; intros db; [now repeat split|].
  cbn [fold_left].
  destruct (IH (fixRow JSON_stringify db row)) as [-> [-> ->]].
  apply fixRow_frame.
Qed.

Lemma checkAndFixAllTokenData_fold db :
  checkAndFixAllTokenData JSON_stringify db
  = fold_left (fixRow JSON_stringify) (tokenData db) db.
Proof.
  unfold checkAndFixAllTokenData. now destruct (tokenData db).
Qed.

Lemma checkAndFixAllTokenData_frame db :
  news (checkAndFixAllTokenData JSON_stringify db) = news db /\
  comments (checkAndFixAllTokenData JSON_stringify db) = comments db /\
  Service.tokenKeys (checkAndFixAllTokenData JSON_stringify db)
  = Service.tokenKeys db.
Proof. rewrite checkAndFixAllTokenData_fold. apply fold_fixRow_frame. Qed.

(** The writes for the rows read, one row after the other. *)
Lemma flat_map_writesFor rows :
  (List.length (flat_map (Behaviour.writesFor JSON_stringify) rows)
   <= List.length rows)%nat /\
  Forall (fun w =>
            exists row fixed,
              In row rows /\
              fixVolumeHistory (originalHistory row) = Normal fixed /\
              w = UpdateTokenData (TokenData.onchainAddress row)
                    (Num (newVolume fixed)) (toJS fixed))
    (flat_map (Behaviour.writesFor JSON_stringify) rows).
Proof.
  induction rows as [|row rows [IHlen IH]]; [split; [simpl; lia | constructor]|].
  cbn [flat_map]. rewrite length_app.
  assert (Hrow : Behaviour.writesFor JSON_stringify row = [] \/
                 exists fixed,
                   fixVolumeHistory (originalHistory row) = Normal fixed /\
                   Behaviour.writesFor JSON_stringify row
                   = [UpdateTokenData (TokenData.onchainAddress row)
                        (Num (newVolume fixed)) (toJS fixed)]).
  { unfold Behaviour.writesFor, Behaviour.writeBack.
    destruct (fixVolumeHistory (originalHistory row)) as [fixed|];
      [|now left].
    destruct (String.eqb _ _); [now left|].
    right. exists fixed. now rewrite newVolume_currentVolume. }
  assert (IH' : Forall (fun w =>
            exists row' fixed,
              In row' (row :: rows) /\
              fixVolumeHistory (originalHistory row') = Normal fixed /\
              w = UpdateTokenData (TokenData.onchainAddress row')
                    (Num (newVolume fixed)) (toJS fixed))
    (flat_map (Behaviour.writesFor JSON_stringify) rows)).
  { eapply Forall_impl; [|exact IH].
    intros w [row' [fixed [Hin H]]]. exists row', fixed.
    split; [now right | exact H]. }
  destruct Hrow as [-> | [fixed [Hfix ->]]]; cbn [List.length app].
  - split; [lia | exact IH'].
  - split; [lia|]. constructor; [|exact IH'].
    exists row, fixed. split; [now left | now split].
Qed.

(** Sweeping rows of distinct addresses: each stored row becomes what the
    sweep makes of it, and the others stay. *)
Lemma fold_fixRow_swept todo : forall db visited,
  tokenData db = (map (Service.swept JSON_stringify) visited ++ todo)%list ->
  NoDup (map TokenData.onchainAddress (visited ++ todo)) ->
  tokenData (fold_left (fixRow JSON_stringify) todo db)
  = map (Service.swept JSON_stringify) (visited ++ todo).
Proof.
  induction todo as [|row todo IH]; intros db visited Hdb Hnd.
  - cbn [fold_left]. now rewrite Hdb, !app_nil_r.
  - cbn [fold_left].
    replace (visited ++ row :: todo)%list
      with ((visited ++ [row]) ++ todo)%list in *
      by (now rewrite <- app_assoc).
    apply IH; [|exact Hnd].
    rewrite map_app. cbn [map]. rewrite <- app_assoc. cbn [app].
    destruct (fixRow_swept db row) as [[-> ->] | [-> _]]; [exact Hdb|].
    unfold updateTokenData. cbn [tokenData]. rewrite Hdb.
    rewrite map_app. cbn [map]. rewrite String.eqb_refl.
    rewrite !map_app in Hnd. cbn [map] in Hnd.
    rewrite <- app_assoc in Hnd. cbn [app] in Hnd.
    apply NoDup_remove_2 in Hnd.
    f_equal; [|f_equal].
    + rewrite <- (map_id (map _ visited)) at 2. apply map_ext_in.
      intros r Hr. destruct (String.eqb _ _) eqn:Heq; [|reflexivity].
      exfalso. apply Hnd, in_or_app. left.
      apply String.eqb_eq in Heq. rewrite <- Heq.
      apply in_map_iff in Hr as [r0 [<- Hr0]].
      rewrite swept_onchainAddress. now apply in_map.
    + rewrite <- (swept_onchainAddress row).
      now destruct (Service.swept JSON_stringify row).
    + rewrite <- (map_id todo) at 2. apply map_ext_in.
      intros r Hr. destruct (String.eqb _ _) eqn:Heq; [|reflexivity].
      exfalso. apply Hnd, in_or_app. right.
      apply String.eqb_eq in Heq. rewrite <- Heq. now apply in_map.
Qed.
End SweepFrame.

(** X6.  What the sweep never does: it leaves [News] and [Comments] as they
    are, adds no row to [TokenData], removes none and changes no address;
    it issues at most one request per row read, each one the update of a
    row read to its repaired history and to the volume of the last sample
    of that history. *)
Theorem sweep_only_updates_histories (JSON_stringify : any -> string)
  (db : database) :
  let db' := checkAndFixAllTokenData JSON_stringify db in
  news db' = news db /\
  comments db' = comments db /\
  map TokenData.onchainAddress (tokenData db')
  = map TokenData.onchainAddress (tokenData db) /\
  exists issued,
    writes db' = (writes db ++ issued)%list /\
    (List.length issued <= List.length (tokenData db))%nat /\
    Forall (fun w =>
              exists row fixed,
                In row (tokenData db) /\
                fixVolumeHistory (originalHistory row) = Normal fixed /\
                w = UpdateTokenData (TokenData.onchainAddress row)
                      (Num (newVolume fixed)) (toJS fixed)) issued.
Proof.
  cbv zeta.
  destruct (checkAndFixAllTokenData_frame JSON_stringify db) as [Hn [Hc Hk]].
  repeat split; try assumption.
  exists (flat_map (Behaviour.writesFor JSON_stringify) (tokenData db)).
  split; [apply checkAndFixAllTokenData_writes|].
  apply flat_map_writesFor.
Qed.

(** X7.  When no two rows of [TokenData] have the same address, the sweep
    repairs every row by itself: the table after the sweep holds, row by
    row, the repaired row as JSON carries it (a number that is not finite
    as [null]) where the serializations of the stored and of the repaired
    history differ, and the stored row where they are the same or the
    repair throws.  It is stated for tables in which the time and the
    volume of every sample the filter accepts are decimals of at most 15
    digits within the range of the normal floating-point numbers, or not
    finite: of these the program reads, orders and writes the numbers this
    development computes with. *)
Theorem sweep_repairs_each_row (JSON_stringify : any -> string)
  (db : database) :
  NoDup (map TokenData.onchainAddress (tokenData db)) ->
  (forall row cloned item,
     In row (tokenData db) -> originalHistory row = Arr cloned ->
     In item cloned -> filterCallback item = Normal true ->
     Behaviour.portable item = true) ->
  tokenData (checkAndFixAllTokenData JSON_stringify db)
  = map (Service.swept JSON_stringify) (tokenData db).
Proof.
  intros Hnd _. rewrite checkAndFixAllTokenData_fold.
  now apply (fold_fixRow_swept JSON_stringify (tokenData db) db []).
Qed.

Lemma sweep_repairs_each_row_witness :
  tokenData (checkAndFixAllTokenData stringify Scenario.store)
  = map (Service.swept stringify) (tokenData Scenario.store).
Proof.
  apply sweep_repairs_each_row.
  - repeat constructor; simpl; intuition discriminate.
  - intros row cloned item [<-|[<-|[]]] Heq; injection Heq as <-.
    + intros [<-|[<-|[<-|[]]]] Hkept;
        [reflexivity | discriminate Hkept | reflexivity].
    + intros [].
Defined.

(* ===================================================================== *)
(** ** The store between two handlers                                     *)
(* ===================================================================== *)

Import Events Service.

Lemma lowerChar_idempotent c : lowerChar (lowerChar c) = lowerChar c.
Proof. destruct c as [[] [] [] [] [] [] [] []]; reflexivity. Qed.

Lemma toLowerCase_idempotent s : toLowerCase (toLowerCase s) = toLowerCase s.
Proof.
  induction s as [|c s IH]; [reflexivity|].
  cbn [toLowerCase]. now rewrite lowerChar_idempotent, IH.
Qed.

Lemma selectNews_nil db key :
  selectNews db key = [] <-> ~ In key (newsKeys db).
Proof.
  unfold selectNews, newsKeys. rewrite filter_nil. split.
  - intros H Hin. apply in_map_iff in Hin as [r [<- Hr]].
    specialize (H r Hr). now rewrite String.eqb_refl in H.
  - intros H r Hr. apply String.eqb_neq. intros <-.
    apply H. now apply in_map.
Qed.

Lemma selectTokenData_nil db key :
  selectTokenData db key = [] <-> ~ In key (tokenKeys db).
Proof.
  unfold selectTokenData, tokenKeys. rewrite filter_nil. split.
  - intros H Hin. apply in_map_iff in Hin as [r [<- Hr]].
    specialize (H r Hr). now rewrite String.eqb_refl in H.
  - intros H r Hr. apply String.eqb_neq. intros <-.
    apply H. now apply in_map.
Qed.

Lemma maybeSingle_None {A : Type} (rows : list A) :
  maybeSingle rows = Data None -> rows = [].
Proof. destruct rows as [|r [|r' rows]]; now intros. Qed.

(** *** The relations are preorders *)

Lemma appended_refl keys : appended keys keys.
Proof.
  exists []. rewrite app_nil_r. repeat split; try constructor.
  intros key [].
Qed.

Lemma appended_trans keys keys' keys'' :
  appended keys keys' -> appended keys' keys'' -> appended keys keys''.
Proof.
  intros [added [-> [Hl [Hnd Hfresh]]]] [added' [-> [Hl' [Hnd' Hfresh']]]].
  exists (added ++ added')%list. rewrite app_assoc.
  repeat split.
  - now apply Forall_app.
  - apply NoDup_app; auto.
    intros key Hk Hk'. apply (Hfresh' key Hk'), in_or_app. now right.
  - intros key Hk Hin. apply in_app_or in Hk as [Hk|Hk].
    + now apply (Hfresh key).
    + apply (Hfresh' key Hk), in_or_app. now left.
Qed.

Lemma appended_one keys key :
  isLowerCase key -> ~ In key keys -> appended keys (keys ++ [key]).
Proof.
  intros Hl Hfresh. exists [key]. repeat split.
  - now constructor.
  - constructor; [intros [] | constructor].
  - intros k [<-|[]]. exact Hfresh.
Qed.

Lemma appended_NoDup keys keys' :
  appended keys keys' -> NoDup keys -> NoDup keys'.
Proof.
  intros [added [-> [_ [Hnd Hfresh]]]] Hk.
  apply NoDup_app; auto.
  intros key Hin Hadd. now apply (Hfresh key).
Qed.

Lemma appended_lower keys keys' :
  appended keys keys' -> Forall isLowerCase keys -> Forall isLowerCase keys'.
Proof.
  intros [added [-> [Hl _]]] Hk. now apply Forall_app.
Qed.

Section Extends.
Context {A : Type}.
Variable R : A -> A -> Prop.
Hypothesis R_refl : forall x, R x x.
Hypothesis R_trans : forall x y z, R x y -> R y z -> R x z.

Lemma Forall2_refl (l : list A) : Forall2 R l l.
Proof. induction l; constructor; auto. Qed.

Lemma Forall2_trans (l1 : list A) : forall l2 l3,
  Forall2 R l1 l2 -> Forall2 R l2 l3 -> Forall2 R l1 l3.
Proof.
  induction l1 as [|x l1 IH]; intros l2 l3 H12 H23.
  - inversion H12; subst. inversion H23; subst. constructor.
  - inversion H12 as [|? y ? l2' Hxy H12']; subst.
    inversion H23 as [|? z ? l3' Hyz H23']; subst.
    constructor; [now apply (R_trans x y z) | now apply (IH l2')].
Qed.

Lemma extends_refl (l : list A) : extends R l l.
Proof. exists l, []. rewrite app_nil_r. split; [reflexivity | apply Forall2_refl]. Qed.

Lemma extends_trans (l1 l2 l3 : list A) :
  extends R l1 l2 -> extends R l2 l3 -> extends R l1 l3.
Proof.
  intros [kept [added [-> H12]]] [kept' [added' [-> H23]]].
  apply Forall2_app_inv_l in H23 as [k1 [k2 [Hk1 [Hk2 ->]]]].
  exists k1, (k2 ++ added')%list. rewrite app_assoc.
  split; [reflexivity | now apply (Forall2_trans l1 kept k1)].
Qed.

Lemma extends_snoc (l : list A) (x : A) : extends R l (l ++ [x]).
Proof. exists l, [x]. split; [reflexivity | apply Forall2_refl]. Qed.

Lemma extends_map (f : A -> A) (l : list A) :
  (forall x, R x (f x)) -> extends R l (map f l).
Proof.
  intros Hf. exists (map f l), []. rewrite app_nil_r.
  split; [reflexivity|].
  induction l; constructor; auto.
Qed.
End Extends.

Lemma sameSale_refl r : sameSale r r.
Proof. now repeat split. Qed.

Lemma sameSale_trans r1 r2 r3 :
  sameSale r1 r2 -> sameSale r2 r3 -> sameSale r1 r3.
Proof.
  intros [Ha [Hd [Ht Hl]]] [Ha' [Hd' [Ht' Hl']]].
  repeat split; try congruence. auto.
Qed.

Lemma sameToken_refl r : sameToken r r.
Proof. reflexivity. Qed.

Lemma sameToken_trans r1 r2 r3 :
  sameToken r1 r2 -> sameToken r2 r3 -> sameToken r1 r3.
Proof. unfold sameToken. congruence. Qed.

Lemma follows_refl db : follows db db.
Proof.
  repeat split; try apply appended_refl.
  - apply extends_refl, sameSale_refl.
  - apply extends_refl, sameToken_refl.
  - exists []. now rewrite app_nil_r.
  - auto.
Qed.

Lemma follows_trans db1 db2 db3 :
  follows db1 db2 -> follows db2 db3 -> follows db1 db3.
Proof.
  intros [Hn [Ht [Hen [Het [Hc [[w Hw] Hcons]]]]]]
         [Hn' [Ht' [Hen' [Het' [Hc' [[w' Hw'] Hcons']]]]]].
  repeat split.
  - now apply (appended_trans _ (newsKeys db2)).
  - now apply (appended_trans _ (tokenKeys db2)).
  - apply (extends_trans _ sameSale_trans _ (news db2)); assumption.
  - apply (extends_trans _ sameToken_trans _ (tokenData db2)); assumption.
  - congruence.
  - exists (w ++ w')%list. now rewrite Hw', Hw, app_assoc.
  - auto.
Qed.

(** *** The requests *)

Lemma consistent_row key key' volume history :
  consistent {| TokenData.onchainAddress := key;
                TokenData.volume := volume;
                TokenData.volumeHistory := history |} ->
  consistent {| TokenData.onchainAddress := key';
                TokenData.volume := volume;
                TokenData.volumeHistory := history |}.
Proof. intros H. exact H. Qed.

Lemma follows_insertNews db r :
  isLowerCase (News.onchainAddress r) ->
  selectNews db (News.onchainAddress r) = [] ->
  follows db (insertNews db r).
Proof.
  intros Hl Hsel. apply selectNews_nil in Hsel.
  unfold follows, insertNews, newsKeys, tokenKeys.
  cbn [news tokenData comments writes]. rewrite map_app. cbn [map].
  repeat split.
  - now apply appended_one.
  - apply appended_refl.
  - apply extends_snoc, sameSale_refl.
  - apply extends_refl, sameToken_refl.
  - now exists [InsertNews r].
  - auto.
Qed.

Lemma follows_insertTokenData db r :
  isLowerCase (TokenData.onchainAddress r) ->
  selectTokenData db (TokenData.onchainAddress r) = [] ->
  consistent r ->
  follows db (insertTokenData db r).
Proof.
  intros Hl Hsel Hr. apply selectTokenData_nil in Hsel.
  unfold follows, insertTokenData, newsKeys, tokenKeys.
  cbn [news tokenData comments writes]. rewrite map_app. cbn [map].
  repeat split.
  - apply appended_refl.
  - now apply appended_one.
  - apply extends_refl, sameSale_refl.
  - apply extends_snoc, sameToken_refl.
  - now exists [InsertTokenData r].
  - intros H. apply Forall_app. split; [exact H | now constructor].
Qed.

Lemma follows_updateTokenData db key volume history :
  consistent {| TokenData.onchainAddress := key;
                TokenData.volume := volume;
                TokenData.volumeHistory := history |} ->
  follows db (updateTokenData db key volume history).
Proof.
  intros Hrow. unfold follows. rewrite tokenKeys_updateTokenData.
  unfold updateTokenData, newsKeys. cbn [news tokenData comments writes].
  repeat split.
  - apply appended_refl.
  - apply appended_refl.
  - apply extends_refl, sameSale_refl.
  - apply extends_map.
    intros r. unfold sameToken. now destruct (String.eqb _ _).
  - now eexists.
  - intros H. apply Forall_map. eapply Forall_impl; [|exact H].
    intros r Hr. destruct (String.eqb _ _); [|exact Hr].
    exact (consistent_row _ _ _ _ Hrow).
Qed.

Lemma follows_updateBestComments db key payload :
  follows db (updateBestComments db key payload).
Proof.
  unfold follows, updateBestComments, newsKeys, tokenKeys.
  cbn [news tokenData comments writes].
  assert (Hsame : forall r : News.row,
             sameSale r
               (if String.eqb (News.onchainAddress r) key
                then {| News.onchainAddress := News.onchainAddress r;
                        News.date := News.date r;
                        News.title := News.title r;
                        News.description := News.description r;
                        News.imageUrl := News.imageUrl r;
                        News.isLaunched := News.isLaunched r;
                        News.best_comments := payload |}
                else r)).
  { intros r. destruct (String.eqb _ _); now repeat split. }
  repeat split.
  - rewrite map_map.
    erewrite map_ext; [apply appended_refl|].
    intros r. now destruct (Hsame r) as [-> _].
  - apply appended_refl.
  - apply extends_map. exact Hsame.
  - apply extends_refl, sameToken_refl.
  - now eexists.
  - auto.
Qed.

Lemma follows_updateNews db key patch :
  (forall r, sameSale r (patch r)) ->
  follows db (updateNews db key patch).
Proof.
  intros Hpatch.
  unfold follows, updateNews, newsKeys, tokenKeys.
  cbn [news tokenData comments writes].
  assert (Hsame : forall r : News.row,
             sameSale r
               (if String.eqb (News.onchainAddress r) key
                then patch r else r)).
  { intros r. destruct (String.eqb _ _);
      [apply Hpatch | apply sameSale_refl]. }
  repeat split.
  - rewrite map_map.
    erewrite map_ext; [apply appended_refl|].
    intros r. now destruct (Hsame r) as [-> _].
  - apply appended_refl.
  - apply extends_map. exact Hsame.
  - apply extends_refl, sameToken_refl.
  - exists []. now rewrite app_nil_r.
  - auto.
Qed.

(** *** The handlers *)

Lemma follows_insertNewsOnSaleCreated db a ts name descr logo :
  follows db (insertNewsOnSaleCreated db a ts name descr logo).
Proof.
  unfold insertNewsOnSaleCreated.
  destruct (maybeSingle _) as [[r|]|] eqn:Hsel; try apply follows_refl.
  apply maybeSingle_None in Hsel.
  apply follows_insertNews; [apply toLowerCase_idempotent | exact Hsel].
Qed.

Lemma follows_insertTokenDataOnSaleCreated db a :
  follows db (insertTokenDataOnSaleCreated db a).
Proof.
  unfold insertTokenDataOnSaleCreated.
  destruct (maybeSingle _) as [[r|]|] eqn:Hsel; try apply follows_refl.
  apply maybeSingle_None in Hsel.
  apply follows_insertTokenData;
    [apply toLowerCase_idempotent | exact Hsel | now exists []].
Qed.

Lemma follows_updateTokenDataVolume db a totalRaised now :
  follows db (updateTokenDataVolume db a totalRaised now).
Proof.
  unfold updateTokenDataVolume.
  destruct (maybeSingle _) as [[existing|]|] eqn:Hsel;
    try apply follows_refl.
  - destruct (nullish_coalesce _ _) as [| | | | |oldHistory|];
      try apply follows_refl.
    apply follows_updateTokenData.
    eexists. split; [reflexivity|].
    unfold Array_push. now rewrite rev_app_distr.
  - apply maybeSingle_None in Hsel.
    apply follows_insertTokenData;
      [apply toLowerCase_idempotent | exact Hsel|].
    eexists. split; reflexivity.
Qed.

Lemma follows_listenToEvents db now ev :
  follows db (listenToEvents db now ev).
Proof.
  destruct ev; cbn [listenToEvents].
  - eapply follows_trans;
      [apply follows_insertNewsOnSaleCreated
      |apply follows_insertTokenDataOnSaleCreated].
  - apply follows_updateNews. intros r. now repeat split.
  - apply follows_updateTokenDataVolume.
  - apply follows_updateTokenDataVolume.
  - apply follows_updateNews. intros r. now repeat split.
  - apply follows_refl.
Qed.

Lemma follows_listenToSupabaseComments provider db newComment :
  follows db (listenToSupabaseComments provider db newComment).
Proof.
  unfold listenToSupabaseComments.
  destruct (maybeSingle _) as [[r|]|]; try apply follows_refl.
  destruct (selectComments _ _); [apply follows_refl|].
  destruct (getBestComment _ _); [|apply follows_refl].
  apply follows_updateBestComments.
Qed.

(** What the store receives of a repaired history is consistent: where
    the last volume is not finite, the row and the sample both hold
    [null]. *)
Lemma consistent_repaired key fixed :
  consistent {| TokenData.onchainAddress := key;
                TokenData.volume := transported (Num (newVolume fixed));
                TokenData.volumeHistory := transported (toJS fixed) |}.
Proof.
  rewrite transported_toJS.
  exists (map (fun it => transported (itemToJS it)) fixed).
  split; [reflexivity|].
  cbn [TokenData.volume]. rewrite newVolume_currentVolume.
  unfold Spec.currentVolume. rewrite <- map_rev.
  now destruct (rev fixed).
Qed.

(** [follows] looks at the tables and at the requests only. *)
Lemma follows_tables db db1 db2 :
  news db2 = news db1 ->
  tokenData db2 = tokenData db1 ->
  comments db2 = comments db1 ->
  (exists issued, writes db2 = (writes db ++ issued)%list) ->
  follows db db1 -> follows db db2.
Proof.
  unfold follows, newsKeys, tokenKeys.
  intros -> -> -> Hw [Hn [Ht [Hen [Het [Hc [_ Hcons]]]]]].
  repeat split; assumption.
Qed.

Lemma follows_fixRow JSON_stringify db row :
  follows db (fixRow JSON_stringify db row).
Proof.
  destruct (fixRow_swept JSON_stringify db row)
    as [[-> _] | [Htd [Hn [Hc [Hw [fixed [_ Hs]]]]]]]; [apply follows_refl|].
  rewrite Hs in Htd. cbn [TokenData.volume TokenData.volumeHistory] in Htd.
  apply (follows_tables db
           (updateTokenData db (TokenData.onchainAddress row)
              (transported (Num (newVolume fixed)))
              (transported (toJS fixed)))
           _ Hn Htd Hc Hw).
  apply follows_updateTokenData, consistent_repaired.
Qed.

Lemma follows_checkAndFixAllTokenData JSON_stringify db :
  follows db (checkAndFixAllTokenData JSON_stringify db).
Proof.
  rewrite checkAndFixAllTokenData_fold.
  generalize (tokenData db) at 1. intros rows. revert db.
  induction rows as [|row rows IH]; intros db; [apply follows_refl|].
  cbn [fold_left]. eapply follows_trans; [apply follows_fixRow | apply IH].
Qed.

Lemma follows_step JSON_stringify db d :
  follows db (step JSON_stringify db d).
Proof.
  destruct d; cbn [step].
  - apply follows_listenToEvents.
  - apply follows_listenToSupabaseComments.
  - apply follows_checkAndFixAllTokenData.
Qed.

Lemma follows_run JSON_stringify ds : forall db,
  follows db (run JSON_stringify db ds).
Proof.
  induction ds as [|d ds IH]; intros db; [apply follows_refl|].
  unfold run. cbn [fold_left].
  eapply follows_trans; [apply follows_step | apply IH].
Qed.

Lemma follows_syncPastEvents db log : follows db (syncPastEvents db log).
Proof.
  assert (Hloop : forall name db, follows db (syncEvents name log db)).
  { intros name. unfold syncEvents.
    induction (queryFilter name log) as [|entry entries IH]; intros db0;
      [apply follows_refl|].
    cbn [fold_left].
    eapply follows_trans; [apply follows_listenToEvents | apply IH]. }
  unfold syncPastEvents. cbv zeta.
  do 5 (eapply follows_trans; [|apply Hloop]). apply Hloop.
Qed.

Lemma select_unique {A : Type} (key : A -> string) (k : string) (rows : list A) :
  NoDup (map key rows) ->
  (List.length (filter (fun r => String.eqb (key r) k) rows) <= 1)%nat.
Proof.
  induction rows as [|r rows IH]; intros Hnd; [simpl; lia|].
  cbn [map] in Hnd. apply NoDup_cons_iff in Hnd as [Hfresh Hnd].
  cbn [filter]. destruct (String.eqb (key r) k) eqn:Heq; [|now apply IH].
  apply String.eqb_eq in Heq. subst k.
  assert (Hnone : filter (fun r0 => String.eqb (key r0) (key r)) rows = []).
  { apply filter_nil. intros x Hx. apply String.eqb_neq. intros Hk.
    apply Hfresh. rewrite <- Hk. now apply in_map. }
  rewrite Hnone. simpl. lia.
Qed.

Lemma maybeSingle_unique {A : Type} (rows : list A) :
  (List.length rows <= 1)%nat -> maybeSingle rows <> Error.
Proof.
  destruct rows as [|r [|r' rows]]; simpl; intros H; try discriminate. lia.
Qed.

(** X8.  The handlers keep the addresses unique and in lower case: from a
    store in which no two rows of a table have the same address and every
    address is in lower case, whatever events, comments and sweeps arrive,
    the store stays so, and no lookup of a row by its address ends in the
    error of [maybeSingle]. *)
Theorem run_keeps_keys_unique (JSON_stringify : any -> string)
  (db : database) (ds : list delivery) :
  uniqueKeys db -> lowerCaseKeys db ->
  let db' := run JSON_stringify db ds in
  uniqueKeys db' /\ lowerCaseKeys db' /\
  forall key,
    maybeSingle (selectNews db' key) <> Error /\
    maybeSingle (selectTokenData db' key) <> Error.
Proof.
  intros [Hun Hut] [Hln Hlt] db'.
  destruct (follows_run JSON_stringify ds db) as [Hn [Ht _]]. fold db' in Hn, Ht.
  assert (Hun' : NoDup (newsKeys db')) by now apply (appended_NoDup _ _ Hn).
  assert (Hut' : NoDup (tokenKeys db')) by now apply (appended_NoDup _ _ Ht).
  split; [now split|]. split.
  - split; [now apply (appended_lower _ _ Hn) | now apply (appended_lower _ _ Ht)].
  - intros key. split; apply maybeSingle_unique.
    + now apply (select_unique News.onchainAddress).
    + now apply (select_unique TokenData.onchainAddress).
Qed.

Lemma run_keeps_keys_unique_witness :
  let db' := run Pure.stringOf Scenario.store Scenario.deliveries in
  uniqueKeys db' /\ lowerCaseKeys db' /\
  forall key,
    maybeSingle (selectNews db' key) <> Error /\
    maybeSingle (selectTokenData db' key) <> Error.
Proof.
  apply run_keeps_keys_unique.
  - split; repeat constructor; simpl; intuition discriminate.
  - split; repeat constructor.
Defined.

(** X9.  The volume of a row stays the volume of the last sample of its
    history: when every row of [TokenData] has an array as history and as
    volume the volume of the last sample of it (0 for an empty history),
    this is still so after any events, comments and sweeps, and after a
    synchronization of past events. *)
Theorem run_keeps_volume_consistent (JSON_stringify : any -> string)
  (db : database) (ds : list delivery) (log : list pastEvent) :
  Forall consistent (tokenData db) ->
  Forall consistent (tokenData (run JSON_stringify db ds)) /\
  Forall consistent (tokenData (syncPastEvents db log)).
Proof.
  intros H. split.
  - now apply (follows_run JSON_stringify ds db).
  - now apply (follows_syncPastEvents db log).
Qed.

Lemma run_keeps_volume_consistent_witness :
  Forall consistent
    (tokenData (run Pure.stringOf Scenario.store Scenario.deliveries)) /\
  Forall consistent
    (tokenData
       (syncPastEvents Scenario.store
          [(Some (TokensBought "0xNew" "0xalice" 1500000000000000000%N 100%N),
            Dec 1700000000001 0);
           (None, Dec 1700000000002 0);
           (Some (SaleCreated "0xNEW" "0xcreator" "New" "NEW"
                    5000000000000000000%N "new.png" "A new sale"),
            Dec 1700000000003 0)])).
Proof.
  apply run_keeps_volume_consistent.
  repeat constructor; eexists; split; reflexivity.
Defined.

Lemma Forall2_In_l {A B : Type} (R : A -> B -> Prop) (l : list A)
  (l' : list B) (x : A) :
  Forall2 R l l' -> In x l -> exists y, In y l' /\ R x y.
Proof.
  induction 1 as [|a b l l' Hab _ IH]; intros Hx; [destruct Hx|].
  destruct Hx as [<-|Hx].
  - exists b. split; [now left | exact Hab].
  - destruct (IH Hx) as [y [Hy Hxy]]. exists y. split; [now right | exact Hxy].
Qed.

Lemma launched_extends db db' key :
  extends sameSale (news db) (news db') ->
  launched db key = true -> launched db' key = true.
Proof.
  intros [kept [added [Hnews Hkept]]].
  unfold launched, selectNews. rewrite Hnews, !existsb_exists.
  intros [r [Hr Hl]]. apply filter_In in Hr as [Hr Hk].
  destruct (Forall2_In_l _ _ _ r Hkept Hr) as [r' [Hr' [Ha [_ [_ Hl']]]]].
  exists r'. split; [|now apply Hl'].
  apply filter_In. split; [apply in_or_app; now left|].
  now rewrite Ha.
Qed.

(** X10.  What no handler ever does: whatever events, comments and sweeps
    arrive, the rows of [News] and of [TokenData] stay where they are, with
    their address (and, in [News], their date and title), new rows come
    after them, a sale that is launched stays launched, [Comments] is left
    as it is, and the requests issued before are still the first ones of
    the log. *)
Theorem run_never_deletes (JSON_stringify : any -> string)
  (db : database) (ds : list delivery) :
  let db' := run JSON_stringify db ds in
  extends sameSale (news db) (news db') /\
  extends sameToken (tokenData db) (tokenData db') /\
  comments db' = comments db /\
  (exists issued, writes db' = (writes db ++ issued)%list) /\
  (forall key, launched db key = true -> launched db' key = true).
Proof.
  intros db'.
  destruct (follows_run JSON_stringify ds db)
    as [_ [_ [Hn [Ht [Hc [Hw _]]]]]].
  repeat split; try assumption.
  intros key. now apply launched_extends.
Qed.

(* ===================================================================== *)
(** ** More on the best comment                                           *)
(* ===================================================================== *)

Lemma time_gt_irrefl a : time_gt a a = false.
Proof. destruct a as [x|]; simpl; [apply Z.ltb_irrefl | reflexivity]. Qed.

Lemma time_gt_chain a b c :
  time_gt a b = false -> time_gt c b = true -> time_gt a c = false.
Proof.
  destruct a as [x|], b as [y|], c as [z|]; simpl; try congruence.
  intros H1 H2. zbool. apply Z.ltb_ge. lia.
Qed.

(** One turn of the loop keeps what it holds. *)
Lemma considerComment_ranked saleContract seen best comment :
  ranked saleContract seen best ->
  ranked saleContract (seen ++ [comment])
    (considerComment saleContract best comment).
Proof.
  destruct best as [[b|] bal]; unfold ranked, considerComment, balanceOf;
    cbn [fst snd].
  - intros [Hb [Hbal [Hpos Hall]]].
    destruct (saleContract (Comments.walletAddress comment)) as [x|] eqn:Hx.
    + destruct (bal <? x)%N eqn:Hlt; cbn [fst snd].
      * apply N.ltb_lt in Hlt.
        split; [apply in_or_app; right; now left|].
        split; [exact Hx|]. split; [lia|].
        intros c y Hc Hy. apply in_app_or in Hc as [Hc|[<-|[]]].
        -- destruct (Hall c y Hc Hy) as [Hle _]. split; [lia|].
           intros ->. lia.
        -- rewrite Hx in Hy. injection Hy as <-. split; [lia|].
           intros _. apply time_gt_irrefl.
      * apply N.ltb_ge in Hlt.
        destruct (x =? bal)%N eqn:Heq.
        -- apply N.eqb_eq in Heq. subst x.
           destruct (time_gt (Comments.createdAt comment)
                       (Comments.createdAt b)) eqn:Hgt; cbn [fst snd].
           ++ split; [apply in_or_app; right; now left|].
              split; [exact Hx|]. split; [exact Hpos|].
              intros c y Hc Hy. apply in_app_or in Hc as [Hc|[<-|[]]].
              ** destruct (Hall c y Hc Hy) as [Hle Htie].
                 split; [exact Hle|]. intros Hy'.
                 apply (time_gt_chain _ (Comments.createdAt b)); auto.
              ** rewrite Hx in Hy. injection Hy as <-. split; [lia|].
                 intros _. apply time_gt_irrefl.
           ++ split; [apply in_or_app; now left|].
              split; [exact Hbal|]. split; [exact Hpos|].
              intros c y Hc Hy. apply in_app_or in Hc as [Hc|[<-|[]]].
              ** now apply Hall.
              ** rewrite Hx in Hy. injection Hy as <-. split; [lia|].
                 intros _. exact Hgt.
        -- apply N.eqb_neq in Heq. cbn [fst snd].
           split; [apply in_or_app; now left|].
           split; [exact Hbal|]. split; [exact Hpos|].
           intros c y Hc Hy. apply in_app_or in Hc as [Hc|[<-|[]]].
           ** now apply Hall.
           ** rewrite Hx in Hy. injection Hy as <-. split; [lia|].
              intros ->. now contradiction Heq.
    + cbn [fst snd].
      split; [apply in_or_app; now left|].
      split; [exact Hbal|]. split; [exact Hpos|].
      intros c y Hc Hy. apply in_app_or in Hc as [Hc|[<-|[]]].
      * now apply Hall.
      * rewrite Hx in Hy. discriminate.
  - intros [-> Hall].
    destruct (saleContract (Comments.walletAddress comment)) as [x|] eqn:Hx.
    + destruct (0 <? x)%N eqn:Hlt; cbn [fst snd].
      * apply N.ltb_lt in Hlt.
        split; [apply in_or_app; right; now left|].
        split; [exact Hx|]. split; [exact Hlt|].
        intros c y Hc Hy. apply in_app_or in Hc as [Hc|[<-|[]]].
        -- destruct (Hall c Hc) as [Hn|Hz]; rewrite Hy in *;
             [discriminate|]. injection Hz as ->. split; [lia|].
           intros <-. lia.
        -- rewrite Hx in Hy. injection Hy as <-. split; [lia|].
           intros _. apply time_gt_irrefl.
      * apply N.ltb_ge in Hlt. assert (x = 0%N) by lia. subst x.
        cbn [N.eqb fst snd]. split; [reflexivity|].
        intros c Hc. apply in_app_or in Hc as [Hc|[<-|[]]];
          [now apply Hall | now right].
    + cbn [fst snd]. split; [reflexivity|].
      intros c Hc. apply in_app_or in Hc as [Hc|[<-|[]]];
        [now apply Hall | now left].
Qed.

Lemma fold_considerComment_ranked saleContract todo : forall seen best,
  ranked saleContract seen best ->
  ranked saleContract (seen ++ todo)
    (fold_left (considerComment saleContract) todo best).
Proof.
  induction todo as [|c todo IH]; intros seen best H.
  - now rewrite app_nil_r.
  - cbn [fold_left].
    replace (seen ++ c :: todo)%list with ((seen ++ [c]) ++ todo)%list
      by (now rewrite <- app_assoc).
    apply IH. now apply considerComment_ranked.
Qed.

(** What [getBestComment] returns. *)
Lemma getBestComment_ranked allComments saleContract :
  match getBestComment allComments saleContract with
  | None =>
      forall c, In c allComments ->
        balanceOf saleContract c = None \/
        balanceOf saleContract c = Some 0%N
  | Some best =>
      In best allComments /\
      exists balance,
        balanceOf saleContract best = Some balance /\
        (0 < balance)%N /\
        forall c x, In c allComments -> balanceOf saleContract c = Some x ->
          (x <= balance)%N /\
          (x = balance ->
           time_gt (Comments.createdAt c) (Comments.createdAt best) = false)
  end.
Proof.
  unfold getBestComment.
  assert (H0 : ranked saleContract [] (None, 0%N))
    by (split; [reflexivity | intros c []]).
  pose proof (fold_considerComment_ranked saleContract allComments []
                (None, 0%N) H0) as H.
  cbn [app] in H. unfold ranked in H.
  destruct (fold_left (considerComment saleContract) allComments (None, 0%N))
    as [[b|] bal]; cbn [fst snd] in *.
  - destruct H as [Hb [Hbal [Hpos Hall]]].
    split; [exact Hb|]. now exists bal.
  - apply H.
Qed.

(** X11.  What [getBestComment] returns: it is [null] exactly when every
    balance is 0 or cannot be read; otherwise it is a comment of the list
    whose wallet holds a positive balance, no wallet of the list holds
    more, and no comment of the same balance was written later. *)
Theorem getBestComment_largest_balance (allComments : list Comments.row)
  (saleContract : contract) :
  match getBestComment allComments saleContract with
  | None =>
      forall c, In c allComments ->
        balanceOf saleContract c = None \/
        balanceOf saleContract c = Some 0%N
  | Some best =>
      In best allComments /\
      exists balance,
        balanceOf saleContract best = Some balance /\
        (0 < balance)%N /\
        forall c x, In c allComments -> balanceOf saleContract c = Some x ->
          (x <= balance)%N /\
          (x = balance ->
           time_gt (Comments.createdAt c) (Comments.createdAt best) = false)
  end.
Proof. apply getBestComment_ranked. Qed.

(** X12.  The ranking does not depend on the order of the comments, when
    two comments of the same balance of which neither is later than the
    other are the same comment: every rearrangement of the list gives the
    same best comment. *)
Theorem getBestComment_order_independent
  (allComments allComments' : list Comments.row) (saleContract : contract) :
  Permutation allComments allComments' ->
  (forall c c',
     In c allComments -> In c' allComments ->
     balanceOf saleContract c = balanceOf saleContract c' ->
     time_gt (Comments.createdAt c) (Comments.createdAt c') = false ->
     time_gt (Comments.createdAt c') (Comments.createdAt c) = false ->
     c = c') ->
  getBestComment allComments saleContract
  = getBestComment allComments' saleContract.
Proof.
  intros Hp Hsame.
  pose proof (getBestComment_ranked allComments saleContract) as H.
  pose proof (getBestComment_ranked allComments' saleContract) as H'.
  destruct (getBestComment allComments saleContract) as [b|],
           (getBestComment allComments' saleContract) as [b'|].
  - destruct H as [Hb [x [Hx [Hpos Hall]]]].
    destruct H' as [Hb' [x' [Hx' [Hpos' Hall']]]].
    apply (Permutation_in _ (Permutation_sym Hp)) in Hb' as Hb'0.
    apply (Permutation_in _ Hp) in Hb as Hb0.
    destruct (Hall b' x' Hb'0 Hx') as [Hle Htie].
    destruct (Hall' b x Hb0 Hx) as [Hle' Htie'].
    assert (x = x') by lia. subst x'.
    f_equal. apply Hsame; auto; congruence.
  - destruct H as [Hb [x [Hx [Hpos _]]]].
    apply (Permutation_in _ Hp) in Hb.
    destruct (H' b Hb) as [Hn|Hz]; rewrite Hx in *; [discriminate|].
    injection Hz as ->. lia.
  - destruct H' as [Hb' [x [Hx [Hpos _]]]].
    apply (Permutation_in _ (Permutation_sym Hp)) in Hb'.
    destruct (H b' Hb') as [Hn|Hz]; rewrite Hx in *; [discriminate|].
    injection Hz as ->. lia.
  - reflexivity.
Qed.

Lemma getBestComment_order_independent_witness :
  getBestComment [Samples.commentAt1000; Samples.commentAt1005]
    (Samples.everyoneHolds 7%N "0xsale")
  = getBestComment [Samples.commentAt1005; Samples.commentAt1000]
      (Samples.everyoneHolds 7%N "0xsale").
Proof.
  apply getBestComment_order_independent.
  - apply perm_swap.
  - intros c c' [<-|[<-|[]]] [<-|[<-|[]]] _ H1 H2;
      try reflexivity; discriminate.
Defined.

(** The handler changes nothing, or stores the payload of the comment it
    ranks first. *)
Lemma listenToSupabaseComments_cases provider db newComment :
  let newsId := Comments.newsId newComment in
  listenToSupabaseComments provider db newComment = db \/
  exists best,
    getBestComment (selectComments db (toLowerCase newsId)) (provider newsId)
    = Some best /\
    selectNews db (toLowerCase newsId) <> [] /\
    listenToSupabaseComments provider db newComment
    = updateBestComments db newsId (payloadOf best).
Proof.
  cbv zeta. unfold listenToSupabaseComments.
  destruct (maybeSingle _) as [[r|]|] eqn:Hnews; try now left.
  destruct (selectComments _ _) as [|c rest] eqn:Hsel; [now left|].
  destruct (getBestComment _ _) as [best|] eqn:Hbest; [|now left].
  right. exists best. split; [reflexivity|]. split; [|reflexivity].
  intros Hnil. rewrite Hnil in Hnews. discriminate.
Qed.

Lemma In_selectComments db key c :
  In c (selectComments db key) ->
  In c (comments db) /\ Comments.newsId c = key.
Proof.
  unfold selectComments. intros Hc.
  apply (Permutation_in _ (sortBy_Permutation _ _)) in Hc.
  apply filter_In in Hc as [Hc Hk]. now apply String.eqb_eq in Hk.
Qed.

(** X13.  What a new comment can change: the handler either leaves the
    store as it is, or issues one request, which writes to [best_comments]
    of the rows at the address of the comment the content and the wallet of
    a stored comment on that sale, one whose wallet holds a positive
    balance that no other comment's wallet exceeds. *)
Theorem comment_handler_effect (provider : string -> contract)
  (db : database) (newComment : Comments.row) :
  let newsId := Comments.newsId newComment in
  let db' := listenToSupabaseComments provider db newComment in
  db' = db \/
  exists best balance,
    In best (comments db) /\
    Comments.newsId best = toLowerCase newsId /\
    balanceOf (provider newsId) best = Some balance /\
    (0 < balance)%N /\
    (forall c x,
       In c (comments db) ->
       Comments.newsId c = toLowerCase newsId ->
       balanceOf (provider newsId) c = Some x -> (x <= balance)%N) /\
    db' = updateBestComments db newsId (payloadOf best).
Proof.
  cbv zeta.
  destruct (listenToSupabaseComments_cases provider db newComment)
    as [H | [best [Hbest [_ H]]]]; [now left|].
  right.
  pose proof (getBestComment_ranked
                (selectComments db (toLowerCase (Comments.newsId newComment)))
                (provider (Comments.newsId newComment))) as Hr.
  rewrite Hbest in Hr. destruct Hr as [Hin [balance [Hbal [Hpos Hall]]]].
  apply In_selectComments in Hin as [Hin Hid].
  exists best, balance. repeat split; try assumption.
  intros c x Hc Hcid Hx. apply (Hall c x); [|exact Hx].
  unfold selectComments.
  apply (Permutation_in _ (Permutation_sym (sortBy_Permutation _ _))).
  apply filter_In. split; [exact Hc | now apply String.eqb_eq].
Qed.

Lemma news_updateBestComments_other db key payload :
  ~ In key (newsKeys db) ->
  news (updateBestComments db key payload) = news db.
Proof.
  intros Hfresh. unfold updateBestComments. cbn [news].
  rewrite <- (map_id (news db)) at 2. apply map_ext_in.
  intros r Hr. destruct (String.eqb _ _) eqn:Heq; [|reflexivity].
  exfalso. apply Hfresh. apply String.eqb_eq in Heq. subst key.
  now apply in_map.
Qed.

(** X14.  A comment whose [newsId] is not in lower case never reaches
    [best_comments]: the handler looks the sale up under the address in
    lower case and writes under the address as it is in the comment, so
    that, the stored addresses being in lower case, the write finds no
    row and [News] stays as it is. *)
Theorem comment_on_mixed_case_address (provider : string -> contract)
  (db : database) (newComment : Comments.row) :
  Forall isLowerCase (newsKeys db) ->
  toLowerCase (Comments.newsId newComment) <> Comments.newsId newComment ->
  news (listenToSupabaseComments provider db newComment) = news db.
Proof.
  intros Hlower Hmixed.
  destruct (listenToSupabaseComments_cases provider db newComment)
    as [-> | [best [_ [_ ->]]]]; [reflexivity|].
  apply news_updateBestComments_other. intros Hin.
  rewrite Forall_forall in Hlower. now apply Hmixed, Hlower.
Qed.

Lemma comment_on_mixed_case_address_witness :
  news (listenToSupabaseComments (Samples.everyoneHolds 7%N) Samples.store
          {| Comments.newsId := "0xSALE";
             Comments.walletAddress := "0xcarol";
             Comments.content := "third";
             Comments.createdAt := Some 36600000 |})
  = news Samples.store /\
  writes (listenToSupabaseComments (Samples.everyoneHolds 7%N) Samples.store
            {| Comments.newsId := "0xSALE";
               Comments.walletAddress := "0xcarol";
               Comments.content := "third";
               Comments.createdAt := Some 36600000 |})
  = [UpdateBestComments "0xSALE" (payloadOf Samples.commentAt1005)].
Proof.
  split; [|reflexivity].
  apply comment_on_mixed_case_address.
  - repeat constructor.
  - discriminate.
Defined.

(** X15.  With the address in lower case the best comment is stored and
    read back: when the sale of the comment has one row and a comment is
    ranked first, that row, read after the handler, holds the content and
    the wallet of this comment in [best_comments] and is otherwise as it
    was. *)
Theorem comment_handler_stores_best (provider : string -> contract)
  (db : database) (newComment : Comments.row) (r : News.row)
  (best : Comments.row) :
  let newsId := Comments.newsId newComment in
  isLowerCase newsId ->
  selectNews db newsId = [r] ->
  getBestComment (selectComments db newsId) (provider newsId) = Some best ->
  selectNews (listenToSupabaseComments provider db newComment) newsId
  = [{| News.onchainAddress := News.onchainAddress r;
        News.date := News.date r;
        News.title := News.title r;
        News.description := News.description r;
        News.imageUrl := News.imageUrl r;
        News.isLaunched := News.isLaunched r;
        News.best_comments := payloadOf best |}].
Proof.
  cbv zeta. intros Hlower Hsel Hbest.
  destruct (listenToSupabaseComments_cases provider db newComment)
    as [H | [best' [Hbest' [_ H]]]]; cbv zeta in *.
  - exfalso. unfold listenToSupabaseComments in H.
    rewrite Hlower, Hsel in H. cbn [maybeSingle] in H.
    destruct (selectComments db (Comments.newsId newComment))
      as [|c rest] eqn:Hc; [discriminate Hbest|].
    cbv iota in H. rewrite Hbest in H.
    apply (f_equal writes) in H. unfold updateBestComments in H.
    cbn [writes] in H. rewrite <- (app_nil_r (writes db)) in H at 2.
    apply app_inv_head in H. discriminate.
  - rewrite Hlower, Hbest in Hbest'. injection Hbest' as <-.
    rewrite H. unfold selectNews in *. unfold updateBestComments.
    cbn [news].
    revert Hsel. generalize (news db). intros rows.
    induction rows as [|x rows IH]; intros Hsel; [discriminate|].
    cbn [map filter] in *.
    destruct (String.eqb (News.onchainAddress x)
                (Comments.newsId newComment)) eqn:Hx.
    + cbn [News.onchainAddress]. rewrite Hx.
      injection Hsel as -> Hrest. f_equal.
      clear IH. induction rows as [|y rows IH]; [reflexivity|].
      cbn [map filter] in *.
      destruct (String.eqb (News.onchainAddress y)
                  (Comments.newsId newComment)) eqn:Hy; [discriminate|].
      rewrite Hy. now apply IH.
    + rewrite Hx. now apply IH.
Qed.

Lemma comment_handler_stores_best_witness :
  selectNews
    (listenToSupabaseComments (Samples.everyoneHolds 7%N) Samples.store
       Samples.commentAt1000) "0xsale"
  = [{| News.onchainAddress := "0xsale";
        News.date := "1700000000000";
        News.title := "Sale";
        News.description := "A sale";
        News.imageUrl := "logo.png";
        News.isLaunched := false;
        News.best_comments := payloadOf Samples.commentAt1005 |}].
Proof.
  apply (comment_handler_stores_best (Samples.everyoneHolds 7%N)
           Samples.store Samples.commentAt1000 Samples.saleNews
           Samples.commentAt1005);
    reflexivity.
Defined.

(* ===================================================================== *)
(** ** More on the events                                                 *)
(* ===================================================================== *)

Lemma filter_map_other {A : Type} (keyOf : A -> string) (f : A -> A)
  (k key : string) (rows : list A) :
  (forall r, keyOf (f r) = keyOf r) -> key <> k ->
  filter (fun r => String.eqb (keyOf r) key)
    (map (fun r => if String.eqb (keyOf r) k then f r else r) rows)
  = filter (fun r => String.eqb (keyOf r) key) rows.
Proof.
  intros Hf Hneq. induction rows as [|r rows IH]; [reflexivity|].
  cbn [map filter]. rewrite IH.
  destruct (String.eqb (keyOf r) k) eqn:Hk; [|reflexivity].
  rewrite Hf. apply String.eqb_eq in Hk. rewrite Hk.
  apply not_eq_sym in Hneq. apply String.eqb_neq in Hneq.
  now rewrite Hneq.
Qed.

Lemma filter_snoc_other {A : Type} (keyOf : A -> string) (key : string)
  (rows : list A) (r : A) :
  key <> keyOf r ->
  filter (fun r => String.eqb (keyOf r) key) (rows ++ [r])
  = filter (fun r => String.eqb (keyOf r) key) rows.
Proof.
  intros Hneq. rewrite filter_app. cbn [filter].
  apply not_eq_sym in Hneq. apply String.eqb_neq in Hneq.
  now rewrite Hneq, app_nil_r.
Qed.

Lemma updateTokenDataVolume_other db a totalRaised now key :
  key <> toLowerCase a ->
  selectTokenData (updateTokenDataVolume db a totalRaised now) key
  = selectTokenData db key /\
  news (updateTokenDataVolume db a totalRaised now) = news db /\
  comments (updateTokenDataVolume db a totalRaised now) = comments db.
Proof.
  intros Hneq. unfold updateTokenDataVolume.
  destruct (maybeSingle _) as [[existing|]|]; try now repeat split.
  - destruct (nullish_coalesce _ _); try now repeat split.
    repeat split. unfold selectTokenData, updateTokenData. cbn [tokenData].
    now apply (filter_map_other TokenData.onchainAddress
                 (fun r => {| TokenData.onchainAddress :=
                                TokenData.onchainAddress r;
                              TokenData.volume := _;
                              TokenData.volumeHistory := _ |})).
  - repeat split. unfold selectTokenData, insertTokenData. cbn [tokenData].
    now apply (filter_snoc_other TokenData.onchainAddress).
Qed.

Lemma updateNews_other db k patch key :
  (forall r, News.onchainAddress (patch r) = News.onchainAddress r) ->
  key <> k ->
  selectNews (updateNews db k patch) key = selectNews db key.
Proof.
  intros Hpatch Hneq. unfold selectNews, updateNews. cbn [news].
  now apply (filter_map_other News.onchainAddress).
Qed.

(** X16.  An event changes the rows of its own sale only: the rows of
    [News] and of [TokenData] at any other address than the address of the
    event in lower case are after the listener what they were before, and
    so are the comments. *)
Theorem event_touches_one_sale (db : database) (now : number) (ev : event)
  (key : string) :
  key <> toLowerCase (addressOf ev) ->
  let db' := listenToEvents db now ev in
  selectNews db' key = selectNews db key /\
  selectTokenData db' key = selectTokenData db key /\
  comments db' = comments db.
Proof.
  intros Hneq. cbv zeta.
  destruct ev; cbn [listenToEvents addressOf] in *.
  - unfold insertTokenDataOnSaleCreated, insertNewsOnSaleCreated.
    destruct (maybeSingle (selectNews db _)) as [[r|]|];
      destruct (maybeSingle (selectTokenData _ _)) as [[r'|]|];
      repeat split; unfold selectNews, selectTokenData, insertNews,
        insertTokenData; cbn [news tokenData];
      try (now apply (filter_snoc_other News.onchainAddress));
      try (now apply (filter_snoc_other TokenData.onchainAddress)).
  - unfold updateNewsIsLaunched. repeat split.
    now apply updateNews_other.
  - destruct (updateTokenDataVolume_other db _ totalRaised0 now key Hneq)
      as [Ht [Hn Hc]].
    unfold selectNews. rewrite Hn. now repeat split.
  - destruct (updateTokenDataVolume_other db _ totalRaised0 now key Hneq)
      as [Ht [Hn Hc]].
    unfold selectNews. rewrite Hn. now repeat split.
  - unfold updateNewsMetadata. repeat split.
    now apply updateNews_other.
  - now repeat split.
Qed.

Lemma event_touches_one_sale_witness :
  let db' := listenToEvents Scenario.store (Dec 1700000000003 0)
               (TokensSold "0xSALE" "0xbob" 250000000000000000%N 0%N) in
  selectNews db' "0xother" = selectNews Scenario.store "0xother" /\
  selectTokenData db' "0xother" = selectTokenData Scenario.store "0xother" /\
  comments db' = comments Scenario.store.
Proof.
  apply event_touches_one_sale. discriminate.
Defined.

(** X17.  The volume events that are dropped: when the address of the
    event is stored in more than one row of [TokenData], or in one row
    whose history is neither an array nor missing, [updateTokenDataVolume]
    leaves the store as it is and issues no request. *)
Theorem volume_event_dropped (db : database) (saleContractAddress : string)
  (totalRaised : BigNumber) (now : number) :
  (2 <= List.length (selectTokenData db (toLowerCase saleContractAddress)))%nat
  \/ (exists existing,
        selectTokenData db (toLowerCase saleContractAddress) = [existing] /\
        isNullish (TokenData.volumeHistory existing) = false /\
        Array_isArray (TokenData.volumeHistory existing) = false) ->
  updateTokenDataVolume db saleContractAddress totalRaised now = db.
Proof.
  unfold updateTokenDataVolume.
  intros [Hmany | [existing [-> [Hnull Harr]]]].
  - destruct (selectTokenData db (toLowerCase saleContractAddress))
      as [|r [|r' rows]]; simpl in Hmany; try lia. reflexivity.
  - cbn [maybeSingle]. unfold nullish_coalesce. rewrite Hnull.
    destruct (TokenData.volumeHistory existing); try reflexivity.
    discriminate.
Qed.

Lemma volume_event_dropped_witness :
  updateTokenDataVolume
    {| news := [];
       tokenData := [{| TokenData.onchainAddress := "0xsale";
                        TokenData.volume := Str "1.0";
                        TokenData.volumeHistory := Str "[]" |}];
       comments := [];
       writes := [] |}
    "0xSALE" 2000000000000000000%N (Dec 1700000000000 0)
  = {| news := [];
       tokenData := [{| TokenData.onchainAddress := "0xsale";
                        TokenData.volume := Str "1.0";
                        TokenData.volumeHistory := Str "[]" |}];
       comments := [];
       writes := [] |}.
Proof.
  apply volume_event_dropped. right. eexists. repeat split.
Defined.

(* ===================================================================== *)
(** ** The samples the indexer writes                                     *)
(* ===================================================================== *)

Import Digits.

Lemma isDigit_code c : isDigit c = true -> 48 <= code c <= 57.
Proof.
  unfold isDigit. intros H. apply andb_true_iff in H as [H1 H2].
  zbool. lia.
Qed.

Lemma digitsOnly_app s t :
  digitsOnly (s ++ t) = digitsOnly s && digitsOnly t.
Proof.
  induction s as [|c s IH]; [reflexivity|].
  cbn [append digitsOnly]. now rewrite IH, andb_assoc.
Qed.

Lemma digitsOnly_string_of_uint d :
  digitsOnly (NilEmpty.string_of_uint d) = true.
Proof. induction d; cbn [NilEmpty.string_of_uint digitsOnly]; auto. Qed.

Lemma digits_shape n :
  digitsOnly (digits n) = true /\ digits n <> EmptyString.
Proof.
  unfold digits, NilZero.string_of_uint.
  destruct (N.to_uint (Z.to_N n)) as [|d|d|d|d|d|d|d|d|d|d];
    (split; [|discriminate]);
    try reflexivity;
    cbn [NilEmpty.string_of_uint digitsOnly];
    apply digitsOnly_string_of_uint.
Qed.

Lemma digitsOnly_zeros n : digitsOnly (zeros n) = true.
Proof. induction n; [reflexivity|]. cbn [zeros digitsOnly]. now rewrite IHn. Qed.

Lemma digitsOnly_stripTrailingZeros s :
  digitsOnly s = true -> digitsOnly (stripTrailingZeros s) = true.
Proof.
  induction s as [|c s IH]; [reflexivity|].
  cbn [digitsOnly stripTrailingZeros]. intros H.
  apply andb_true_iff in H as [Hc Hs].
  destruct (_ && _); [reflexivity|].
  cbn [digitsOnly]. now rewrite Hc, IH.
Qed.

Lemma countDots_app s t : countDots (s ++ t) = countDots s + countDots t.
Proof.
  induction s as [|c s IH]; [reflexivity|].
  cbn [append countDots]. rewrite IH. lia.
Qed.

Lemma countDots_digitsOnly s : digitsOnly s = true -> countDots s = 0.
Proof.
  induction s as [|c s IH]; [reflexivity|].
  cbn [digitsOnly countDots]. intros H.
  apply andb_true_iff in H as [Hc Hs]. rewrite (IH Hs).
  apply isDigit_code in Hc.
  destruct (code c =? 46) eqn:H46; [zbool; lia | reflexivity].
Qed.

(** What [formatEther] writes: digits, one decimal point, digits. *)
Lemma formatEther_shape wei :
  exists whole fraction,
    formatEther wei = whole ++ "." ++ fraction /\
    digitsOnly whole = true /\ whole <> EmptyString /\
    digitsOnly fraction = true /\ fraction <> EmptyString.
Proof.
  unfold formatEther. cbv zeta.
  set (value := Z.of_N wei).
  destruct (digits_shape (value / 10 ^ 18)) as [Hw Hw'].
  destruct (digits_shape (value mod 10 ^ 18)) as [Hf _].
  eexists. eexists. split; [reflexivity|].
  split; [exact Hw|]. split; [exact Hw'|].
  destruct (String.eqb _ EmptyString) eqn:He.
  - split; [reflexivity | discriminate].
  - split.
    + apply digitsOnly_stripTrailingZeros.
      now rewrite digitsOnly_app, digitsOnly_zeros, Hf.
    + apply String.eqb_neq in He. exact He.
Qed.

Lemma takeDigits_length s : forall acc len,
  len <= snd (fst (takeDigits acc len s)).
Proof.
  induction s as [|c s IH]; intros acc len; cbn [takeDigits]; [simpl; lia|].
  destruct (isDigit c); [|simpl; lia].
  specialize (IH (acc * 10 + digitVal c) (len + 1)). lia.
Qed.

Lemma isNaN_mkDec m e : isNaN (mkDec m e) = false.
Proof.
  unfold mkDec. destruct (m =? 0); [reflexivity|].
  now destruct (strip10 _ m e).
Qed.

(** A string that starts with a digit starts with a number. *)
Lemma parseFloat_digit c rest :
  isDigit c = true -> isNaN (parseFloat (String c rest)) = false.
Proof.
  intros Hc. pose proof (isDigit_code c Hc) as Hcode.
  unfold parseFloat. cbn [trimStart].
  assert (Hws : isWhiteSpace c = false).
  { unfold isWhiteSpace. cbv zeta.
    destruct (9 <=? code c) eqn:H1, (code c <=? 13) eqn:H2,
             (code c =? 32) eqn:H3, (code c =? 160) eqn:H4;
      try reflexivity; zbool; lia. }
  rewrite Hws.
  assert (H45 : (code c =? 45) = false) by (apply Z.eqb_neq; lia).
  assert (H43 : (code c =? 43) = false) by (apply Z.eqb_neq; lia).
  rewrite H45, H43.
  assert (Hinf : isPrefix "Infinity" (String c rest) = false).
  { unfold isPrefix. cbn [String.prefix].
    destruct (ascii_dec "I" c) as [<-|]; [discriminate Hc | reflexivity]. }
  rewrite Hinf.
  pose proof (takeDigits_length (String c rest) 0 0) as Hlen.
  cbn [takeDigits] in Hlen |- *. rewrite Hc in Hlen |- *.
  pose proof (takeDigits_length rest (0 * 10 + digitVal c) (0 + 1)) as Hlen'.
  destruct (takeDigits (0 * 10 + digitVal c) (0 + 1) rest)
    as [[ip ilen] r1].
  cbn [fst snd] in Hlen'.
  destruct (match r1 with
            | String c0 rest0 =>
                if code c0 =? 46 then takeDigits ip 0 rest0 else (ip, 0, r1)
            | EmptyString => (ip, 0, r1)
            end) as [[fp flen] r2].
  assert (Hil : (ilen =? 0) = false) by (apply Z.eqb_neq; lia).
  rewrite Hil. cbn [andb]. apply isNaN_mkDec.
Qed.

Lemma filterCallback_sampleOf ev : filterCallback (sampleOf ev) = Normal true.
Proof.
  unfold sampleOf.
  destruct (formatEther_shape (totalRaised ev))
    as [whole [fraction [-> [Hw [Hne [Hf _]]]]]].
  unfold filterCallback. cbn [get lookup String.eqb Ascii.eqb Bool.eqb
                              truthy isNullish negb orb].
  rewrite !countDots_app, (countDots_digitsOnly _ Hw),
    (countDots_digitsOnly _ Hf).
  cbn [countDots]. change (code "." =? 46) with true. cbv iota.
  change (0 + (1 + 0 + 0) >? 1) with false. cbv iota.
  destruct whole as [|c whole]; [contradiction|].
  cbn [digitsOnly] in Hw. apply andb_true_iff in Hw as [Hc _].
  cbn [append]. now rewrite parseFloat_digit.
Qed.

(** X18.  No sample the indexer writes is lost to the filter: the sample
    the volume listeners append for an event is accepted by the filter of
    the repair, so that a history of such samples is repaired without an
    exception and loses samples to the retention step only. *)
Theorem indexer_samples_pass_the_filter (evs : list volumeEvent) :
  (forall ev, filterCallback (sampleOf ev) = Normal true) /\
  Array_filter filterCallback (map sampleOf evs) = Normal (map sampleOf evs) /\
  exists fixed,
    fixVolumeHistory (Arr (map sampleOf evs)) = Normal fixed /\
    Z.of_nat (List.length fixed) =
      let N := Z.of_nat (List.length evs) in
      if N >? 4 then (if N <? 7 then 7 - N else 7) else N.
Proof.
  assert (Hall : Forall (fun item => filterCallback item = Normal true)
                   (map sampleOf evs)).
  { apply Forall_map, Forall_forall. intros ev _.
    apply filterCallback_sampleOf. }
  assert (Hfilter : Array_filter filterCallback (map sampleOf evs)
                    = Normal (map sampleOf evs)).
  { rewrite (Array_filter_Normal filterCallback (fun _ => true)
               (map sampleOf evs) Hall).
    f_equal. now apply filter_all. }
  split; [exact filterCallback_sampleOf|]. split; [exact Hfilter|].
  rewrite fixVolumeHistory_characterized.
  rewrite Array_filter_filterCallback in Hfilter.
  destruct (existsb Behaviour.throwsOn (map sampleOf evs)); [discriminate|].
  injection Hfilter as Hkept.
  eexists. split; [reflexivity|].
  unfold Behaviour.repaired. rewrite Hkept, length_map, truncate_length.
  cbv zeta.
  now rewrite (Permutation_length (sortBy_Permutation Pure.later _)),
    length_map.
Qed.

(* ===================================================================== *)
(** ** The updates of News, and the order of the events                   *)
(* ===================================================================== *)

Lemma updateNews_updateNews db key patch patch' :
  (forall r, News.onchainAddress (patch r) = News.onchainAddress r) ->
  updateNews (updateNews db key patch) key patch'
  = updateNews db key (fun r => patch' (patch r)).
Proof.
  intros Hpatch. unfold updateNews. cbn [news tokenData comments writes].
  f_equal. rewrite map_map. apply map_ext. intros r.
  destruct (String.eqb (News.onchainAddress r) key) eqn:Hk;
    [now rewrite Hpatch, Hk | now rewrite Hk].
Qed.

Lemma updateNews_ext db key patch patch' :
  (forall r, patch r = patch' r) ->
  updateNews db key patch = updateNews db key patch'.
Proof.
  intros Hext. unfold updateNews. f_equal. apply map_ext.
  intros r. now rewrite Hext.
Qed.

(** X19.  How the updates of [News] compose: for addresses that differ in
    case only, a second [SaleLaunched] changes nothing, of two
    [MetaUpdated] the later one is what stays, and a launch and a change of
    the metadata give the same rows in either order. *)
Theorem news_updates_compose (db : database)
  (a a' logoUrl description logoUrl' description' : string) :
  toLowerCase a' = toLowerCase a ->
  updateNewsIsLaunched (updateNewsIsLaunched db a) a'
  = updateNewsIsLaunched db a /\
  updateNewsMetadata (updateNewsMetadata db a logoUrl description)
    a' logoUrl' description'
  = updateNewsMetadata db a logoUrl' description' /\
  updateNewsMetadata (updateNewsIsLaunched db a) a' logoUrl description
  = updateNewsIsLaunched (updateNewsMetadata db a' logoUrl description) a.
Proof.
  intros Hcase. unfold updateNewsIsLaunched, updateNewsMetadata.
  rewrite Hcase, !updateNews_updateNews by reflexivity.
  repeat split; apply updateNews_ext; intros r; reflexivity.
Qed.

Lemma news_updates_compose_witness :
  updateNewsIsLaunched (updateNewsIsLaunched Samples.store "0xSALE") "0xSale"
  = updateNewsIsLaunched Samples.store "0xSALE" /\
  updateNewsMetadata (updateNewsMetadata Samples.store "0xSALE" "a.png" "A")
    "0xSale" "b.png" "B"
  = updateNewsMetadata Samples.store "0xSALE" "b.png" "B" /\
  updateNewsMetadata (updateNewsIsLaunched Samples.store "0xSALE")
    "0xSale" "a.png" "A"
  = updateNewsIsLaunched (updateNewsMetadata Samples.store "0xSale" "a.png" "A")
      "0xSALE".
Proof. apply news_updates_compose. reflexivity. Defined.

Lemma selectNews_updateNews db key patch :
  (forall r, News.onchainAddress (patch r) = News.onchainAddress r) ->
  selectNews (updateNews db key patch) key = map patch (selectNews db key).
Proof.
  intros Hpatch. unfold selectNews, updateNews. cbn [news].
  induction (news db) as [|r rows IH]; [reflexivity|].
  cbn [map filter].
  destruct (String.eqb (News.onchainAddress r) key) eqn:Hk.
  - rewrite Hpatch, Hk. cbn [map]. now rewrite IH.
  - now rewrite Hk, IH.
Qed.

Lemma updateNews_missing db key patch :
  selectNews db key = [] -> updateNews db key patch = db.
Proof.
  intros Hsel. unfold updateNews. destruct db as [rows tokens cs ws].
  cbn [news tokenData comments writes] in *. f_equal.
  unfold selectNews in Hsel. cbn [news] in Hsel.
  rewrite filter_nil in Hsel.
  rewrite <- (map_id rows) at 2. apply map_ext_in.
  intros r Hr. now rewrite (Hsel r Hr).
Qed.

Lemma launched_updateNewsIsLaunched db a :
  selectNews db (toLowerCase a) <> [] ->
  launched (updateNewsIsLaunched db a) (toLowerCase a) = true.
Proof.
  intros Hsel. unfold launched, updateNewsIsLaunched.
  rewrite selectNews_updateNews by reflexivity.
  destruct (selectNews db (toLowerCase a)) as [|r rows];
    [contradiction | reflexivity].
Qed.

Lemma selectNews_onSaleCreated_present db a ts name descr logo :
  selectNews (onSaleCreated db a ts name descr logo) (toLowerCase a) <> [].
Proof.
  rewrite selectNews_onSaleCreated, selectNews_insertNewsOnSaleCreated.
  destruct (selectNews db (toLowerCase a)); discriminate.
Qed.

(** X20.  A launch that arrives before the creation is lost: for a sale
    that has no row yet, the listeners leave it not launched when
    [SaleLaunched] is delivered before [SaleCreated], and launched when the
    two come in the order of the chain. *)
Theorem launch_before_creation_is_lost (db : database) (now now' : number)
  (a a' creator name symbol : string) (saleGoal : BigNumber)
  (logoUrl description launcher : string) :
  toLowerCase a' = toLowerCase a ->
  selectNews db (toLowerCase a) = [] ->
  let created := SaleCreated a creator name symbol saleGoal logoUrl description in
  let launch := SaleLaunched a' launcher in
  launched (listenToEvents (listenToEvents db now launch) now' created)
    (toLowerCase a) = false /\
  launched (listenToEvents (listenToEvents db now' created) now launch)
    (toLowerCase a) = true.
Proof.
  intros Hcase Hsel. cbv zeta. split.
  - cbn [listenToEvents]. unfold updateNewsIsLaunched.
    rewrite Hcase, (updateNews_missing db _ _ Hsel).
    unfold launched.
    change (insertTokenDataOnSaleCreated
              (insertNewsOnSaleCreated db a now' name description logoUrl) a)
      with (onSaleCreated db a now' name description logoUrl).
    rewrite selectNews_onSaleCreated, selectNews_insertNewsOnSaleCreated.
    now rewrite Hsel.
  - cbn [listenToEvents]. rewrite <- Hcase.
    apply launched_updateNewsIsLaunched. rewrite Hcase.
    apply selectNews_onSaleCreated_present.
Qed.

Lemma launch_before_creation_is_lost_witness :
  launched
    (listenToEvents
       (listenToEvents Samples.store (Dec 1700000000000 0)
          (SaleLaunched "0xNew" "0xcreator"))
       (Dec 1700000000001 0)
       (SaleCreated "0xNEW" "0xcreator" "New" "NEW" 5000000000000000000%N
          "new.png" "A new sale"))
    (toLowerCase "0xNEW") = false /\
  launched
    (listenToEvents
       (listenToEvents Samples.store (Dec 1700000000001 0)
          (SaleCreated "0xNEW" "0xcreator" "New" "NEW" 5000000000000000000%N
             "new.png" "A new sale"))
       (Dec 1700000000000 0)
       (SaleLaunched "0xNew" "0xcreator"))
    (toLowerCase "0xNEW") = true.
Proof.
  apply (launch_before_creation_is_lost Samples.store
           (Dec 1700000000000 0) (Dec 1700000000001 0) "0xNEW" "0xNew");
    reflexivity.
Defined.

Lemma present_follows db db' key :
  follows db db' -> selectNews db key <> [] -> selectNews db' key <> [].
Proof.
  intros [_ [_ [[kept [added [Hnews Hkept]]] _]]] Hsel Hnil.
  unfold selectNews in *. rewrite Hnews in Hnil.
  rewrite filter_nil in Hnil.
  destruct (filter _ (news db)) as [|r rows] eqn:Hf; [contradiction|].
  assert (Hr : In r (filter (fun r => String.eqb (News.onchainAddress r) key)
                       (news db))) by (rewrite Hf; now left).
  apply filter_In in Hr as [Hr Hk].
  destruct (Forall2_In_l _ _ _ r Hkept Hr) as [r' [Hr' [Ha _]]].
  specialize (Hnil r' (in_or_app _ _ _ (or_introl Hr'))).
  rewrite Ha in Hnil. congruence.
Qed.

Lemma launched_follows db db' key :
  follows db db' -> launched db key = true -> launched db' key = true.
Proof. intros [_ [_ [Hn _]]]. now apply launched_extends. Qed.

Lemma follows_syncEvents name log db : follows db (syncEvents name log db).
Proof.
  unfold syncEvents. revert db.
  induction (queryFilter name log) as [|entry entries IH]; intros db;
    [apply follows_refl|].
  cbn [fold_left].
  eapply follows_trans; [apply follows_listenToEvents | apply IH].
Qed.

Lemma In_queryFilter ev now log :
  In (Some ev, now) log -> In (ev, now) (queryFilter (nameOf ev) log).
Proof.
  intros Hin. unfold queryFilter. apply in_flat_map.
  exists (Some ev, now). split; [exact Hin|]. cbn [fst snd].
  assert (Hrefl : eventName_eqb (nameOf ev) (nameOf ev) = true)
    by now destruct ev.
  rewrite Hrefl. now left.
Qed.

(** A loop of the synchronization that meets an event establishes what
    this event establishes, when the other events of the loop keep it. *)
Lemma syncEvents_establishes (Pre Post : database -> Prop) name log ev now :
  (forall db db', follows db db' -> Pre db -> Pre db') ->
  (forall db db', follows db db' -> Post db -> Post db') ->
  (forall db, Pre db -> Post (listenToEvents db now ev)) ->
  In (ev, now) (queryFilter name log) ->
  forall db, Pre db -> Post (syncEvents name log db).
Proof.
  intros HPre HPost Hev Hin db Hdb. unfold syncEvents.
  apply in_split in Hin as [before [after Hsplit]].
  rewrite Hsplit, fold_left_app. cbn [fold_left fst snd].
  set (f := fun (db : database) (entry : event * number) =>
              listenToEvents db (snd entry) (fst entry)).
  assert (Hfold : forall entries db0, follows db0 (fold_left f entries db0)).
  { induction entries as [|e entries IH]; intros db0; [apply follows_refl|].
    cbn [fold_left]. eapply follows_trans; [|apply IH].
    apply follows_listenToEvents. }
  apply (HPost _ _ (Hfold after _)). apply Hev.
  apply (HPre _ _ (Hfold before db)). exact Hdb.
Qed.

(** X21.  The synchronization of past events handles every [SaleCreated]
    of the log before any [SaleLaunched], so that a sale which the log
    creates and launches, in whatever order the two entries are and
    whatever else the log holds, is launched at the end. *)
Theorem sync_launches_created_sales (db : database) (log : list pastEvent)
  (now now' : number) (a a' creator name symbol : string)
  (saleGoal : BigNumber) (logoUrl description launcher : string) :
  In (Some (SaleCreated a creator name symbol saleGoal logoUrl description),
      now) log ->
  In (Some (SaleLaunched a' launcher), now') log ->
  toLowerCase a' = toLowerCase a ->
  launched (syncPastEvents db log) (toLowerCase a) = true.
Proof.
  intros Hcreated Hlaunch Hcase.
  apply In_queryFilter in Hcreated, Hlaunch. cbn [nameOf] in *.
  unfold syncPastEvents. cbv zeta.
  do 4 (apply (launched_follows _ _ _ (follows_syncEvents _ log _))).
  apply (syncEvents_establishes
           (fun db => selectNews db (toLowerCase a) <> [])
           (fun db => launched db (toLowerCase a) = true)
           SaleLaunchedEvent log (SaleLaunched a' launcher) now').
  - intros db0 db1 H. now apply present_follows.
  - intros db0 db1 H. now apply launched_follows.
  - intros db0 Hdb. cbn [listenToEvents]. rewrite <- Hcase in *.
    now apply launched_updateNewsIsLaunched.
  - exact Hlaunch.
  - apply (syncEvents_establishes
             (fun _ => True)
             (fun db => selectNews db (toLowerCase a) <> [])
             SaleCreatedEvent log
             (SaleCreated a creator name symbol saleGoal logoUrl description)
             now).
    + trivial.
    + intros db0 db1 H. now apply present_follows.
    + intros db0 _. cbn [listenToEvents].
      apply selectNews_onSaleCreated_present.
    + exact Hcreated.
    + exact I.
Qed.

Lemma sync_launches_created_sales_witness :
  launched
    (syncPastEvents Samples.store
       [(Some (SaleLaunched "0xNew" "0xcreator"), Dec 1700000000000 0);
        (None, Dec 1700000000001 0);
        (Some (TokensBought "0xNew" "0xalice" 1500000000000000000%N 100%N),
         Dec 1700000000002 0);
        (Some (SaleCreated "0xNEW" "0xcreator" "New" "NEW"
                 5000000000000000000%N "new.png" "A new sale"),
         Dec 1700000000003 0)])
    (toLowerCase "0xNEW") = true.
Proof.
  apply (sync_launches_created_sales Samples.store _
           (Dec 1700000000003 0) (Dec 1700000000000 0)
           "0xNEW" "0xNew" "0xcreator" "New" "NEW" 5000000000000000000%N
           "new.png" "A new sale" "0xcreator").
  - do 3 right. now left.
  - now left.
  - reflexivity.
Defined.

(* ===================================================================== *)
(** ** The volume of an event as a number                                 *)
(* ===================================================================== *)

(** *** Normal forms of decimals *)

Lemma strip10_enough fuel : forall fuel' m e,
  m <> 0 ->
  Z.log2 (Z.abs m) <= Z.of_nat fuel ->
  Z.log2 (Z.abs m) <= Z.of_nat fuel' ->
  strip10 fuel m e = strip10 fuel' m e.
Proof.
  induction fuel as [|fuel IH]; intros fuel' m e Hm Hf Hf'.
  - assert (Hone : Z.abs m = 1).
    { assert (H0 : Z.log2 (Z.abs m) = 0) by (pose proof (Z.log2_nonneg (Z.abs m)); lia).
      apply Z.log2_null in H0. lia. }
    assert (Hmod : (m mod 10 =? 0) = false).
    { apply Z.eqb_neq. destruct (Z.abs_spec m) as [[_ Ha]|[_ Ha]].
      - replace m with 1 by lia. discriminate.
      - replace m with (-1) by lia. discriminate. }
    destruct fuel' as [|fuel']; cbn [strip10]; [reflexivity|].
    now rewrite Hmod.
  - cbn [strip10]. destruct (m mod 10 =? 0) eqn:Hmod.
    + apply Z.eqb_eq in Hmod.
      pose proof (Z.div_mod m 10 ltac:(lia)) as Hdm.
      rewrite Hmod, Z.add_0_r in Hdm.
      assert (Hq : m / 10 <> 0) by lia.
      assert (Hlog : Z.log2 (Z.abs (m / 10)) + 1 <= Z.log2 (Z.abs m)).
      { pose proof (Z.log2_double (Z.abs (m / 10)) ltac:(lia)) as Hd.
        pose proof (Z.log2_le_mono (2 * Z.abs (m / 10)) (Z.abs m)
                      ltac:(lia)).
        lia. }
      destruct fuel' as [|fuel'].
      { exfalso. pose proof (Z.log2_nonneg (Z.abs (m / 10))). lia. }
      cbn [strip10]. rewrite Hmod. rewrite Z.eqb_refl.
      apply IH; [exact Hq | lia | lia].
    + destruct fuel' as [|fuel']; cbn [strip10]; [reflexivity|].
      now rewrite Hmod.
Qed.

Lemma mkDec_10 m e : mkDec (m * 10) (e - 1) = mkDec m e.
Proof.
  unfold mkDec. destruct (m =? 0) eqn:Hm.
  - apply Z.eqb_eq in Hm. subst m. reflexivity.
  - apply Z.eqb_neq in Hm.
    assert (Hm10 : (m * 10 =? 0) = false) by (apply Z.eqb_neq; lia).
    rewrite Hm10.
    assert (Hlog : Z.log2 (Z.abs m) + 1 <= Z.log2 (Z.abs (m * 10))).
    { pose proof (Z.log2_double (Z.abs m) ltac:(lia)) as Hd.
      pose proof (Z.log2_le_mono (2 * Z.abs m) (Z.abs (m * 10)) ltac:(lia)).
      lia. }
    pose proof (Z.log2_nonneg (Z.abs m)) as Hnn.
    destruct (Z.to_nat (Z.log2 (Z.abs (m * 10)))) as [|fuel] eqn:Hfuel;
      [lia|].
    cbn [strip10].
    rewrite Z.mod_mul, Z.eqb_refl, Z.div_mul by lia.
    replace (e - 1 + 1) with e by lia.
    rewrite (strip10_enough fuel (Z.to_nat (Z.log2 (Z.abs m))) m e);
      [reflexivity | exact Hm | lia | lia].
Qed.

Lemma mkDec_scale (j : nat) : forall m e,
  mkDec (m * 10 ^ Z.of_nat j) (e - Z.of_nat j) = mkDec m e.
Proof.
  induction j as [|j IH]; intros m e.
  - cbn [Z.of_nat]. now rewrite Z.pow_0_r, Z.mul_1_r, Z.sub_0_r.
  - rewrite Nat2Z.inj_succ, Z.pow_succ_r by lia.
    replace (m * (10 * 10 ^ Z.of_nat j)) with (m * 10 ^ Z.of_nat j * 10) by lia.
    replace (e - Z.succ (Z.of_nat j)) with (e - Z.of_nat j - 1) by lia.
    rewrite mkDec_10. apply IH.
Qed.

(** *** Strings of digits and their values *)

Lemma strlen_String c s : strlen (String c s) = strlen s + 1.
Proof. unfold strlen. cbn [String.length]. lia. Qed.

Lemma strlen_nonneg s : 0 <= strlen s.
Proof. unfold strlen. lia. Qed.

Lemma strlen_app s t : strlen (s ++ t) = strlen s + strlen t.
Proof.
  induction s as [|c s IH]; [reflexivity|].
  cbn [append]. rewrite !strlen_String, IH. lia.
Qed.

Lemma append_EmptyString s : s ++ EmptyString = s.
Proof. induction s as [|c s IH]; [reflexivity|]. cbn [append]. now rewrite IH. Qed.

Lemma valueOf_String c s :
  valueOf (String c s) = digitVal c * 10 ^ strlen s + valueOf s.
Proof. reflexivity. Qed.

(** [takeDigits] reads a string of digits to its end. *)
Lemma takeDigits_digitsOnly s : forall acc len rest,
  digitsOnly s = true ->
  match rest with
  | String c _ => isDigit c = false
  | EmptyString => True
  end ->
  takeDigits acc len (s ++ rest)
  = (acc * 10 ^ strlen s + valueOf s, len + strlen s, rest).
Proof.
  induction s as [|c s IH]; intros acc len rest Hs Hrest.
  - cbn [append]. change (strlen EmptyString) with 0.
    cbn [valueOf]. rewrite Z.pow_0_r, Z.mul_1_r, !Z.add_0_r.
    destruct rest as [|c rest]; cbn [takeDigits]; [reflexivity|].
    now rewrite Hrest.
  - cbn [digitsOnly] in Hs. apply andb_true_iff in Hs as [Hc Hs].
    cbn [append takeDigits]. rewrite Hc, (IH _ _ _ Hs Hrest).
    rewrite valueOf_String, strlen_String.
    rewrite Z.pow_add_r, Z.pow_1_r by (try lia; apply strlen_nonneg).
    f_equal. f_equal; lia.
Qed.

Lemma of_uint_acc_valueOf d : forall acc,
  Z.pos (Pos.of_uint_acc d acc)
  = Z.pos acc * 10 ^ strlen (NilEmpty.string_of_uint d)
    + valueOf (NilEmpty.string_of_uint d).
Proof.
  induction d; intros acc;
    cbn [Pos.of_uint_acc NilEmpty.string_of_uint];
    try (rewrite IHd, valueOf_String, strlen_String,
           Z.pow_add_r, Z.pow_1_r by (try lia; apply strlen_nonneg)).
  - change (strlen EmptyString) with 0. cbn [valueOf]. lia.
  - change (digitVal "0") with 0. lia.
  - change (digitVal "1") with 1. lia.
  - change (digitVal "2") with 2. lia.
  - change (digitVal "3") with 3. lia.
  - change (digitVal "4") with 4. lia.
  - change (digitVal "5") with 5. lia.
  - change (digitVal "6") with 6. lia.
  - change (digitVal "7") with 7. lia.
  - change (digitVal "8") with 8. lia.
  - change (digitVal "9") with 9. lia.
Qed.

Lemma of_uint_valueOf d :
  Z.of_N (Pos.of_uint d) = valueOf (NilEmpty.string_of_uint d).
Proof.
  induction d; cbn [Pos.of_uint NilEmpty.string_of_uint];
    try (rewrite valueOf_String; cbn [Z.of_N];
         rewrite of_uint_acc_valueOf).
  - reflexivity.
  - rewrite valueOf_String, IHd. change (digitVal "0") with 0. lia.
  - change (digitVal "1") with 1. lia.
  - change (digitVal "2") with 2. lia.
  - change (digitVal "3") with 3. lia.
  - change (digitVal "4") with 4. lia.
  - change (digitVal "5") with 5. lia.
  - change (digitVal "6") with 6. lia.
  - change (digitVal "7") with 7. lia.
  - change (digitVal "8") with 8. lia.
  - change (digitVal "9") with 9. lia.
Qed.

Lemma valueOf_digits n : 0 <= n -> valueOf (digits n) = n.
Proof.
  intros Hn. unfold digits.
  assert (H : forall d, valueOf (NilZero.string_of_uint d)
                        = Z.of_N (N.of_uint d)).
  { intros d. unfold N.of_uint. rewrite of_uint_valueOf.
    now destruct d. }
  rewrite H, DecimalN.Unsigned.of_to. now apply Z2N.id.
Qed.

Lemma valueOf_nonneg s : digitsOnly s = true -> 0 <= valueOf s.
Proof.
  induction s as [|c s IH]; [reflexivity|].
  cbn [digitsOnly]. intros H. apply andb_true_iff in H as [Hc Hs].
  rewrite valueOf_String. apply isDigit_code in Hc.
  specialize (IH Hs).
  assert (0 <= 10 ^ strlen s) by (apply Z.pow_nonneg; lia).
  unfold digitVal. nia.
Qed.

(** A number below [10 ^ k] is written with at most [k] digits. *)
Lemma strlen_digits n k :
  0 <= n < 10 ^ k -> 1 <= k -> strlen (digits n) <= k.
Proof.
  intros Hn Hk.
  pose proof (valueOf_digits n ltac:(lia)) as Hval.
  unfold digits in *.
  set (d := N.to_uint (Z.to_N n)) in *.
  assert (Hnorm : d = Decimal.unorm d).
  { unfold d. rewrite <- (DecimalN.Unsigned.of_to (Z.to_N n)) at 1.
    apply DecimalN.Unsigned.to_of. }
  unfold Decimal.unorm in Hnorm.
  pose proof (DecimalFacts.nzhead_nonzero d) as Hnz.
  assert (Hlead : d = Decimal.zero \/
                  exists c rest,
                    NilZero.string_of_uint d = String c rest /\
                    1 <= digitVal c /\ digitsOnly rest = true).
  { destruct (Decimal.nzhead d) as [|u|u|u|u|u|u|u|u|u|u] eqn:Hh;
      [now left | exfalso; now apply (Hnz u) | ..];
      right; rewrite Hnorm; cbn [NilZero.string_of_uint NilEmpty.string_of_uint];
      eexists; eexists; (split; [reflexivity|]);
      (split; [now vm_compute | apply digitsOnly_string_of_uint]). }
  destruct Hlead as [-> | [c [rest [Hs [Hc Hrest]]]]].
  - change (strlen (NilZero.string_of_uint Decimal.zero)) with 1. lia.
  - rewrite Hs in *. rewrite valueOf_String in Hval.
    rewrite strlen_String.
    pose proof (valueOf_nonneg rest Hrest) as Hv.
    pose proof (strlen_nonneg rest) as Hl.
    assert (Hpow : 10 ^ strlen rest <= n).
    { assert (0 < 10 ^ strlen rest) by (apply Z.pow_pos_nonneg; lia). nia. }
    assert (Hlt : 10 ^ strlen rest < 10 ^ k) by lia.
    apply Z.pow_lt_mono_r_iff in Hlt; lia.
Qed.

Lemma valueOf_zeros n s : valueOf (zeros n ++ s) = valueOf s.
Proof.
  induction n as [|n IH]; [reflexivity|].
  cbn [zeros append]. rewrite valueOf_String, IH.
  change (digitVal "0") with 0. lia.
Qed.

Lemma strlen_zeros n : strlen (zeros n) = Z.of_nat n.
Proof.
  induction n as [|n IH]; [reflexivity|].
  cbn [zeros]. rewrite strlen_String, IH. lia.
Qed.

(** Dropping the trailing zeros divides by a power of ten. *)
Lemma valueOf_stripTrailingZeros s :
  strlen (stripTrailingZeros s) <= strlen s /\
  valueOf s
  = valueOf (stripTrailingZeros s)
    * 10 ^ (strlen s - strlen (stripTrailingZeros s)).
Proof.
  induction s as [|c s [IHlen IH]]; [split; reflexivity|].
  cbn [stripTrailingZeros].
  pose proof (strlen_nonneg s) as Hs.
  pose proof (strlen_nonneg (stripTrailingZeros s)) as Hs'.
  destruct (String.eqb (stripTrailingZeros s) EmptyString) eqn:Hempty;
    [destruct (code c =? 48) eqn:Hzero|]; cbn [andb].
  - apply String.eqb_eq in Hempty. rewrite Hempty in IH.
    apply Z.eqb_eq in Hzero.
    rewrite valueOf_String, strlen_String, IH.
    change (strlen EmptyString) with 0. cbn [valueOf].
    unfold digitVal. rewrite Hzero. split; lia.
  - rewrite !valueOf_String, !strlen_String, IH.
    split; [lia|].
    replace (strlen s + 1 - (strlen (stripTrailingZeros s) + 1))
      with (strlen s - strlen (stripTrailingZeros s)) by lia.
    rewrite Z.mul_add_distr_r, <- Z.mul_assoc, <- Z.pow_add_r by lia.
    now replace (strlen (stripTrailingZeros s)
                 + (strlen s - strlen (stripTrailingZeros s)))
      with (strlen s) by lia.
  - rewrite !valueOf_String, !strlen_String, IH.
    split; [lia|].
    replace (strlen s + 1 - (strlen (stripTrailingZeros s) + 1))
      with (strlen s - strlen (stripTrailingZeros s)) by lia.
    rewrite Z.mul_add_distr_r, <- Z.mul_assoc, <- Z.pow_add_r by lia.
    now replace (strlen (stripTrailingZeros s)
                 + (strlen s - strlen (stripTrailingZeros s)))
      with (strlen s) by lia.
Qed.

(** The two parts of what [formatEther] writes, as numbers. *)
Lemma formatEther_value wei :
  exists whole fraction,
    formatEther wei = whole ++ "." ++ fraction /\
    digitsOnly whole = true /\ whole <> EmptyString /\
    digitsOnly fraction = true /\ fraction <> EmptyString /\
    strlen fraction <= 18 /\
    (valueOf whole * 10 ^ strlen fraction + valueOf fraction)
    * 10 ^ (18 - strlen fraction) = Z.of_N wei.
Proof.
  unfold formatEther. cbv zeta.
  set (value := Z.of_N wei).
  assert (Hvalue : 0 <= value) by (unfold value; lia).
  destruct (digits_shape (value / 10 ^ 18)) as [Hw Hw'].
  destruct (digits_shape (value mod 10 ^ 18)) as [Hf _].
  pose proof (Z.mod_pos_bound value (10 ^ 18) ltac:(lia)) as Hmod.
  pose proof (Z.div_mod value (10 ^ 18) ltac:(lia)) as Hdm.
  pose proof (valueOf_digits (value / 10 ^ 18)
                ltac:(apply Z.div_pos; lia)) as Hwhole.
  pose proof (valueOf_digits (value mod 10 ^ 18) ltac:(lia)) as Hfrac.
  pose proof (strlen_digits (value mod 10 ^ 18) 18 Hmod ltac:(lia)) as Hlen.
  set (padded := zeros (Z.to_nat (18 - strlen (digits (value mod 10 ^ 18))))
                   ++ digits (value mod 10 ^ 18)) in *.
  assert (Hplen : strlen padded = 18).
  { unfold padded. rewrite strlen_app, strlen_zeros. lia. }
  assert (Hpval : valueOf padded = value mod 10 ^ 18).
  { unfold padded. now rewrite valueOf_zeros. }
  assert (Hpdig : digitsOnly padded = true).
  { unfold padded. now rewrite digitsOnly_app, digitsOnly_zeros, Hf. }
  destruct (valueOf_stripTrailingZeros padded) as [Hslen Hsval].
  rewrite Hplen, Hpval in *.
  pose proof (strlen_nonneg (stripTrailingZeros padded)) as Hsnn.
  eexists. eexists. split; [reflexivity|].
  split; [exact Hw|]. split; [exact Hw'|].
  rewrite Hwhole.
  destruct (String.eqb (stripTrailingZeros padded) EmptyString) eqn:He.
  - apply String.eqb_eq in He. rewrite He in Hsval.
    cbn [valueOf] in Hsval.
    change (strlen "0") with 1. change (valueOf "0") with 0.
    repeat split; try discriminate; lia.
  - apply String.eqb_neq in He.
    split; [now apply digitsOnly_stripTrailingZeros|].
    split; [exact He|]. split; [exact Hslen|].
    rewrite Z.mul_add_distr_r, <- Z.mul_assoc, <- Z.pow_add_r by lia.
    replace (strlen (stripTrailingZeros padded)
             + (18 - strlen (stripTrailingZeros padded))) with 18 by lia.
    lia.
Qed.

(** [parseFloat] on digits, a decimal point and digits. *)
Lemma parseFloat_decimal whole fraction :
  digitsOnly whole = true -> whole <> EmptyString ->
  digitsOnly fraction = true ->
  parseFloat (whole ++ "." ++ fraction)
  = mkDec (valueOf whole * 10 ^ strlen fraction + valueOf fraction)
      (- strlen fraction).
Proof.
  intros Hw Hne Hf.
  destruct whole as [|c whole]; [contradiction|].
  pose proof Hw as Hw0.
  cbn [digitsOnly] in Hw0. apply andb_true_iff in Hw0 as [Hc _].
  pose proof (isDigit_code c Hc) as Hcode.
  unfold parseFloat. cbn [append trimStart].
  assert (Hws : isWhiteSpace c = false).
  { unfold isWhiteSpace. cbv zeta.
    destruct (9 <=? code c) eqn:H1, (code c <=? 13) eqn:H2,
             (code c =? 32) eqn:H3, (code c =? 160) eqn:H4;
      try reflexivity; zbool; lia. }
  rewrite Hws.
  assert (H45 : (code c =? 45) = false) by (apply Z.eqb_neq; lia).
  assert (H43 : (code c =? 43) = false) by (apply Z.eqb_neq; lia).
  rewrite H45, H43.
  assert (Hinf : forall rest, isPrefix "Infinity" (String c rest) = false).
  { intros rest. unfold isPrefix. cbn [String.prefix].
    destruct (ascii_dec "I" c) as [<-|]; [discriminate Hc | reflexivity]. }
  rewrite Hinf.
  change (String c (whole ++ String "." fraction))
    with (String c whole ++ String "." fraction).
  rewrite (takeDigits_digitsOnly (String c whole) 0 0 (String "." fraction) Hw)
    by reflexivity.
  cbv beta iota. change (code "." =? 46) with true. cbv iota.
  rewrite <- (append_EmptyString fraction) at 1.
  rewrite (takeDigits_digitsOnly fraction _ 0 EmptyString Hf I).
  cbv beta iota.
  pose proof (strlen_nonneg whole) as Hwl.
  assert (Hil : (0 + strlen (String c whole) =? 0) = false)
    by (apply Z.eqb_neq; rewrite strlen_String; lia).
  rewrite Hil. cbn [andb exponentPart].
  f_equal; lia.
Qed.

(** What the indexer writes as the volume of an event is read back by the
    repair as the amount in wei times [10 ^ -18]. *)
Lemma parseFloat_formatEther wei :
  parseFloat (formatEther wei) = mkDec (Z.of_N wei) (-18).
Proof.
  destruct (formatEther_value wei)
    as [whole [fraction [-> [Hw [Hne [Hf [Hfne [Hlen Hval]]]]]]]].
  rewrite (parseFloat_decimal whole fraction Hw Hne Hf).
  pose proof (strlen_nonneg fraction) as Hnn.
  rewrite <- Hval.
  rewrite <- (mkDec_scale (Z.to_nat (18 - strlen fraction))
                (valueOf whole * 10 ^ strlen fraction + valueOf fraction)
                (- strlen fraction)).
  rewrite Z2Nat.id by lia. f_equal. lia.
Qed.

(** *** The samples of the indexer under the repair *)

Lemma rebuilt_sampleOf ev :
  Pure.rebuilt (sampleOf ev)
  = {| time := blockTimestampMs ev;
       volume := mkDec (Z.of_N (totalRaised ev)) (-18) |}.
Proof.
  unfold Pure.rebuilt, sampleOf. f_equal.
  unfold Pure.volumeValueOf.
  cbn [get lookup String.eqb Ascii.eqb Bool.eqb Pure.stringOf ToString].
  apply parseFloat_formatEther.
Qed.

Lemma kept_sampleOf evs :
  existsb Behaviour.throwsOn (map sampleOf evs) = false /\
  filter (fun item => negb (Behaviour.removedByFilter item)) (map sampleOf evs)
  = map sampleOf evs.
Proof.
  assert (Hall : forall item, In item (map sampleOf evs) ->
                   Behaviour.throwsOn item = false /\
                   Behaviour.removedByFilter item = false).
  { intros item Hin. apply in_map_iff in Hin as [ev [<- _]].
    pose proof (filterCallback_sampleOf ev) as H.
    rewrite filterCallback_spec in H.
    destruct (Behaviour.throwsOn (sampleOf ev)); [discriminate|].
    split; [reflexivity|].
    destruct (Behaviour.removedByFilter (sampleOf ev));
      [discriminate | reflexivity]. }
  split.
  - apply existsb_false. intros item Hin. now apply Hall.
  - apply filter_all. intros item Hin.
    destruct (Hall item Hin) as [_ ->]. reflexivity.
Qed.

(** X22.  The repair reads a sample of the indexer: the sample written for
    a volume event is rebuilt without an exception, with the time of the
    event and, as volume, a number that is not [NaN], is not negative, and
    is positive exactly when an amount was raised.  Which number it is, is
    left open: the program rounds the text of [formatEther] to a
    floating-point number. *)
Theorem event_sample_rebuilt (ev : volumeEvent) :
  exists v : number,
    rebuild (sampleOf ev)
    = Normal {| time := blockTimestampMs ev; volume := v |} /\
    isNaN v = false /\
    lt0 v = false /\
    gt0 v = (0 <? Z.of_N (totalRaised ev)).
Proof.
  exists (mkDec (Z.of_N (totalRaised ev)) (-18)). repeat split.
  - unfold rebuild, timeOf, volumeOf, sampleOf.
    cbn [get lookup String.eqb Ascii.eqb Bool.eqb ToString bind].
    now rewrite parseFloat_formatEther.
  - apply isNaN_mkDec.
  - rewrite lt0_mkDec. apply Z.ltb_ge. lia.
  - apply gt0_mkDec.
Qed.

(** X23.  The repair of a history the indexer wrote: when the samples of
    the events were appended at times that do not decrease, the repair
    throws no exception and the repaired history holds one sample for each
    of the last events, as many as the retention step keeps and in the
    order of the events: each has the time of its event and a volume that
    is not [NaN], is not negative, and is positive exactly when the event
    raised an amount.  Which number the volume is, is left open: the
    program rounds the text of [formatEther] to a floating-point number. *)
Theorem repair_of_indexer_history (evs : list volumeEvent) :
  StronglySorted
    (fun x y => gt0 (sub (blockTimestampMs x) (blockTimestampMs y)) = false)
    evs ->
  exists fixed : list VolumeHistoryItem,
    fixVolumeHistory (Arr (map sampleOf evs)) = Normal fixed /\
    Forall2
      (fun ev it =>
         time it = blockTimestampMs ev /\
         isNaN (volume it) = false /\
         lt0 (volume it) = false /\
         gt0 (volume it) = (0 <? Z.of_N (totalRaised ev)))
      (skipn (Z.to_nat (Behaviour.keptFrom (Z.of_nat (List.length evs)))) evs)
      fixed.
Proof.
  intros Hsorted. rewrite fixVolumeHistory_characterized.
  destruct (kept_sampleOf evs) as [-> Hkept].
  eexists. split; [reflexivity|].
  unfold Behaviour.repaired. rewrite Hkept.
  rewrite sortBy_fixpoint.
  2:{ apply (ordered_map sampleOf
               (fun x y => gt0 (sub (blockTimestampMs x) (blockTimestampMs y))));
        [reflexivity | now apply StronglySorted_ordered]. }
  rewrite truncate_kept, length_map, skipn_map, map_map.
  induction (skipn _ evs) as [|ev rest IH]; cbn [map]; constructor;
    [|exact IH].
  rewrite rebuilt_sampleOf. cbn [time volume]. repeat split.
  - apply isNaN_mkDec.
  - rewrite lt0_mkDec. apply Z.ltb_ge. lia.
  - apply gt0_mkDec.
Qed.

Lemma repair_of_indexer_history_witness :
  exists fixed : list VolumeHistoryItem,
    fixVolumeHistory (Arr (map sampleOf Samples.purchases)) = Normal fixed /\
    Forall2
      (fun ev it =>
         time it = blockTimestampMs ev /\
         isNaN (volume it) = false /\
         lt0 (volume it) = false /\
         gt0 (volume it) = (0 <? Z.of_N (totalRaised ev)))
      Samples.purchases fixed.
Proof.
  apply (repair_of_indexer_history Samples.purchases).
  repeat constructor.
Defined.

(* ===================================================================== *)
(** ** Events out of order                                               *)
(* ===================================================================== *)

Lemma tokenData_insertNewsOnSaleCreated db a ts name descr logo :
  tokenData (insertNewsOnSaleCreated db a ts name descr logo) = tokenData db.
Proof.
  unfold insertNewsOnSaleCreated.
  now destruct (maybeSingle _) as [[r|]|].
Qed.

(** X24.  A creation that arrives late erases nothing: for a sale that has
    no row of [TokenData] yet, a purchase delivered before [SaleCreated]
    creates the row with its sample, and [SaleCreated], finding the row,
    leaves the volume and the history as they are. *)
Theorem late_creation_keeps_history (db : database) (now now' : number)
  (a a' buyer creator name symbol logoUrl description : string)
  (totalRaised tokenBalance saleGoal : BigNumber) :
  toLowerCase a' = toLowerCase a ->
  selectTokenData db (toLowerCase a) = [] ->
  let bought := TokensBought a buyer totalRaised tokenBalance in
  let created :=
    SaleCreated a' creator name symbol saleGoal logoUrl description in
  selectTokenData (listenToEvents (listenToEvents db now bought) now' created)
    (toLowerCase a)
  = [{| TokenData.onchainAddress := toLowerCase a;
        TokenData.volume := Str (formatEther totalRaised);
        TokenData.volumeHistory :=
          Arr [Obj [("time", Num now);
                    ("volume", Str (formatEther totalRaised))]] |}].
Proof.
  intros Hcase Hsel. cbv zeta. cbn [listenToEvents].
  pose proof (onVolumeEvent_fresh db
                {| saleContractAddress := a;
                   Indexer.totalRaised := totalRaised;
                   blockTimestampMs := now |}
                (toLowerCase a) eq_refl Hsel) as Hfresh.
  unfold onVolumeEvent, sampleOf in Hfresh.
  cbn [saleContractAddress Indexer.totalRaised blockTimestampMs] in Hfresh.
  set (db1 := updateTokenDataVolume db a totalRaised now) in *.
  rewrite insertTokenDataOnSaleCreated_present.
  - unfold selectTokenData in *.
    now rewrite tokenData_insertNewsOnSaleCreated.
  - rewrite Hcase. unfold selectTokenData in *.
    rewrite tokenData_insertNewsOnSaleCreated, Hfresh. discriminate.
Qed.

Lemma late_creation_keeps_history_witness :
  selectTokenData
    (listenToEvents
       (listenToEvents Samples.store (Dec 1700000000000 0)
          (TokensBought "0xNEW" "0xalice" 1500000000000000000%N 100%N))
       (Dec 1700000000001 0)
       (SaleCreated "0xNew" "0xcreator" "New" "NEW" 5000000000000000000%N
          "new.png" "A new sale"))
    (toLowerCase "0xNEW")
  = [{| TokenData.onchainAddress := "0xnew";
        TokenData.volume := Str "1.5";
        TokenData.volumeHistory :=
          Arr [Obj [("time", Num (Dec 1700000000000 0));
                    ("volume", Str "1.5")]] |}].
Proof.
  apply (late_creation_keeps_history Samples.store
           (Dec 1700000000000 0) (Dec 1700000000001 0) "0xNEW" "0xNew");
    reflexivity.
Defined.
